(** * Total/static pressure and temperature corrections (ASME PTC 10)

    A shallow embedding of the two analysis scripts
    [pressure_sensitivity.py] and [temperature_sensitivity.py].

    The scripts compute with Python [float] values, that is IEEE 754
    binary64 numbers, and the conversion functions are ordinary Python
    functions whose arithmetic may raise.  The embedding keeps both
    aspects:

    - every function is written once, over an interface [PyNum] of the
      arithmetic operations that the source uses, in an error monad;
    - the interface is instantiated at [float] (the kernel's binary64
      numbers, with Python's rules for [ZeroDivisionError] and
      [OverflowError]) and at [Q] (the same formulas read in exact
      arithmetic);
    - a second binary64 arithmetic, [NumPy.float64_PyNum], has the same
      values and raises nothing: the sweeps run on [numpy.float64]
      velocities.

    A call of a conversion function with Python floats is the [float]
    instance.  The sweeps are stated on the [float] instance as well; on
    their velocities it computes what the [numpy.float64] arithmetic
    computes, which is proved below.  The exact instance is the algebra
    the formulas come from. *)

From Stdlib Require Import String.
From Stdlib Require Import ZArith QArith Qabs Qpower Floats List Bool Lia Lqa.
Import ListNotations.

Set Warnings "-inexact-float".

(** ** Exceptions and the error monad *)

Inductive exn : Type :=
| ZeroDivisionError
| OverflowError
| ExternalError (msg : string).

Inductive res (A : Type) : Type :=
| Ok (a : A)
| Raise (e : exn).

Arguments Ok {A} a.
Arguments Raise {A} e.

Definition bind {A B : Type} (m : res A) (k : A -> res B) : res B :=
  match m with
  | Ok a => k a
  | Raise e => Raise e
  end.

Declare Scope py_scope.
Delimit Scope py_scope with py.

Notation "x <- m ;; k" := (bind m (fun x => k))
  (at level 61, m at next level, right associativity) : py_scope.

Definition raises {A : Type} (m : res A) (e : exn) : Prop := m = Raise e.

Definition returns {A : Type} (m : res A) : Prop := exists a, m = Ok a.

(** ** The arithmetic the scripts use

    [lit q] is the value of the decimal literal [q] (an integer literal
    when the denominator is 1).  [add], [sub] and [mul] never raise; on
    Python floats true division raises [ZeroDivisionError] on a zero
    divisor and [x ** 2] raises [OverflowError] when the square of a
    finite number is not finite; on [numpy.float64] values neither
    raises.  [eqb], [ltb] and [leb] are Python's [==], [<] and [<=]. *)

Class PyNum (A : Type) : Type := {
  lit : Q -> A;
  add : A -> A -> A;
  sub : A -> A -> A;
  mul : A -> A -> A;
  div : A -> A -> res A;
  pow2 : A -> res A;
  eqb : A -> A -> bool;
  ltb : A -> A -> bool;
  leb : A -> A -> bool
}.

Infix "+" := add : py_scope.
Infix "-" := sub : py_scope.
Infix "*" := mul : py_scope.
Infix "==" := eqb (at level 70, no associativity) : py_scope.
Infix "<?" := ltb : py_scope.
Infix "<=?" := leb : py_scope.

(** *** Binary64: Python's [float] *)

Module Binary64.

(** int -> float conversion, exact for magnitudes below 2^53. *)
Definition of_Z (z : Z) : float :=
  if (z <? 0)%Z
  then PrimFloat.opp (PrimFloat.of_uint63 (Uint63.of_Z (- z)))
  else PrimFloat.of_uint63 (Uint63.of_Z z).

(** A decimal literal [n/d] with [n] and [d] below 2^53: the division of
    the two exact integers is correctly rounded, so the result is the
    binary64 number nearest to the literal, as Python's parser gives. *)
Definition of_Q (q : Q) : float :=
  PrimFloat.div (of_Z (Qnum q)) (of_Z (Zpos (Qden q))).

Definition is_finite (x : float) : bool :=
  negb (PrimFloat.is_nan x || PrimFloat.is_infinity x).

(** [float.__truediv__]: only a zero divisor raises. *)
Definition truediv (x y : float) : res float :=
  if PrimFloat.eqb y PrimFloat.zero then Raise ZeroDivisionError
  else Ok (PrimFloat.div x y).

(** [float.__pow__] with exponent 2.  CPython answers the special cases
    itself (NaN, infinities, zeros, a negative base, which it replaces by
    its absolute value) and leaves the rest to the platform's [pow]; an
    infinite result from a finite base is ERANGE, which it turns into
    [OverflowError], and underflow to zero is silent.  The value is taken
    here to be the correctly rounded square.  A platform's [pow] need not
    be correctly rounded, so that for some arguments its last bit can
    differ; on the velocities of the sweeps it gives the rounded square.
    The statements made for every velocity therefore speak of the value
    that [V ** 2] returns, and use of it what does not depend on its last
    bit: its sign, whether it is finite, and the cases that CPython
    answers itself. *)
Definition square (x : float) : res float :=
  let r := PrimFloat.mul x x in
  if is_finite x && PrimFloat.is_infinity r then Raise OverflowError
  else Ok r.

#[export] Instance float_PyNum : PyNum float := {|
  lit := of_Q;
  add := PrimFloat.add;
  sub := PrimFloat.sub;
  mul := PrimFloat.mul;
  div := truediv;
  pow2 := square;
  eqb := PrimFloat.eqb;
  ltb := PrimFloat.ltb;
  leb := PrimFloat.leb
|}.

End Binary64.

(** *** Binary64 under NumPy: [numpy.float64]

    The velocities of the sweeps are elements of the array that
    [np.linspace] returns, that is [numpy.float64] scalars, and an
    operation with such an operand gives one again.  The values are
    those of Python's [float]; the difference is that nothing raises: a
    zero divisor gives an infinity or NaN and a [**] that overflows an
    infinity, each with a [RuntimeWarning] only. *)

Module NumPy.

(** [numpy.float64.__truediv__] *)
Definition truediv (x y : float) : res float := Ok (PrimFloat.div x y).

(** [numpy.float64.__pow__] with exponent 2 *)
Definition square (x : float) : res float := Ok (PrimFloat.mul x x).

Definition float64_PyNum : PyNum float := {|
  lit := Binary64.of_Q;
  add := PrimFloat.add;
  sub := PrimFloat.sub;
  mul := PrimFloat.mul;
  div := truediv;
  pow2 := square;
  eqb := PrimFloat.eqb;
  ltb := PrimFloat.ltb;
  leb := PrimFloat.leb
|}.

End NumPy.

(** *** Exact arithmetic: the rationals *)

Module Exact.

Definition truediv (x y : Q) : res Q :=
  if Qeq_bool y 0 then Raise ZeroDivisionError else Ok (x / y)%Q.

Definition square (x : Q) : res Q := Ok (x * x)%Q.

Definition Qltb (x y : Q) : bool := negb (Qle_bool y x).

#[export] Instance Q_PyNum : PyNum Q := {|
  lit := fun q => q;
  add := Qplus;
  sub := Qminus;
  mul := Qmult;
  div := truediv;
  pow2 := square;
  eqb := Qeq_bool;
  ltb := Qltb;
  leb := Qle_bool
|}.

End Exact.

Export Binary64 Exact.

(** ** pressure_sensitivity.py: the conversion functions *)

Section Pressure.
Context {A : Type} `{PyNum A}.
Local Open Scope py_scope.

(** [return P_static + 0.5 * rho * V**2] *)
Definition static_to_total_pressure (P_static V rho : A) : res A :=
  V2 <- pow2 V ;;
  Ok (P_static + lit 0.5 * rho * V2).

(** [return P_total - 0.5 * rho * V**2] *)
Definition total_to_static_pressure (P_total V rho : A) : res A :=
  V2 <- pow2 V ;;
  Ok (P_total - lit 0.5 * rho * V2).

End Pressure.

(** ** temperature_sensitivity.py: the conversion functions *)

Section Temperature.
Context {A : Type} `{PyNum A}.
Local Open Scope py_scope.

(** [return T_static + 0.5 * V**2 / Cp] *)
Definition static_to_total_temperature (T_static V Cp : A) : res A :=
  V2 <- pow2 V ;;
  k <- div (lit 0.5 * V2) Cp ;;
  Ok (T_static + k).

(** [return T_total - 0.5 * V**2 / Cp] *)
Definition total_to_static_temperature (T_total V Cp : A) : res A :=
  V2 <- pow2 V ;;
  k <- div (lit 0.5 * V2) Cp ;;
  Ok (T_total - k).

(** [return T_measured - (1 - rf) * 0.5 * V**2 / Cp] *)
Definition measured_to_total_temperature (T_measured V Cp rf : A) : res A :=
  V2 <- pow2 V ;;
  k <- div ((lit 1 - rf) * lit 0.5 * V2) Cp ;;
  Ok (T_measured - k).

(** The default of the keyword argument [rf=0.65]. *)
Definition rf_default : A := lit 0.65.

End Temperature.

(** ** numpy.linspace

    [np.linspace(start, stop, num)] with the default [endpoint=True], as
    NumPy computes it: [step = (stop - start) / (num - 1)], the samples
    are [arange(0, num) * step + start], and the last one is then
    overwritten with [stop].  When the step is zero NumPy divides the
    indices first; with at most one sample the step is undefined and the
    indices are multiplied by [stop - start]. *)

Section Linspace.
Context {A : Type} `{PyNum A}.
Local Open Scope py_scope.

Definition of_nat (n : nat) : A := lit (inject_Z (Z.of_nat n)).

(** [arange(0, num)] as floats. *)
Definition arange (num : nat) : list A := map of_nat (seq 0 num).

Fixpoint mapM {X Y : Type} (f : X -> res Y) (xs : list X) : res (list Y) :=
  match xs with
  | [] => Ok []
  | x :: xs' => y <- f x ;; ys <- mapM f xs' ;; Ok (y :: ys)
  end.

(** [y[-1] = stop] *)
Definition set_last (y : list A) (stop : A) : list A :=
  removelast y ++ [stop].

Definition linspace (start stop : A) (num : nat) : res (list A) :=
  let n_div := (num - 1)%nat in
  let start := start * lit 1 in
  let stop := stop * lit 1 in
  let delta := stop - start in
  let y := arange num in
  y <- (if (0 <? n_div)%nat then
          step <- div delta (of_nat n_div) ;;
          if step == lit 0 then
            y <- mapM (fun yi => div yi (of_nat n_div)) y ;;
            Ok (map (fun yi => yi * delta) y)
          else Ok (map (fun yi => yi * step) y)
        else Ok (map (fun yi => yi * delta) y)) ;;
  let y := map (fun yi => yi + start) y in
  Ok (if (1 <? num)%nat then set_last y stop else y).

End Linspace.

(** ** Loops that append to result lists *)

Fixpoint for_each {S X : Type} (xs : list X) (body : X -> S -> res S) (s : S)
  : res S :=
  match xs with
  | [] => Ok s
  | x :: xs' => bind (body x s) (for_each xs' body)
  end.

(** ** pressure_sensitivity.py: the script *)

Section PressureScript.
Context {A : Type} `{PyNum A}.
Local Open Scope py_scope.

(** The part of the property dictionary that the script reads. *)
Record GasProperties : Type := { rho : A }.

Definition Composition : Type := list (string * A).

(** [pvtlib.AGA8('GERG-2008').calculate_from_PT]: the external equation
    of state, a deterministic function of composition, pressure and
    temperature that may fail with an error of its own. *)
Variable calculate_from_PT : Composition -> A -> A -> res GasProperties.

Definition P_static : A := lit 1.
Definition T : A := lit 20.

Definition composition : Composition :=
  [("N2"%string, lit 1); ("CO2"%string, lit 1); ("C1"%string, lit 90);
   ("C2"%string, lit 5); ("C3"%string, lit 2); ("iC4"%string, lit 0.5);
   ("nC4"%string, lit 0.5)].

Record PressureLists : Type := {
  P_static_values : list A;
  P_relative_diff_total_static : list A
}.

(** One pass of the loop body for the sample [V].  In the script [V] is
    a [numpy.float64], an element of [velocities], so that the pass runs
    on [NumPy.float64_PyNum], where nothing raises. *)
Definition pressure_body (gas_properties : GasProperties) (V : A)
    (s : PressureLists) : res PressureLists :=
  P_t <- static_to_total_pressure (P_static * lit 100000) V
           (rho gas_properties) ;;
  P_total <- div P_t (lit 100000) ;;
  let P_static_values' := P_static_values s ++ [P_static] in
  relative_difference <- div (lit 100 * (P_total - P_static)) P_static ;;
  Ok {| P_static_values := P_static_values';
        P_relative_diff_total_static :=
          P_relative_diff_total_static s ++ [relative_difference] |}.

Record PressureRun : Type := {
  pr_velocities : list A;
  pr_lists : PressureLists
}.

(** The computation of the script, lines 73 to 91: the lookup, the
    velocities and the sweep.  [calculate_from_PT] stands for the method
    of the object that line 70 builds.  The calls of [matplotlib] that
    follow (lines 94 to 102) draw [P_relative_diff_total_static] against
    [velocities], write the chart and show it; they are outside this
    definition, and so is what they may raise. *)
Definition pressure_script : res PressureRun :=
  gas_properties <- calculate_from_PT composition P_static T ;;
  velocities <- linspace (lit 0) (lit 300) 100 ;;
  s <- for_each velocities (pressure_body gas_properties)
         {| P_static_values := []; P_relative_diff_total_static := [] |} ;;
  Ok {| pr_velocities := velocities; pr_lists := s |}.

End PressureScript.

Arguments GasProperties A : clear implicits.
Arguments Composition A : clear implicits.
Arguments PressureLists A : clear implicits.
Arguments PressureRun A : clear implicits.
Arguments rho {A} _.
Arguments P_static_values {A} _.
Arguments P_relative_diff_total_static {A} _.
Arguments pr_velocities {A} _.
Arguments pr_lists {A} _.

(** ** temperature_sensitivity.py: the script *)

Section TemperatureScript.
Context {A : Type} `{PyNum A}.
Local Open Scope py_scope.

Definition T_total : A := lit 293.15.
Definition Cp : A := lit 2080.
Definition rf : A := lit 0.65.

Record TemperatureLists : Type := {
  T_measured_values : list A;
  T_static_values : list A;
  T_diff_measured_static : list A
}.

(** One pass of the loop body for the sample [V], a [numpy.float64] as
    in the pressure script. *)
Definition temperature_body (V : A) (s : TemperatureLists)
    : res TemperatureLists :=
  T_static <- total_to_static_temperature T_total V Cp ;;
  V2 <- pow2 V ;;
  k <- div ((lit 1 - rf) * lit 0.5 * V2) Cp ;;
  let T_measured := T_static + k in
  Ok {| T_static_values := T_static_values s ++ [T_static];
        T_measured_values := T_measured_values s ++ [T_measured];
        T_diff_measured_static :=
          T_diff_measured_static s ++ [T_measured - T_static] |}.

Record TemperatureRun : Type := {
  tr_velocities : list A;
  tr_lists : TemperatureLists
}.

(** The computation of the script, lines 77 to 90: the velocities and
    the sweep.  The calls of [matplotlib] that follow (lines 93 to 102)
    are outside this definition, and so is what they may raise. *)
Definition temperature_script : res TemperatureRun :=
  velocities <- linspace (lit 0) (lit 300) 100 ;;
  s <- for_each velocities temperature_body
         {| T_measured_values := []; T_static_values := [];
            T_diff_measured_static := [] |} ;;
  Ok {| tr_velocities := velocities; tr_lists := s |}.

End TemperatureScript.

Arguments TemperatureLists A : clear implicits.
Arguments TemperatureRun A : clear implicits.
Arguments T_measured_values {A} _.
Arguments T_static_values {A} _.
Arguments T_diff_measured_static {A} _.
Arguments tr_velocities {A} _.
Arguments tr_lists {A} _.

(** ** The expressions the properties are about *)

Section RoundTrips.
Context {A : Type} `{PyNum A}.
Local Open Scope py_scope.

(** [total_to_static_pressure(static_to_total_pressure(P, V, rho), V, rho)] *)
Definition pressure_round_trip (P V rho : A) : res A :=
  P_total <- static_to_total_pressure P V rho ;;
  total_to_static_pressure P_total V rho.

(** [total_to_static_temperature(static_to_total_temperature(T, V, Cp), V, Cp)] *)
Definition temperature_round_trip (T V Cp : A) : res A :=
  T_total <- static_to_total_temperature T V Cp ;;
  total_to_static_temperature T_total V Cp.

(** [m] returns a value that Python's [==] identifies with [x]. *)
Definition returns_eq (m : res A) (x : A) : Prop :=
  exists y, m = Ok y /\ (y == x) = true.

(** [m] returns a value that Python's [==] tells apart from [x]. *)
Definition returns_neq (m : res A) (x : A) : Prop :=
  exists y, m = Ok y /\ (y == x) = false.

End RoundTrips.

(** ** Round trips the other way *)

Section ReverseRoundTrips.
Context {A : Type} `{PyNum A}.
Local Open Scope py_scope.

(** [static_to_total_pressure(total_to_static_pressure(P, V, rho), V, rho)] *)
Definition pressure_round_trip_back (P V rho : A) : res A :=
  P_static <- total_to_static_pressure P V rho ;;
  static_to_total_pressure P_static V rho.

(** [static_to_total_temperature(total_to_static_temperature(T, V, Cp), V, Cp)] *)
Definition temperature_round_trip_back (T V Cp : A) : res A :=
  T_static <- total_to_static_temperature T V Cp ;;
  static_to_total_temperature T_static V Cp.

End ReverseRoundTrips.

(** ** The exact value of a binary64 number *)

Section RoundingDefinitions.
Local Open Scope Z_scope.

Definition b2z (b : bool) : Z := if b then 1 else 0.

(** [mrs] is [m0] shifted right by [k] bits: what was shifted out is
    [b2z r * 2^(k-1) + t / 2], recorded in the round and sticky bits. *)
Definition shr_inv (m0 k : Z) (mrs : shr_record) : Prop :=
exists t,
  0 <= t < 2 ^ k /\
  2 * m0 = (2 * shr_m mrs + b2z (shr_r mrs)) * 2 ^ k + t /\
  (shr_s mrs = true <-> 0 < t) /\
  0 <= shr_m mrs.

(** The exponent of the last bit kept for a number of magnitude [2^x]. *)
Definition fexp64 (x : Z) : Z := Z.max (x - 53) (-1074).

(** The integer [M * 2^p] that the rounding of [m] keeps: [M] is the
    floor [m1] of [m / 2^p] or its successor, nearest to [m / 2^p]. *)
Definition rounding_of (m p m1 M : Z) : Prop :=
0 <= p /\
m1 * 2 ^ p <= m < (m1 + 1) * 2 ^ p /\
m1 <= M <= m1 + 1 /\
(M = m1 + 1 -> m1 * 2 ^ p < m) /\
Z.abs (2 * (M * 2 ^ p) - 2 * m) <= 2 ^ p /\
(0 < p -> 2 ^ 52 <= m1 < 2 ^ 53) /\
(p = 0 -> M = m).

End RoundingDefinitions.

(** [m * 2^e] *)
Definition QV (m e : Z) : Q := (inject_Z m * 2 ^ e)%Q.

(** The rational a finite number stands for. *)
Definition SF2Q (x : spec_float) : Q :=
  match x with
  | S754_finite s m e => QV (cond_Zopp s (Zpos m)) e
  | _ => 0
  end.

(** [r] is a rounding of the real [v]: an overflow, or a valid number
    within a relative error of [2^-53]. *)
Definition rounded (v : Q) (r : spec_float) : Prop :=
  match r with
  | S754_nan => False
  | S754_infinity _ => True
  | _ => valid_binary r = true /\ (Qabs (SF2Q r - v) * 2 ^ 53 <= Qabs v)%Q
  end.

(** The sign bit of a number ([false] for NaN). *)
Definition SFsign (x : spec_float) : bool :=
  match x with
  | S754_zero s | S754_infinity s | S754_finite s _ _ => s
  | S754_nan => false
  end.

(** A number (not NaN) whose sign bit is clear. *)
Definition SF_nonneg (x : spec_float) : Prop :=
  x <> S754_nan /\ SFsign x = false.

(** Zeros and finite non-zero numbers. *)
Inductive SF_finite : spec_float -> Prop :=
| SF_finite_zero s : SF_finite (S754_zero s)
| SF_finite_num s m e : SF_finite (S754_finite s m e).

(** The rational a finite float stands for ([0] for infinities and NaN,
    which the statements below exclude with [is_finite]). *)
Definition F2Q (x : float) : Q := SF2Q (Prim2SF x).

(** [|x - q| <= tol], decided exactly. *)
Definition within (tol : Q) (x : float) (q : Q) : bool :=
  is_finite x && Qle_bool (Qabs (F2Q x - q)) tol.

(** ** What each pass of the sweeps records *)

Section Samples.
Context {A : Type} `{PyNum A}.
Local Open Scope py_scope.

(** [100 * (P_total - P_static) / P_static], where [P_total] is
    [static_to_total_pressure(P_static*10**5, V, rho)/10**5]. *)
Definition relative_difference_at (rho V r : A) : Prop :=
  exists P_t P_total,
    static_to_total_pressure (P_static * lit 100000) V rho = Ok P_t /\
    div P_t (lit 100000) = Ok P_total /\
    div (lit 100 * (P_total - P_static)) P_static = Ok r.

(** [(1 - rf) * 0.5 * V**2 / Cp] *)
Definition kinetic_correction (V : A) : res A :=
  V2 <- pow2 V ;;
  div ((lit 1 - rf) * lit 0.5 * V2) Cp.

(** The static temperature, the measured temperature and their
    difference, as one pass of the temperature loop computes them. *)
Definition temperature_sample_at (V : A) (x : A * A * A) : Prop :=
  let '(T_static, T_measured, d) := x in
  exists k,
    total_to_static_temperature T_total V Cp = Ok T_static /\
    kinetic_correction V = Ok k /\
    T_measured = T_static + k /\
    d = T_measured - T_static.

(** The three result lists, read row by row. *)
Definition rows (s : TemperatureLists A) : list (A * A * A) :=
  combine (combine (T_static_values s) (T_measured_values s))
    (T_diff_measured_static s).

End Samples.

(** ** The velocity sweep as the scripts get it *)

Definition ok {A : Type} (m : res A) : bool :=
  match m with Ok _ => true | Raise _ => false end.

Definition value {A : Type} (d : A) (m : res A) : A :=
  match m with Ok a => a | Raise _ => d end.

(** [np.linspace(0, 300, 100)] in binary64 and in exact arithmetic. *)
Definition velocities_binary64 : list float :=
  Eval vm_compute in value [] (linspace (lit 0) (lit 300) 100).

Definition velocities_exact : list Q :=
  Eval vm_compute in value [] (linspace (lit 0) (lit 300) 100).

(** Consecutive elements of a list. *)
Fixpoint adjacent {A : Type} (xs : list A) : list (A * A) :=
  match xs with
  | x :: (y :: _) as xs' => (x, y) :: adjacent xs'
  | _ => []
  end.

(** A property of the results of the three temperature conversions at
    the same arguments. *)
Definition all_three {A : Type} `{PyNum A} (P : res A -> Prop)
  (T V Cp rf : A) : Prop :=
  P (static_to_total_temperature T V Cp) /\
  P (total_to_static_temperature T V Cp) /\
  P (measured_to_total_temperature T V Cp rf).

(** The recorded difference [d] is within [tol] of the rounded
    correction [(1 - rf) * 0.5 * V**2 / Cp]. *)
Definition difference_close (tol : Q) (V d : float) : bool :=
  match kinetic_correction V with
  | Ok k => within tol d (F2Q k)
  | Raise _ => false
  end.

(** Elements with their indices. *)
Definition indexed {A : Type} (xs : list A) : list (nat * A) :=
  combine (seq 0 (length xs)) xs.

(** The exact sample [300 * i / 99]. *)
Definition exact_sample (i : nat) : Q :=
  (300 * inject_Z (Z.of_nat i) / 99)%Q.

(** ** Rounding to nearest

    What the operations of binary64 arithmetic compute, stated on the
    rational values: the exact result, rounded to a nearest number. *)

(** [x] lies in [[m, m + 1)], at the place that the location tells:
    on [m], below, at or above the middle. *)
Definition located (x : Q) (m : Z) (l : location) : Prop :=
  match l with
  | loc_Exact => (x == inject_Z m)%Q
  | loc_Inexact Lt => (inject_Z m < x /\ x < inject_Z m + (1 # 2))%Q
  | loc_Inexact Eq => (x == inject_Z m + (1 # 2))%Q
  | loc_Inexact Gt => (inject_Z m + (1 # 2) < x /\ x < inject_Z m + 1)%Q
  end.

(** The largest number that is rounded to a finite one:
    [2^1024 - 2^970]. *)
Definition Omega : Q := QV (2 ^ 54 - 1) 970.

(** No finite number is nearer to [Y] than [r] is. *)
Definition nearest (Y : Q) (r : spec_float) : Prop :=
  forall t, SF_finite t -> valid_binary t = true ->
    (Qabs (SF2Q r - Y) <= Qabs (SF2Q t - Y))%Q.

(** [r] is a rounding to nearest of the real [Y]: an infinity when [Y]
    is too large, a nearest finite number otherwise. *)
Definition rounds_to (Y : Q) (r : spec_float) : Prop :=
  match r with
  | S754_nan => False
  | S754_infinity s => if s then (Y <= - Omega)%Q else (Omega <= Y)%Q
  | _ => valid_binary r = true /\ (Qabs Y <= Omega)%Q /\ nearest Y r
  end.

(** Half the distance between two subnormal numbers: [2^-1075]. *)
Definition eta : Q := 2 ^ (-1075).

(** A finite [r] is within half a unit in the last place of [Y]: a
    relative error of [2^-53], or [2^-1075] where the numbers are
    subnormal. *)
Definition close_to (Y : Q) (r : spec_float) : Prop :=
  SF_finite r -> (Qabs (SF2Q r - Y) <= (1 # 2 ^ 53) * Qabs Y + eta)%Q.

(** ** The expression of the pressure loop *)

(** [100 * (P_total - P_static) / P_static] for the square [V2] of a
    velocity, as one pass of the pressure loop computes it. *)
Definition relative_difference_of (rho V2 : float) : float :=
  ((lit 100 * ((P_static * lit 100000 + lit 0.5 * rho * V2)%py
               / lit 100000 - P_static)%float)%py / P_static)%float.

(** * Properties *)

(** ** The error monad and the loops *)

Lemma bind_Ok {A B : Type} (m : res A) (k : A -> res B) (b : B) :
  bind m k = Ok b -> exists a, m = Ok a /\ k a = Ok b.
Proof.
  destruct m as [a|e]; simpl; intros E; [eauto | discriminate].
Qed.

Lemma bind_Raise {A B : Type} (m : res A) (k : A -> res B) (e : exn) :
  m = Raise e -> bind m k = Raise e.
Proof. intros ->. reflexivity. Qed.

Lemma for_each_Raise {S X : Type} (body : X -> S -> res S) x xs s e :
  body x s = Raise e -> for_each (x :: xs) body s = Raise e.
Proof. intros E. simpl. now rewrite E. Qed.

Lemma for_each_app {S X : Type} (body : X -> S -> res S) xs ys s :
  for_each (xs ++ ys) body s = bind (for_each xs body s) (for_each ys body).
Proof.
  revert s. induction xs as [|x xs IH]; intros s; simpl; [reflexivity|].
  destruct (body x s) as [s'|e]; simpl; [apply IH | reflexivity].
Qed.

(** ** Round trips of the conversion functions *)

Section ExactRoundTrips.
Local Open Scope Q_scope.

Lemma exact_div_nonzero (x y : Q) :
  ~ y == 0 -> div x y = Ok (x / y).
Proof.
  intros Hy. simpl. unfold Exact.truediv.
  destruct (Qeq_bool y 0) eqn:E; [|reflexivity].
  apply Qeq_bool_iff in E. contradiction.
Qed.

Lemma exact_div_zero (x y : Q) :
  y == 0 -> div x y = Raise ZeroDivisionError.
Proof.
  intros Hy. simpl. unfold Exact.truediv.
  apply Qeq_bool_iff in Hy. now rewrite Hy.
Qed.

Lemma exact_pressure_round_trip (P V rho : Q) :
  returns_eq (pressure_round_trip P V rho) P.
Proof.
  eexists. split; [reflexivity|].
  apply Qeq_bool_iff. simpl. ring.
Qed.

Lemma exact_temperature_round_trip (T V Cp : Q) :
  ~ Cp == 0 -> returns_eq (temperature_round_trip T V Cp) T.
Proof.
  intros HCp.
  unfold temperature_round_trip, static_to_total_temperature,
    total_to_static_temperature.
  simpl pow2. unfold Exact.square. simpl bind.
  rewrite (exact_div_nonzero _ _ HCp). simpl bind.
  eexists. split; [reflexivity|].
  apply Qeq_bool_iff. simpl. ring.
Qed.

End ExactRoundTrips.

(** C1, as stated, fails on binary64: the round trip of
    [P = 0.1] at [V = 1], [rho = 1] returns [0.09999999999999998], which
    [==] tells apart from [0.1]. *)
Lemma pressure_round_trip_binary64_inexact :
  (lit 0 <=? 1%float)%py = true /\ (lit 0 <? 1%float)%py = true /\
  pressure_round_trip 0.1%float 1%float 1%float = Ok 0.099999999999999978%float /\
  returns_neq (pressure_round_trip 0.1%float 1%float 1%float) 0.1%float.
Proof.
  repeat split; try reflexivity.
  eexists. split; reflexivity.
Qed.

(** ** Binary64 rounding *)

Section RoundingZ1.
Local Open Scope Z_scope.

Lemma digits2_pos_bounds (m : positive) :
2 ^ (Zpos (digits2_pos m) - 1) <= Zpos m < 2 ^ Zpos (digits2_pos m).
Proof.
induction m as [m IH|m IH|]; simpl digits2_pos.
- rewrite Pos2Z.inj_succ.
  replace (Z.succ (Zpos (digits2_pos m)) - 1) with (Z.succ (Zpos (digits2_pos m) - 1)) by lia.
  rewrite !Z.pow_succ_r by lia. lia.
- rewrite Pos2Z.inj_succ.
  replace (Z.succ (Zpos (digits2_pos m)) - 1) with (Z.succ (Zpos (digits2_pos m) - 1)) by lia.
  rewrite !Z.pow_succ_r by lia. lia.
- simpl. lia.
Qed.

(** The number of digits is determined by the bounds. *)
Lemma digits2_pos_unique (m : positive) (d : Z) :
2 ^ (d - 1) <= Zpos m < 2 ^ d -> 0 < d -> Zpos (digits2_pos m) = d.
Proof.
intros [L U] Hd. destruct (digits2_pos_bounds m) as [L' U'].
set (d' := Zpos (digits2_pos m)) in *.
assert (0 < d') by (unfold d'; lia).
destruct (Z.lt_trichotomy d' d) as [C|[C|C]]; [|exact C|].
- assert (2 ^ d' <= 2 ^ (d - 1)) by (apply Z.pow_le_mono_r; lia). lia.
- assert (2 ^ d <= 2 ^ (d' - 1)) by (apply Z.pow_le_mono_r; lia). lia.
Qed.

Lemma shr_inv_start (m0 : Z) :
0 <= m0 -> shr_inv m0 0 {| shr_m := m0; shr_r := false; shr_s := false |}.
Proof.
intros H. exists 0. simpl. repeat split; try lia; try discriminate.
Qed.

Lemma shr_1_inv (m0 k : Z) (mrs : shr_record) :
0 <= k -> shr_inv m0 k mrs -> shr_inv m0 (k + 1) (shr_1 mrs).
Proof.
intros Hk (t & Ht & E & Hs & Hm).
destruct mrs as [m r s]. cbn [shr_m shr_r shr_s] in *.
exists (b2z r * 2 ^ k + t).
rewrite Z.pow_add_r by lia. change (2 ^ 1) with 2.
assert (P : 0 < 2 ^ k) by (apply Z.pow_pos_nonneg; lia).
assert (Hor : (r || s = true <-> 0 < b2z r * 2 ^ k + t)).
{ destruct r; cbn [b2z orb].
  - split; [lia|reflexivity].
  - rewrite Hs. split; lia. }
assert (Hr : 0 <= b2z r <= 1) by (destruct r; cbn [b2z]; lia).
destruct m as [|[p|p|]|p]; try lia;
  cbn [shr_1 shr_m shr_r shr_s];
  (split; [nia|]);
  (split; [|split; [exact Hor|lia]]).
- rewrite E. cbn [b2z]. lia.
- rewrite E. rewrite Pos2Z.inj_xI. cbn [b2z]. lia.
- rewrite E. rewrite Pos2Z.inj_xO. cbn [b2z]. lia.
- rewrite E. cbn [b2z]. lia.
Qed.

Lemma iter_pos_shr_inv (p : positive) :
forall m0 k mrs,
  0 <= k -> shr_inv m0 k mrs ->
  shr_inv m0 (k + Zpos p) (iter_pos shr_1 p mrs).
Proof.
induction p as [p IH|p IH|]; intros m0 k mrs Hk H; simpl iter_pos.
- replace (k + Zpos p~1) with ((k + 1 + Zpos p) + Zpos p) by lia.
  apply IH; [lia|]. apply IH; [lia|]. now apply shr_1_inv.
- replace (k + Zpos p~0) with ((k + Zpos p) + Zpos p) by lia.
  apply IH; [lia|]. now apply IH.
- now apply shr_1_inv.
Qed.

(** Rounding to nearest even after a shift by [k] bits is off by at most
    half a unit of the last kept bit. *)
Lemma round_nearest_even_inv (m0 k : Z) (mrs : shr_record) :
0 <= k -> shr_inv m0 k mrs ->
let m2 := round_nearest_even (shr_m mrs) (loc_of_shr_record mrs) in
shr_m mrs <= m2 <= shr_m mrs + 1 /\
Z.abs (2 * (m2 * 2 ^ k) - 2 * m0) <= 2 ^ k /\
(m0 = shr_m mrs * 2 ^ k -> m2 = shr_m mrs).
Proof.
intros Hk (t & Ht & E & Hs & Hm).
destruct mrs as [m r s]. cbn [shr_m shr_r shr_s] in *.
assert (P : 0 < 2 ^ k) by (apply Z.pow_pos_nonneg; lia).
assert (St : s = false -> t = 0).
{ intros ->. destruct (Z.eq_dec t 0); [assumption|].
  assert (false = true) by (apply Hs; lia). discriminate. }
assert (Tt : s = true -> 0 < t) by (intros ->; now apply Hs).
destruct r, s; cbn [loc_of_shr_record round_nearest_even b2z] in *.
- specialize (Tt eq_refl). split; [lia|]. split; [nia|]. intros C. nia.
- specialize (St eq_refl). subst t.
  destruct (Z.even m); (split; [lia|]); (split; [nia|]); intros C; nia.
- specialize (Tt eq_refl). split; [lia|]. split; [nia|]. reflexivity.
- specialize (St eq_refl). subst t. split; [lia|]. split; [nia|]. reflexivity.
Qed.

(** ** Rounding an aligned mantissa *)

Lemma fexp_fexp64 (x : Z) : fexp prec emax x = fexp64 x.
Proof. reflexivity. Qed.

Lemma bounded_digits (m : positive) (e : Z) :
bounded prec emax m e = true ->
Zpos m < 2 ^ 53 /\ -1074 <= e <= 971 /\ (-1074 < e -> 2 ^ 52 <= Zpos m).
Proof.
unfold bounded, canonical_mantissa. rewrite fexp_fexp64. unfold fexp64.
intros H. apply andb_true_iff in H. destruct H as [C B].
apply Z.eqb_eq in C. apply Z.leb_le in B. change (emax - prec) with 971 in B.
destruct (digits2_pos_bounds m) as [L U].
set (d := Zpos (digits2_pos m)) in *.
assert (Hd : 0 < d) by (unfold d; lia).
split; [|split; [lia|]].
- assert (d <= 53) by lia.
  assert (2 ^ d <= 2 ^ 53) by (apply Z.pow_le_mono_r; lia). lia.
- intros He. assert (d = 53) by lia.
  replace (d - 1) with 52 in L by lia. exact L.
Qed.

Lemma bounded_intro (m : positive) (e : Z) :
2 ^ 52 <= Zpos m < 2 ^ 53 -> -1074 <= e <= 971 ->
bounded prec emax m e = true.
Proof.
intros Hm He. unfold bounded, canonical_mantissa.
rewrite fexp_fexp64. unfold fexp64.
rewrite (digits2_pos_unique m 53) by (change (53 - 1) with 52; lia).
apply andb_true_iff. split; [apply Z.eqb_eq; lia|].
apply Z.leb_le. change (emax - prec) with 971. lia.
Qed.

Lemma binary_round_aux_spec (s : bool) (m : positive) (e : Z) :
e <= fexp64 (Zpos (digits2_pos m) + e) ->
-1074 <= e ->
exists p m1 M,
  rounding_of (Zpos m) p m1 M /\
  (binary_round_aux prec emax s (Zpos m) e loc_Exact = S754_infinity s /\
   971 <= e + p /\ 2 ^ 53 <= M * 2 ^ (e + p - 971)
   \/
   exists m' e',
     binary_round_aux prec emax s (Zpos m) e loc_Exact = S754_finite s m' e' /\
     bounded prec emax m' e' = true /\
     e + p <= e' /\
     Zpos m' * 2 ^ (e' - (e + p)) = M).
Proof.
intros Hal Hmin.
destruct (digits2_pos_bounds m) as [L U].
set (d := Zpos (digits2_pos m)) in *.
assert (Hd : 0 < d) by (unfold d; lia).
unfold binary_round_aux, shr_fexp. cbn [Zdigits2 shr_record_of_loc].
fold d. rewrite fexp_fexp64.
destruct (fexp64 (d + e) - e) as [|p|p] eqn:En; [| |lia].
- (* no bit is shifted out: the result is exact *)
  exists 0, (Zpos m), (Zpos m).
  split.
  { unfold rounding_of. rewrite Z.pow_0_r.
    repeat split; try lia. }
  cbn [shr shr_m loc_of_shr_record round_nearest_even shr_r shr_s].
  cbn [Zdigits2 shr_record_of_loc]. fold d. rewrite fexp_fexp64, En.
  cbn [shr shr_m].
  change (emax - prec) with 971.
  destruct (e <=? 971) eqn:Ee.
  + right. exists m, e. apply Z.leb_le in Ee.
    split; [reflexivity|]. split.
    * unfold bounded, canonical_mantissa. fold d. rewrite fexp_fexp64.
      apply andb_true_iff. split; [apply Z.eqb_eq; lia|].
      apply Z.leb_le. change (emax - prec) with 971. lia.
    * split; [lia|]. replace (e - (e + 0)) with 0 by lia.
      rewrite Z.pow_0_r. lia.
  + left. apply Z.leb_gt in Ee. split; [reflexivity|]. split; [lia|].
    assert (Hd53 : d = 53) by (unfold fexp64 in En; lia).
    rewrite Hd53 in L. change (53 - 1) with 52 in L.
    rewrite Z.add_0_r.
    assert (2 ^ 1 <= 2 ^ (e - 971)) by (apply Z.pow_le_mono_r; lia).
    change (2 ^ 1) with 2 in *. change (2 ^ 53) with (2 ^ 52 * 2). nia.
- (* [p] bits are shifted out *)
  assert (Hp : Zpos p = d - 53) by (unfold fexp64 in En; lia).
  cbn [shr].
  pose proof (iter_pos_shr_inv p (Zpos m) 0
                {| shr_m := Zpos m; shr_r := false; shr_s := false |}
                (Z.le_refl 0) (shr_inv_start (Zpos m) (Pos2Z.is_nonneg m))) as I.
  rewrite Z.add_0_l in I.
  set (mrs := iter_pos shr_1 p _) in *.
  pose proof (round_nearest_even_inv (Zpos m) (Zpos p) mrs (Pos2Z.is_nonneg p) I) as R.
  cbv zeta in R. destruct R as (RM & Rerr & Rex).
  destruct I as (t & Ht & E & _ & Hm1).
  set (m1 := shr_m mrs) in *.
  set (M := round_nearest_even m1 (loc_of_shr_record mrs)) in *.
  assert (P : 0 < 2 ^ Zpos p) by (apply Z.pow_pos_nonneg; lia).
  assert (Hb : 0 <= b2z (shr_r mrs) <= 1) by (destruct (shr_r mrs); cbn [b2z]; lia).
  assert (Fl : m1 * 2 ^ Zpos p <= Zpos m < (m1 + 1) * 2 ^ Zpos p) by nia.
  assert (D : 2 ^ (d - 1) = 2 ^ 52 * 2 ^ Zpos p).
  { rewrite <- Z.pow_add_r by lia. f_equal. lia. }
  assert (D' : 2 ^ d = 2 ^ 53 * 2 ^ Zpos p).
  { rewrite <- Z.pow_add_r by lia. f_equal. lia. }
  assert (N : 2 ^ 52 <= m1 < 2 ^ 53) by nia.
  exists (Zpos p), m1, M.
  split.
  { unfold rounding_of. repeat split; lia. }
  assert (HM : 2 ^ 52 <= M <= 2 ^ 53) by lia.
  destruct M as [|q|q] eqn:EM; [lia| |lia].
  cbn [Zdigits2 shr_record_of_loc]. rewrite fexp_fexp64.
  set (f := e + Zpos p).
  assert (Hf : -1074 < f) by (unfold f; lia).
  destruct (Z.eq_dec (Zpos q) (2 ^ 53)) as [C|C].
  + (* the rounding carried into a 54th bit *)
    assert (q = 9007199254740992%positive) by (change (2 ^ 53) with 9007199254740992 in C; lia).
    subst q.
    replace (fexp64 (Zpos (digits2_pos 9007199254740992) + f) - f) with 1
      by (cbn [digits2_pos Pos.succ]; unfold fexp64; lia).
    cbn [shr iter_pos shr_1 shr_m].
    change (emax - prec) with 971.
    destruct (f + 1 <=? 971) eqn:Ee.
    * right. exists 4503599627370496%positive, (f + 1).
      apply Z.leb_le in Ee.
      split; [reflexivity|]. split.
      { apply bounded_intro; [change (2 ^ 52) with 4503599627370496;
          change (2 ^ 53) with 9007199254740992; lia | lia]. }
      split; [lia|]. replace (f + 1 - f) with 1 by lia. reflexivity.
    * left. apply Z.leb_gt in Ee. split; [reflexivity|]. split; [unfold f in Ee; lia|].
      fold f. rewrite C.
      assert (2 ^ 0 <= 2 ^ (f - 971)) by (apply Z.pow_le_mono_r; lia).
      rewrite Z.pow_0_r in *. nia.
  + assert (Dq : Zpos (digits2_pos q) = 53)
      by (apply digits2_pos_unique; change (53 - 1) with 52; lia).
    rewrite Dq.
    replace (fexp64 (53 + f) - f) with 0 by (unfold fexp64; lia).
    cbn [shr shr_m].
    change (emax - prec) with 971.
    destruct (f <=? 971) eqn:Ee.
    * right. exists q, f. apply Z.leb_le in Ee.
      split; [reflexivity|]. split; [apply bounded_intro; lia|].
      split; [lia|]. rewrite Z.sub_diag, Z.pow_0_r. lia.
    * left. apply Z.leb_gt in Ee. split; [reflexivity|]. split; [unfold f in Ee; lia|].
      fold f.
      assert (2 ^ 1 <= 2 ^ (f - 971)) by (apply Z.pow_le_mono_r; lia).
      change (2 ^ 1) with 2 in *. change (2 ^ 53) with (2 ^ 52 * 2). nia.
Qed.

End RoundingZ1.

(** ** Values as rationals *)

Section RoundingQ2.
Local Open Scope Q_scope.

Lemma pow2_pos (e : Z) : 0 < 2 ^ e.
Proof. apply Qpower_0_lt. reflexivity. Qed.

Lemma pow2_add (a b : Z) : 2 ^ (a + b) == 2 ^ a * 2 ^ b.
Proof. apply Qpower_plus. discriminate. Qed.

Lemma pow2_inject (k : Z) : (0 <= k)%Z -> inject_Z (2 ^ k) == 2 ^ k.
Proof. intros H. now rewrite Zpower_Qpower. Qed.

Lemma QV_scale (m k e : Z) :
(0 <= k)%Z -> QV (m * 2 ^ k) e == QV m (e + k).
Proof.
intros H. unfold QV.
rewrite inject_Z_mult, pow2_inject, pow2_add by assumption. ring.
Qed.

Lemma QV_le (a b e : Z) : (a <= b)%Z <-> QV a e <= QV b e.
Proof.
unfold QV. pose proof (pow2_pos e) as P. split.
- intros H. apply Qmult_le_compat_r; [now rewrite <- Zle_Qle | lra].
- intros H. apply Qmult_le_r in H; [now rewrite Zle_Qle | exact P].
Qed.

Lemma QV_lt (a b e : Z) : (a < b)%Z <-> QV a e < QV b e.
Proof.
unfold QV. pose proof (pow2_pos e) as P. split.
- intros H. apply Qmult_lt_compat_r; [exact P | now rewrite <- Zlt_Qlt].
- intros H. apply Qmult_lt_r in H; [now rewrite Zlt_Qlt | exact P].
Qed.

Lemma QV_minus (a b e : Z) : QV a e - QV b e == QV (a - b) e.
Proof. unfold QV, Z.sub. rewrite inject_Z_plus, inject_Z_opp. ring. Qed.

Lemma QV_plus (a b e : Z) : QV a e + QV b e == QV (a + b) e.
Proof. unfold QV. rewrite inject_Z_plus. ring. Qed.

Lemma QV_abs (a e : Z) : Qabs (QV a e) == QV (Z.abs a) e.
Proof.
unfold QV. rewrite Qabs_Qmult.
rewrite (Qabs_pos (2 ^ e)) by (pose proof (pow2_pos e); lra).
assert (E : Qabs (inject_Z a) == inject_Z (Z.abs a)).
{ unfold Qabs, inject_Z. reflexivity. }
now rewrite E.
Qed.

Lemma QV_opp (a e : Z) : - QV a e == QV (- a) e.
Proof. unfold QV. rewrite inject_Z_opp. ring. Qed.

(** Values at different exponents, brought to the smaller one. *)
Lemma QV_align (m e e' : Z) :
(e' <= e)%Z -> QV m e == QV (m * 2 ^ (e - e')) e'.
Proof.
intros H. rewrite QV_scale by lia. now replace (e' + (e - e'))%Z with e by lia.
Qed.

End RoundingQ2.

(** ** Rounding any mantissa: [binary_round] *)

Section RoundingZ3.
Local Open Scope Z_scope.

Lemma iter_xO (m k : positive) :
Zpos (Pos.iter xO m k) = Zpos m * 2 ^ Zpos k.
Proof.
change (Pos.iter xO m k) with (shift_pos k m).
rewrite shift_pos_correct. change (Zpower_pos 2 k) with (2 ^ Zpos k). lia.
Qed.

Lemma digits2_pos_shift (m k : positive) :
Zpos (digits2_pos (Pos.iter xO m k)) = Zpos (digits2_pos m) + Zpos k.
Proof.
destruct (digits2_pos_bounds m) as [L U].
apply digits2_pos_unique; [|lia].
rewrite iter_xO.
replace (Zpos (digits2_pos m) + Zpos k - 1)
  with ((Zpos (digits2_pos m) - 1) + Zpos k) by lia.
rewrite !Z.pow_add_r by lia.
assert (0 < 2 ^ Zpos k) by (apply Z.pow_pos_nonneg; lia). nia.
Qed.

Lemma binary_round_spec (s : bool) (m : positive) (e : Z) :
-1074 <= e ->
exists ez mz p m1 M,
  -1074 <= ez <= e /\
  Zpos mz = Zpos m * 2 ^ (e - ez) /\
  rounding_of (Zpos mz) p m1 M /\
  (binary_round prec emax s m e = S754_infinity s /\
   971 <= ez + p /\ 2 ^ 53 <= M * 2 ^ (ez + p - 971)
   \/
   exists m' e',
     binary_round prec emax s m e = S754_finite s m' e' /\
     bounded prec emax m' e' = true /\
     ez + p <= e' /\
     Zpos m' * 2 ^ (e' - (ez + p)) = M).
Proof.
intros Hmin. unfold binary_round, shl_align. rewrite fexp_fexp64.
set (d := Zpos (digits2_pos m)).
destruct (fexp64 (d + e) - e) as [|k|k] eqn:En.
- destruct (binary_round_aux_spec s m e) as (p & m1 & M & HR & HO);
    [fold d; lia | lia |].
  exists e, m, p, m1, M. rewrite Z.sub_diag, Z.pow_0_r.
  split; [lia|]. split; [lia|]. split; assumption.
- destruct (binary_round_aux_spec s m e) as (p & m1 & M & HR & HO);
    [fold d; lia | lia |].
  exists e, m, p, m1, M. rewrite Z.sub_diag, Z.pow_0_r.
  split; [lia|]. split; [lia|]. split; assumption.
- set (ez := fexp64 (d + e)) in *.
  assert (Hez : -1074 <= ez) by (unfold ez, fexp64; lia).
  destruct (binary_round_aux_spec s (Pos.iter xO m k) ez)
    as (p & m1 & M & HR & HO).
  { rewrite digits2_pos_shift. fold d.
    replace (d + Zpos k + ez) with (d + e) by lia. fold ez. lia. }
  { exact Hez. }
  exists ez, (Pos.iter xO m k), p, m1, M.
  split; [lia|]. split; [|split; assumption].
  rewrite iter_xO. f_equal. f_equal. lia.
Qed.

End RoundingZ3.

(** ** The error of a rounded sum *)

Section RoundingQ4.
Local Open Scope Q_scope.

Lemma rounded_ext (v v' : Q) (r : spec_float) :
v == v' -> rounded v r -> rounded v' r.
Proof.
intros E. destruct r; cbn [rounded]; try tauto;
  intros [V H]; (split; [exact V|]); rewrite <- E; exact H.
Qed.

Lemma no_error (a c : Q) : Qabs (a - a) * c <= Qabs a.
Proof.
setoid_replace (a - a) with 0 by ring.
change (Qabs 0) with 0. rewrite Qmult_0_l. apply Qabs_nonneg.
Qed.

Lemma rounded_exact (r : spec_float) :
SF_finite r -> valid_binary r = true -> rounded (SF2Q r) r.
Proof.
intros F V. destruct F; cbn [rounded]; (split; [exact V|apply no_error]).
Qed.

Lemma cond_Zopp_abs (s : bool) (m : positive) :
Z.abs (cond_Zopp s (Zpos m)) = Zpos m.
Proof. destruct s; reflexivity. Qed.

Lemma binary_round_rounded (s : bool) (m : positive) (e : Z) :
(-1074 <= e)%Z ->
rounded (QV (cond_Zopp s (Zpos m)) e) (binary_round prec emax s m e).
Proof.
intros Hmin.
destruct (binary_round_spec s m e Hmin)
  as (ez & mz & p & m1 & M & Hez & Hmz & HR & [[-> _]|(m' & e' & -> & B & He' & HM)]).
- exact I.
- cbn [rounded]. split; [exact B|].
  cbn [SF2Q].
  destruct HR as (Hp & Fl & HMb & _ & Herr & HN & H0).
  assert (Ey : forall z, QV (cond_Zopp s z) e == QV (cond_Zopp s (z * 2 ^ (e - ez))) ez).
  { intros z. rewrite (QV_align _ e ez) by lia.
    destruct s; cbn [cond_Zopp]; [|reflexivity].
    now rewrite Z.mul_opp_l. }
  assert (Ev : forall z, QV (cond_Zopp s z) e' == QV (cond_Zopp s (z * 2 ^ (e' - (ez + p)) * 2 ^ p)) ez).
  { intros z. rewrite (QV_align _ e' (ez + p)) by lia.
    rewrite <- QV_scale by lia.
    destruct s; cbn [cond_Zopp]; [|reflexivity].
    now rewrite !Z.mul_opp_l. }
  rewrite Ev, Ey, HM, <- Hmz, QV_minus, !QV_abs.
  assert (P : (0 < 2 ^ p)%Z) by (apply Z.pow_pos_nonneg; lia).
  assert (EA : Z.abs (cond_Zopp s (M * 2 ^ p) - cond_Zopp s (Zpos mz))
               = Z.abs (M * 2 ^ p - Zpos mz)).
  { destruct s; cbn [cond_Zopp]; lia. }
  rewrite EA.
  assert (EB : Z.abs (cond_Zopp s (Zpos mz)) = Zpos mz) by apply cond_Zopp_abs.
  rewrite EB.
  setoid_replace (2 ^ 53) with (inject_Z (2 ^ 53)) by reflexivity.
  unfold QV. rewrite <- Qmult_assoc, (Qmult_comm (2 ^ ez)), Qmult_assoc.
  rewrite <- inject_Z_mult.
  apply Qmult_le_compat_r; [|pose proof (pow2_pos ez); lra].
  rewrite <- Zle_Qle.
  destruct (Z.eq_dec p 0) as [Zp|Zp].
  + rewrite (H0 Zp). subst p. rewrite Z.pow_0_r.
    replace (Zpos mz * 1 - Zpos mz)%Z with 0%Z by lia. simpl. lia.
  + assert (N : (2 ^ 52 <= m1 < 2 ^ 53)%Z) by (apply HN; lia).
    change (2 ^ 53)%Z with 9007199254740992%Z.
    change (2 ^ 52)%Z with 4503599627370496%Z in N. nia.
Qed.

Lemma binary_normalize_rounded (m e : Z) :
(-1074 <= e)%Z ->
rounded (QV m e) (binary_normalize prec emax m e false).
Proof.
intros Hmin. destruct m as [|m|m]; cbn [binary_normalize].
- apply rounded_ext with (v := 0);
    [unfold QV; change (inject_Z 0) with 0; ring|].
  cbn [rounded]. split; [reflexivity|apply (no_error 0)].
- exact (binary_round_rounded false m e Hmin).
- exact (binary_round_rounded true m e Hmin).
Qed.

Lemma shl_align_fst (m : positive) (e ez : Z) :
(ez <= e)%Z -> Zpos (fst (shl_align m e ez)) = (Zpos m * 2 ^ (e - ez))%Z.
Proof.
intros H. unfold shl_align.
destruct (ez - e)%Z as [|k|k] eqn:E; cbn [fst]; try lia.
- replace (e - ez)%Z with 0%Z by lia. rewrite Z.pow_0_r. lia.
- rewrite iter_xO. f_equal. f_equal. lia.
Qed.

Lemma SF2Q_align (s : bool) (m : positive) (e ez : Z) :
(ez <= e)%Z ->
SF2Q (S754_finite s m e) == QV (cond_Zopp s (Zpos (fst (shl_align m e ez)))) ez.
Proof.
intros H. cbn [SF2Q]. rewrite shl_align_fst by assumption.
rewrite (QV_align _ e ez) by assumption.
destruct s; cbn [cond_Zopp]; [|reflexivity].
now rewrite Z.mul_opp_l.
Qed.

Lemma valid_finite_emin (s : bool) (m : positive) (e : Z) :
valid_binary (S754_finite s m e) = true -> (-1074 <= e)%Z.
Proof. intros V. apply bounded_digits in V. lia. Qed.

(** The sum of two finite numbers is rounded with a relative error of
    at most [2^-53], unless it overflows. *)
Lemma SFadd_rounded (x y : spec_float) :
SF_finite x -> SF_finite y ->
valid_binary x = true -> valid_binary y = true ->
rounded (SF2Q x + SF2Q y) (SF64add x y).
Proof.
intros Fx Fy Vx Vy.
destruct Fx as [sx|sx mx ex], Fy as [sy|sy my ey]; unfold SF64add; cbn [SFadd].
- apply rounded_ext with (v := 0); [cbn [SF2Q]; ring|].
  destruct sx, sy; cbn [rounded]; (split; [reflexivity|]); apply (no_error 0).
- apply rounded_ext with (v := SF2Q (S754_finite sy my ey));
    [cbn [SF2Q]; ring|].
  apply rounded_exact; [constructor|exact Vy].
- apply rounded_ext with (v := SF2Q (S754_finite sx mx ex));
    [cbn [SF2Q]; ring|].
  apply rounded_exact; [constructor|exact Vx].
- apply valid_finite_emin in Vx, Vy.
  set (ez := Z.min ex ey).
  eapply rounded_ext; [|apply binary_normalize_rounded; unfold ez; lia].
  rewrite <- QV_plus.
  rewrite <- !SF2Q_align by (unfold ez; lia). reflexivity.
Qed.

Lemma SFsub_rounded (x y : spec_float) :
SF_finite x -> SF_finite y ->
valid_binary x = true -> valid_binary y = true ->
rounded (SF2Q x - SF2Q y) (SF64sub x y).
Proof.
intros Fx Fy Vx Vy.
destruct Fx as [sx|sx mx ex], Fy as [sy|sy my ey]; unfold SF64sub; cbn [SFsub].
- apply rounded_ext with (v := 0); [cbn [SF2Q]; ring|].
  destruct sx, sy; cbn [rounded]; (split; [reflexivity|]); apply (no_error 0).
- apply rounded_ext with (v := SF2Q (S754_finite (negb sy) my ey)).
  { cbn [SF2Q]. destruct sy; cbn [negb cond_Zopp].
    - rewrite <- QV_opp. ring.
    - rewrite <- QV_opp. ring. }
  apply rounded_exact; [constructor|exact Vy].
- apply rounded_ext with (v := SF2Q (S754_finite sx mx ex));
    [cbn [SF2Q]; ring|].
  apply rounded_exact; [constructor|exact Vx].
- apply valid_finite_emin in Vx, Vy.
  set (ez := Z.min ex ey).
  eapply rounded_ext; [|apply binary_normalize_rounded; unfold ez; lia].
  rewrite <- QV_minus.
  rewrite <- !SF2Q_align by (unfold ez; lia). reflexivity.
Qed.

End RoundingQ4.

(** ** Rounding is monotone *)

Section RoundingOrder.
Local Open Scope Q_scope.

Lemma QV_le_align (a ea b eb e0 : Z) :
(e0 <= ea)%Z -> (e0 <= eb)%Z ->
(QV a ea <= QV b eb <-> (a * 2 ^ (ea - e0) <= b * 2 ^ (eb - e0))%Z).
Proof.
intros Ha Hb. rewrite (QV_align a ea e0), (QV_align b eb e0) by assumption.
symmetry. apply QV_le.
Qed.

Lemma pow2_split (a b : Z) :
(0 <= a)%Z -> (0 <= b)%Z -> (2 ^ (a + b) = 2 ^ a * 2 ^ b)%Z.
Proof. intros. now apply Z.pow_add_r. Qed.

(** A representable number that is at least the number being rounded
    is at least its rounding. *)
Lemma rounding_down (mz p m1 M ez mT eT : Z) :
rounding_of mz p m1 M ->
(0 < mT < 2 ^ 53)%Z ->
QV mz ez <= QV mT eT ->
QV (M * 2 ^ p) ez <= QV mT eT.
Proof.
intros (Hp & Fl & HM & Hup & _ & HN & H0) HT Hy.
destruct (Z.eq_dec p 0) as [Zp|Zp].
{ rewrite (H0 Zp). subst p. now rewrite Z.pow_0_r, Z.mul_1_r. }
assert (N : (2 ^ 52 <= m1 < 2 ^ 53)%Z) by (apply HN; lia).
assert (P : (0 < 2 ^ p)%Z) by (apply Z.pow_pos_nonneg; lia).
destruct (Z.eq_dec M m1) as [EM|EM].
{ subst M. eapply Qle_trans; [|exact Hy]. apply QV_le. lia. }
assert (EM' : M = (m1 + 1)%Z) by lia.
specialize (Hup EM'). subst M.
destruct (Z_lt_le_dec eT ez) as [C|C].
- (* T lies on a finer grid than the number: impossible *)
  exfalso. apply (QV_le_align mz ez mT eT eT) in Hy; [|lia|lia].
  rewrite Z.sub_diag, Z.pow_0_r, Z.mul_1_r in Hy.
  assert (2 ^ 1 <= 2 ^ (ez - eT))%Z by (apply Z.pow_le_mono_r; lia).
  assert (2 ^ 1 <= 2 ^ p)%Z by (apply Z.pow_le_mono_r; lia).
  change (2 ^ 1)%Z with 2%Z in *.
  change (2 ^ 53)%Z with 9007199254740992%Z in *.
  change (2 ^ 52)%Z with 4503599627370496%Z in *. nia.
- apply (QV_le_align mz ez mT eT ez) in Hy; [|lia|lia].
  apply (QV_le_align _ ez mT eT ez); [lia|lia|].
  rewrite Z.sub_diag, Z.pow_0_r, Z.mul_1_r in *.
  destruct (Z_lt_le_dec (eT - ez) p) as [D|D].
  + exfalso.
    assert (2 ^ (eT - ez + 1) <= 2 ^ p)%Z by (apply Z.pow_le_mono_r; lia).
    rewrite pow2_split in * by lia. change (2 ^ 1)%Z with 2%Z in *.
    assert (0 < 2 ^ (eT - ez))%Z by (apply Z.pow_pos_nonneg; lia).
    change (2 ^ 53)%Z with 9007199254740992%Z in *.
    change (2 ^ 52)%Z with 4503599627370496%Z in *. nia.
  + replace (eT - ez)%Z with ((eT - ez - p) + p)%Z in * by lia.
    rewrite pow2_split in * by lia.
    set (c := (2 ^ (eT - ez - p))%Z) in *.
    assert (0 < c)%Z by (apply Z.pow_pos_nonneg; lia).
    assert (m1 < mT * c)%Z by nia. nia.
Qed.

(** A representable number that is at most the number being rounded is
    at most its rounding. *)
Lemma rounding_up (mz p m1 M ez mT eT : Z) :
rounding_of mz p m1 M ->
(0 < mT < 2 ^ 53)%Z ->
QV mT eT <= QV mz ez ->
QV mT eT <= QV (M * 2 ^ p) ez.
Proof.
intros (Hp & Fl & HM & Hup & _ & HN & H0) HT Hy.
destruct (Z.eq_dec p 0) as [Zp|Zp].
{ rewrite (H0 Zp). subst p. now rewrite Z.pow_0_r, Z.mul_1_r. }
assert (N : (2 ^ 52 <= m1 < 2 ^ 53)%Z) by (apply HN; lia).
assert (P : (0 < 2 ^ p)%Z) by (apply Z.pow_pos_nonneg; lia).
destruct (Z.eq_dec M (m1 + 1)) as [EM|EM].
{ subst M. eapply Qle_trans; [exact Hy|]. apply QV_le. lia. }
assert (EM' : M = m1) by lia. subst M.
destruct (Z_lt_le_dec eT ez) as [C|C].
- apply (QV_le_align mT eT _ ez eT); [lia|lia|].
  rewrite Z.sub_diag, Z.pow_0_r, Z.mul_1_r.
  assert (2 ^ 1 <= 2 ^ (ez - eT))%Z by (apply Z.pow_le_mono_r; lia).
  change (2 ^ 1)%Z with 2%Z in *.
  change (2 ^ 53)%Z with 9007199254740992%Z in *.
  change (2 ^ 52)%Z with 4503599627370496%Z in *. nia.
- apply (QV_le_align mT eT mz ez ez) in Hy; [|lia|lia].
  apply (QV_le_align mT eT _ ez ez); [lia|lia|].
  rewrite Z.sub_diag, Z.pow_0_r, Z.mul_1_r in *.
  destruct (Z_lt_le_dec (eT - ez) p) as [D|D].
  + assert (2 ^ (eT - ez + 1) <= 2 ^ p)%Z by (apply Z.pow_le_mono_r; lia).
    rewrite pow2_split in * by lia. change (2 ^ 1)%Z with 2%Z in *.
    assert (0 < 2 ^ (eT - ez))%Z by (apply Z.pow_pos_nonneg; lia).
    change (2 ^ 53)%Z with 9007199254740992%Z in *.
    change (2 ^ 52)%Z with 4503599627370496%Z in *. nia.
  + replace (eT - ez)%Z with ((eT - ez - p) + p)%Z in * by lia.
    rewrite pow2_split in * by lia.
    set (c := (2 ^ (eT - ez - p))%Z) in *.
    assert (0 < c)%Z by (apply Z.pow_pos_nonneg; lia).
    assert (mT * c < m1 + 1)%Z by nia. nia.
Qed.

Lemma bounded_max (mT : positive) (eT : Z) :
bounded prec emax mT eT = true -> QV (Zpos mT) eT < QV (2 ^ 53) 971.
Proof.
intros B. apply bounded_digits in B. destruct B as (U & E & _).
apply Qlt_le_trans with (QV (2 ^ 53) eT); [now apply QV_lt|].
apply (QV_le_align _ eT _ 971 eT); [lia|lia|].
rewrite Z.sub_diag, Z.pow_0_r, Z.mul_1_r.
assert (2 ^ 0 <= 2 ^ (971 - eT))%Z by (apply Z.pow_le_mono_r; lia).
rewrite Z.pow_0_r in *. nia.
Qed.

(** [binary_round] keeps the order with every representable number,
    and overflows only beyond all of them. *)
Lemma binary_round_order (s : bool) (m : positive) (e : Z) :
(-1074 <= e)%Z ->
(binary_round prec emax s m e = S754_infinity s /\
 forall mT eT, bounded prec emax mT eT = true ->
   QV (Zpos mT) eT < QV (Zpos m) e)
\/
exists m' e',
  binary_round prec emax s m e = S754_finite s m' e' /\
  bounded prec emax m' e' = true /\
  (forall mT eT, bounded prec emax mT eT = true ->
     QV (Zpos m) e <= QV (Zpos mT) eT -> QV (Zpos m') e' <= QV (Zpos mT) eT) /\
  (forall mT eT, bounded prec emax mT eT = true ->
     QV (Zpos mT) eT <= QV (Zpos m) e -> QV (Zpos mT) eT <= QV (Zpos m') e').
Proof.
intros Hmin.
destruct (binary_round_spec s m e Hmin)
  as (ez & mz & p & m1 & M & Hez & Hmz & HR & HO).
assert (Ey : QV (Zpos m) e == QV (Zpos mz) ez).
{ rewrite Hmz. apply QV_align. lia. }
assert (Hp : (0 <= p)%Z) by (destruct HR; assumption).
assert (HmT : forall mT eT, bounded prec emax mT eT = true ->
                (0 < Zpos mT < 2 ^ 53)%Z).
{ intros mT eT B. apply bounded_digits in B. lia. }
destruct HO as [(-> & Hf & Hbig)|(m' & e' & -> & B & He' & HM)].
- left. split; [reflexivity|]. intros mT eT BT.
  apply Qnot_le_lt. intros C. rewrite Ey in C.
  apply (rounding_down _ _ _ _ _ _ _ HR (HmT _ _ BT)) in C.
  pose proof (bounded_max mT eT BT) as Mx.
  assert (QV (2 ^ 53) 971 <= QV (M * 2 ^ p) ez); [|lra].
  rewrite (QV_scale M p ez Hp).
  rewrite (QV_align M (ez + p) 971) by lia.
  now apply QV_le.
- right. exists m', e'. split; [reflexivity|]. split; [exact B|].
  assert (Ev : QV (Zpos m') e' == QV (M * 2 ^ p) ez).
  { rewrite (QV_scale M p ez Hp), <- HM. apply QV_align. lia. }
  split; intros mT eT BT C; rewrite Ev; rewrite Ey in C.
  + exact (rounding_down _ _ _ _ _ _ _ HR (HmT _ _ BT) C).
  + exact (rounding_up _ _ _ _ _ _ _ HR (HmT _ _ BT) C).
Qed.

(** Among representable numbers a smaller exponent means a smaller
    number. *)
Lemma bounded_exponent_lt (m1 m2 : positive) (e1 e2 : Z) :
bounded prec emax m1 e1 = true -> bounded prec emax m2 e2 = true ->
(e1 < e2)%Z -> QV (Zpos m1) e1 < QV (Zpos m2) e2.
Proof.
intros B1 B2 H. apply bounded_digits in B1, B2.
destruct B1 as (U1 & E1 & _), B2 as (_ & E2 & N2).
assert (L2 : (2 ^ 52 <= Zpos m2)%Z) by (apply N2; lia).
rewrite (QV_align (Zpos m2) e2 e1) by lia. apply QV_lt.
assert (2 ^ 1 <= 2 ^ (e2 - e1))%Z by (apply Z.pow_le_mono_r; lia).
change (2 ^ 1)%Z with 2%Z in *.
change (2 ^ 53)%Z with 9007199254740992%Z in *.
change (2 ^ 52)%Z with 4503599627370496%Z in *. nia.
Qed.

Lemma SFleb_positive (m1 m2 : positive) (e1 e2 : Z) :
bounded prec emax m1 e1 = true -> bounded prec emax m2 e2 = true ->
QV (Zpos m1) e1 <= QV (Zpos m2) e2 ->
SFleb (S754_finite false m1 e1) (S754_finite false m2 e2) = true.
Proof.
intros B1 B2 H. unfold SFleb. cbn [SFcompare].
destruct (Z.compare_spec e1 e2) as [E|E|E].
- subst e2. apply QV_le in H.
  change (Pos.compare_cont Eq m1 m2) with (Pos.compare m1 m2).
  destruct (Pos.compare_spec m1 m2); try reflexivity. lia.
- reflexivity.
- pose proof (bounded_exponent_lt _ _ _ _ B2 B1 E). lra.
Qed.

Lemma SFleb_negative (m1 m2 : positive) (e1 e2 : Z) :
bounded prec emax m1 e1 = true -> bounded prec emax m2 e2 = true ->
QV (Zpos m2) e2 <= QV (Zpos m1) e1 ->
SFleb (S754_finite true m1 e1) (S754_finite true m2 e2) = true.
Proof.
intros B1 B2 H. unfold SFleb. cbn [SFcompare].
destruct (Z.compare_spec e1 e2) as [E|E|E].
- subst e2. apply QV_le in H.
  change (Pos.compare_cont Eq m1 m2) with (Pos.compare m1 m2).
  destruct (Pos.compare_spec m1 m2); try reflexivity. lia.
- pose proof (bounded_exponent_lt _ _ _ _ B1 B2 E). lra.
- reflexivity.
Qed.

End RoundingOrder.

(** ** Signs of products and quotients *)

Section Signs.
Local Open Scope Z_scope.

Lemma shr_1_nonneg (mrs : shr_record) :
0 <= shr_m mrs -> 0 <= shr_m (shr_1 mrs).
Proof.
destruct mrs as [m r s]. destruct m as [|[p|p|]|p]; cbn [shr_1 shr_m]; lia.
Qed.

Lemma iter_pos_shr_nonneg (p : positive) :
forall mrs, 0 <= shr_m mrs -> 0 <= shr_m (iter_pos shr_1 p mrs).
Proof.
induction p as [p IH|p IH|]; intros mrs H; cbn [iter_pos].
- apply IH, IH. now apply shr_1_nonneg.
- now apply IH, IH.
- now apply shr_1_nonneg.
Qed.

Lemma shr_fexp_nonneg (m e : Z) (l : location) :
0 <= m -> 0 <= shr_m (fst (shr_fexp prec emax m e l)).
Proof.
intros H. unfold shr_fexp, shr.
assert (H0 : 0 <= shr_m (shr_record_of_loc m l))
  by (destruct l as [|[| |]]; exact H).
destruct (fexp prec emax (Zdigits2 m + e) - e); cbn [fst]; try exact H0.
now apply iter_pos_shr_nonneg.
Qed.

Lemma round_nearest_even_nonneg (m : Z) (l : location) :
0 <= m -> 0 <= round_nearest_even m l.
Proof.
intros H. destruct l as [|[| |]]; cbn [round_nearest_even];
  try destruct (Z.even m); lia.
Qed.

(** Rounding a non-negative mantissa gives a number with the sign asked
    for, never NaN. *)
Lemma binary_round_aux_sign (s : bool) (m e : Z) (l : location) :
0 <= m ->
binary_round_aux prec emax s m e l <> S754_nan /\
SFsign (binary_round_aux prec emax s m e l) = s.
Proof.
intros H. unfold binary_round_aux.
pose proof (shr_fexp_nonneg m e l H) as H1.
destruct (shr_fexp prec emax m e l) as [mrs' e']. cbn [fst] in H1.
pose proof (shr_fexp_nonneg _ e' loc_Exact
              (round_nearest_even_nonneg _ (loc_of_shr_record mrs') H1)) as H2.
destruct (shr_fexp prec emax _ e' loc_Exact) as [mrs'' e'']. cbn [fst] in H2.
destruct (shr_m mrs'') as [|q|q]; [| |lia].
- split; [discriminate|reflexivity].
- destruct (e'' <=? emax - prec); split; try discriminate; reflexivity.
Qed.

Lemma SFmul_finite_sign (x y : spec_float) :
SF_finite x -> SF_finite y ->
SF64mul x y <> S754_nan /\
SFsign (SF64mul x y) = xorb (SFsign x) (SFsign y).
Proof.
intros [sx|sx mx ex] [sy|sy my ey]; unfold SF64mul; cbn [SFmul SFsign];
  try (split; [discriminate|reflexivity]).
apply binary_round_aux_sign. lia.
Qed.

Lemma SFdiv_core_nonneg (m1 m2 : positive) (e1 e2 : Z) :
0 <= fst (fst (SFdiv_core_binary prec emax (Zpos m1) e1 (Zpos m2) e2)).
Proof.
unfold SFdiv_core_binary.
set (s := e1 - e2 - _).
set (m' := match s with Z0 => Zpos m1 | Zpos _ => Z.shiftl (Zpos m1) s | Zneg _ => 0 end).
assert (Hm' : 0 <= m').
{ unfold m'. destruct s; try lia. apply Z.shiftl_nonneg. lia. }
pose proof (Z_div_mod m' (Zpos m2) eq_refl) as D.
destruct (Z.div_eucl m' (Zpos m2)) as [q r]. cbn [fst].
destruct D as [D1 D2]. nia.
Qed.

Lemma SFdiv_finite_sign (x : spec_float) (sy : bool) (my : positive) (ey : Z) :
x <> S754_nan ->
SF64div x (S754_finite sy my ey) <> S754_nan /\
SFsign (SF64div x (S754_finite sy my ey)) = xorb (SFsign x) sy.
Proof.
intros Hx. destruct x as [sx|sx| |sx mx ex]; unfold SF64div;
  cbn [SFdiv SFsign]; try (split; [discriminate|reflexivity]);
  try congruence.
pose proof (SFdiv_core_nonneg mx my ex ey) as H.
destruct (SFdiv_core_binary prec emax (Zpos mx) ex (Zpos my) ey) as [[mz ez] lz].
cbn [fst] in H. now apply binary_round_aux_sign.
Qed.

End Signs.

(** ** Binary64 values through their specification *)

Section SpecFacts.

Lemma SFcompare_refl (x : spec_float) :
  x <> S754_nan -> SFcompare x x = Some Eq.
Proof.
  destruct x as [s|s| |s m e]; intros Hx; try congruence; simpl.
  - reflexivity.
  - now destruct s.
  - rewrite Z.compare_refl.
    assert (E : Pos.compare_cont Eq m m = Eq) by apply Pos.compare_cont_refl.
    rewrite E. now destruct s.
Qed.

Lemma SFeqb_refl (x : spec_float) : x <> S754_nan -> SFeqb x x = true.
Proof. intros Hx. unfold SFeqb. now rewrite SFcompare_refl. Qed.

Lemma is_nan_spec (x : float) :
  PrimFloat.is_nan x = false <-> Prim2SF x <> S754_nan.
Proof.
  unfold PrimFloat.is_nan. rewrite FloatAxioms.eqb_spec. split.
  - intros E N. rewrite N in E. discriminate.
  - intros N. now rewrite SFeqb_refl.
Qed.

Lemma is_infinity_spec (x : float) :
  PrimFloat.is_infinity x = true <-> exists s, Prim2SF x = S754_infinity s.
Proof.
  unfold PrimFloat.is_infinity. rewrite FloatAxioms.eqb_spec, abs_spec.
  change (Prim2SF infinity) with (S754_infinity false).
  destruct (Prim2SF x) as [s|s| |s m e]; simpl; split;
    try discriminate; try (intros [s' E]; discriminate); eauto.
Qed.

Lemma is_finite_spec (x : float) :
  is_finite x = true <-> SF_finite (Prim2SF x).
Proof.
  unfold is_finite. rewrite negb_true_iff, orb_false_iff, is_nan_spec.
  split.
  - intros [N I]. destruct (Prim2SF x) as [s|s| |s m e] eqn:E;
      try constructor; try congruence.
    assert (PrimFloat.is_infinity x = true)
      by (apply is_infinity_spec; eauto).
    congruence.
  - intros F. split.
    + inversion F; congruence.
    + destruct (PrimFloat.is_infinity x) eqn:E; [|reflexivity].
      apply is_infinity_spec in E. destruct E as [s E].
      rewrite E in F. inversion F.
Qed.

Lemma eqb_zero_spec (x : float) :
  PrimFloat.eqb x (lit 0) = true <-> exists s, Prim2SF x = S754_zero s.
Proof.
  rewrite FloatAxioms.eqb_spec.
  change (Prim2SF (lit 0)) with (S754_zero false).
  destruct (Prim2SF x) as [s|s| |s m e]; simpl; split;
    try discriminate; try (intros [s' E]; discriminate); eauto.
  - now destruct s.
  - now destruct s.
Qed.

(** Python's [V ** 2] returns exactly when the square is not an
    overflow. *)
Lemma square_finite (V : float) :
  is_finite (V * V)%float = true -> pow2 V = Ok (V * V)%float.
Proof.
  intros F. change (pow2 V) with (Binary64.square V).
  unfold Binary64.square.
  destruct (PrimFloat.is_infinity (V * V)) eqn:I.
  - unfold is_finite in F. rewrite I, orb_true_r in F. discriminate.
  - now rewrite andb_false_r.
Qed.

End SpecFacts.

(** ** Subtracting a non-negative number *)

Section SubtractionOrder.
Local Open Scope Q_scope.

Lemma SFleb_refl (x : spec_float) : x <> S754_nan -> SFleb x x = true.
Proof. intros H. unfold SFleb. now rewrite SFcompare_refl. Qed.

Lemma QV_pos (m : positive) (e : Z) : 0 < QV (Zpos m) e.
Proof.
unfold QV. apply Qmult_lt_0_compat; [reflexivity|apply pow2_pos].
Qed.

(** Taking a non-negative number away from a finite one never gives
    more: the rounding of [T - k] is at most [T]. *)
Lemma SFsub_le (T k : spec_float) :
SF_finite T -> valid_binary T = true -> valid_binary k = true ->
SF_nonneg k ->
SFleb (SF64sub T k) T = true.
Proof.
intros FT VT Vk [Nk Sk].
destruct k as [sk|sk| |sk mk ek]; cbn [SFsign] in Sk; subst; try congruence.
- (* k is zero *)
  destruct FT as [sT|sT mT eT]; unfold SF64sub; cbn [SFsub].
  + destruct sT; reflexivity.
  + apply SFleb_refl. discriminate.
- (* k is infinite *)
  destruct FT as [sT|sT mT eT]; unfold SF64sub; cbn [SFsub negb].
  + reflexivity.
  + reflexivity.
- (* k is positive *)
  destruct FT as [sT|sT mT eT]; unfold SF64sub; cbn [SFsub negb].
  + reflexivity.
  + pose proof (valid_finite_emin _ _ _ VT) as HeT.
    pose proof (valid_finite_emin _ _ _ Vk) as Hek.
    cbn [valid_binary] in VT, Vk.
    set (ez := Z.min eT ek).
    assert (Hez : (-1074 <= ez)%Z) by (unfold ez; lia).
    pose proof (SF2Q_align sT mT eT ez ltac:(unfold ez; lia)) as ET.
    pose proof (SF2Q_align false mk ek ez ltac:(unfold ez; lia)) as EK.
    cbn [SF2Q cond_Zopp] in ET, EK.
    set (aT := Zpos (fst (shl_align mT eT ez))) in *.
    set (ak := Zpos (fst (shl_align mk ek ez))) in *.
    assert (HaT : (0 < aT)%Z) by (unfold aT; lia).
    assert (Hak : (0 < ak)%Z) by (unfold ak; lia).
    cbn [cond_Zopp].
    destruct (cond_Zopp sT aT - ak)%Z as [|q|q] eqn:ES; cbn [binary_normalize].
    * destruct sT; cbn [cond_Zopp] in *; [lia|]. reflexivity.
    * destruct sT; cbn [cond_Zopp] in *; [lia|].
      assert (Hy : QV (Zpos q) ez <= QV (Zpos mT) eT).
      { rewrite ET. apply QV_le. lia. }
      destruct (binary_round_order false q ez Hez)
        as [[_ Hinf]|(m' & e' & -> & B & Hdown & _)].
      -- specialize (Hinf mT eT VT). lra.
      -- apply SFleb_positive; try assumption. now apply Hdown.
    * destruct (binary_round_order true q ez Hez)
        as [[-> _]|(m' & e' & -> & B & _ & Hup)].
      -- reflexivity.
      -- destruct sT; cbn [cond_Zopp] in *; [|reflexivity].
         apply SFleb_negative; try assumption. apply Hup; [exact VT|].
         pose proof (SF2Q_align false mT eT ez ltac:(unfold ez; lia)) as EP.
         cbn [SF2Q cond_Zopp] in EP. fold aT in EP.
         rewrite EP. apply QV_le. lia.
Qed.

End SubtractionOrder.

(** ** Recovery factor 1 *)

Section RecoveryFactorOne.


Lemma sub_zero_eqb (T k : float) (s : bool) :
  PrimFloat.is_nan T = false ->
  Prim2SF k = S754_zero s ->
  PrimFloat.eqb (T - k)%float T = true.
Proof.
  intros NT Ek. apply is_nan_spec in NT.
  rewrite FloatAxioms.eqb_spec, sub_spec, Ek.
  destruct (Prim2SF T) as [st|st| |st mt et] eqn:ET; try congruence.
  - destruct st, s; reflexivity.
  - apply SFeqb_refl. discriminate.
  - apply SFeqb_refl. discriminate.
Qed.



End RecoveryFactorOne.

(** ** Which errors the temperature conversions raise *)

Section TemperatureErrors.

Ltac run_temperature :=
  unfold static_to_total_temperature, total_to_static_temperature,
    measured_to_total_temperature.

(** An error of [V ** 2] is the error of each conversion. *)
Lemma temperature_pow_error {A : Type} `{PyNum A} (T V Cp rf : A) (e : exn) :
  pow2 V = Raise e ->
  static_to_total_temperature T V Cp = Raise e /\
  total_to_static_temperature T V Cp = Raise e /\
  measured_to_total_temperature T V Cp rf = Raise e.
Proof. intros E. run_temperature. rewrite E. now repeat split. Qed.

Lemma binary64_div_zero (x y : float) :
  (y == lit 0)%py = true -> div x y = Raise ZeroDivisionError.
Proof.
  intros E. change (div x y) with (Binary64.truediv x y).
  unfold Binary64.truediv.
  change (PrimFloat.eqb y PrimFloat.zero) with (y == lit 0)%py.
  now rewrite E.
Qed.

Lemma binary64_div_nonzero (x y : float) :
  (y == lit 0)%py = false -> div x y = Ok (x / y)%float.
Proof.
  intros E. change (div x y) with (Binary64.truediv x y).
  unfold Binary64.truediv.
  change (PrimFloat.eqb y PrimFloat.zero) with (y == lit 0)%py.
  now rewrite E.
Qed.

Lemma binary64_zero_divisor (T V Cp rf V2 : float) :
  pow2 V = Ok V2 -> (Cp == lit 0)%py = true ->
  static_to_total_temperature T V Cp = Raise ZeroDivisionError /\
  total_to_static_temperature T V Cp = Raise ZeroDivisionError /\
  measured_to_total_temperature T V Cp rf = Raise ZeroDivisionError.
Proof.
  intros E Z. run_temperature. rewrite E. simpl bind.
  rewrite !(binary64_div_zero _ _ Z). now repeat split.
Qed.

Lemma binary64_nonzero_divisor (T V Cp rf V2 : float) :
  pow2 V = Ok V2 -> (Cp == lit 0)%py = false ->
  returns (static_to_total_temperature T V Cp) /\
  returns (total_to_static_temperature T V Cp) /\
  returns (measured_to_total_temperature T V Cp rf).
Proof.
  intros E Z. run_temperature. rewrite E. simpl bind.
  rewrite !(binary64_div_nonzero _ _ Z). simpl bind.
  repeat split; eexists; reflexivity.
Qed.

(** A finite velocity whose square is infinite makes [V ** 2] raise. *)
Lemma binary64_square_overflow (V : float) :
  is_finite V = true -> PrimFloat.is_infinity (V * V)%float = true ->
  pow2 V = Raise OverflowError.
Proof.
  intros F I. change (pow2 V) with (Binary64.square V).
  unfold Binary64.square. now rewrite F, I.
Qed.

Lemma exact_zero_divisor (T V Cp rf : Q) :
  (Cp == 0)%Q ->
  static_to_total_temperature T V Cp = Raise ZeroDivisionError /\
  total_to_static_temperature T V Cp = Raise ZeroDivisionError /\
  measured_to_total_temperature T V Cp rf = Raise ZeroDivisionError.
Proof.
  intros Z. run_temperature. simpl pow2. unfold Exact.square. simpl bind.
  rewrite !(exact_div_zero _ _ Z). now repeat split.
Qed.

Lemma exact_nonzero_divisor (T V Cp rf : Q) :
  ~ (Cp == 0)%Q ->
  returns (static_to_total_temperature T V Cp) /\
  returns (total_to_static_temperature T V Cp) /\
  returns (measured_to_total_temperature T V Cp rf).
Proof.
  intros Z. run_temperature. simpl pow2. unfold Exact.square. simpl bind.
  rewrite !(exact_div_nonzero _ _ Z). simpl bind.
  repeat split; eexists; reflexivity.
Qed.

End TemperatureErrors.

(** ** The sweeps *)

Lemma combine_app {X Y : Type} (xs xs' : list X) (ys ys' : list Y) :
  length xs = length ys ->
  combine (xs ++ xs') (ys ++ ys') = combine xs ys ++ combine xs' ys'.
Proof.
  revert ys. induction xs as [|x xs IH]; intros [|y ys] L;
    simpl in *; try discriminate; [reflexivity|].
  f_equal. apply IH. now injection L.
Qed.

Section Sweeps.
Context {A : Type} `{PyNum A}.

Lemma pressure_loop (gp : GasProperties A) (vs : list A) :
  forall s s',
    for_each vs (pressure_body gp) s = Ok s' ->
    exists rs,
      P_relative_diff_total_static s' = P_relative_diff_total_static s ++ rs /\
      P_static_values s' = P_static_values s ++ repeat P_static (length vs) /\
      Forall2 (relative_difference_at (rho gp)) vs rs.
Proof.
  induction vs as [|V vs IH]; intros s s' E; simpl in E.
  - injection E as <-. exists []. rewrite !app_nil_r. auto.
  - apply bind_Ok in E. destruct E as (s1 & E1 & E2).
    unfold pressure_body in E1.
    apply bind_Ok in E1. destruct E1 as (P_t & EP & E1).
    apply bind_Ok in E1. destruct E1 as (P_total & ED & E1).
    apply bind_Ok in E1. destruct E1 as (r & ER & E1).
    injection E1 as <-.
    destruct (IH _ _ E2) as (rs & Hr & Hp & HF). simpl in Hr, Hp.
    exists (r :: rs). rewrite Hr, Hp, <- !app_assoc. simpl.
    repeat split; try reflexivity.
    constructor; [|exact HF]. exists P_t, P_total. auto.
Qed.

Lemma temperature_loop (vs : list A) :
  forall s s',
    length (T_static_values s) = length (T_measured_values s) ->
    length (T_static_values s) = length (T_diff_measured_static s) ->
    for_each vs temperature_body s = Ok s' ->
    exists xs,
      rows s' = rows s ++ xs /\
      length (T_static_values s') = length (T_measured_values s') /\
      length (T_static_values s') = length (T_diff_measured_static s') /\
      length (T_static_values s') = (length (T_static_values s) + length vs)%nat /\
      Forall2 temperature_sample_at vs xs.
Proof.
  induction vs as [|V vs IH]; intros s s' L1 L2 E; simpl in E.
  - injection E as <-. exists []. rewrite !app_nil_r.
    repeat split; auto.
  - apply bind_Ok in E. destruct E as (s1 & E1 & E2).
    unfold temperature_body in E1.
    apply bind_Ok in E1. destruct E1 as (Ts & ET & E1).
    apply bind_Ok in E1. destruct E1 as (V2 & EV & E1).
    apply bind_Ok in E1. destruct E1 as (k & EK & E1).
    injection E1 as <-.
    apply IH in E2; simpl; rewrite ?length_app; simpl; try lia.
    destruct E2 as (xs & Hr & M1 & M2 & M3 & HF).
    exists ((Ts, add Ts k, sub (add Ts k) Ts) :: xs).
    repeat split; try assumption.
    + rewrite Hr. unfold rows. simpl.
      rewrite !combine_app by (rewrite ?length_combine; lia).
      rewrite <- app_assoc. reflexivity.
    + rewrite M3. simpl. rewrite length_app. simpl. lia.
    + constructor; [|exact HF].
      exists k. repeat split; try assumption.
      unfold kinetic_correction. rewrite EV. exact EK.
Qed.

End Sweeps.

Lemma ok_returns {A : Type} (m : res A) : ok m = true <-> returns m.
Proof.
  destruct m as [a|e]; simpl; split; try discriminate; eauto.
  - intros _. now exists a.
  - intros [a E]. discriminate.
Qed.

Lemma for_each_returns {S X : Type} (body : X -> S -> res S) (xs : list X) :
  (forall x s, In x xs -> returns (body x s)) ->
  forall s, returns (for_each xs body s).
Proof.
  induction xs as [|x xs IH]; intros Hb s; simpl.
  - now exists s.
  - destruct (Hb x s (or_introl eq_refl)) as [s1 E1]. rewrite E1. simpl.
    apply IH. intros y t Hy. apply Hb. now right.
Qed.

Lemma Forall2_nth_error {X Y : Type} (R : X -> Y -> Prop) xs ys :
  Forall2 R xs ys ->
  forall i x, nth_error xs i = Some x ->
  exists y, nth_error ys i = Some y /\ R x y.
Proof.
  induction 1 as [|x0 y0 xs ys HR HF IH]; intros [|i] x E; simpl in *;
    try discriminate.
  - injection E as <-. eauto.
  - eauto.
Qed.

Lemma linspace_binary64 :
  linspace (lit 0) (lit 300) 100 = Ok velocities_binary64.
Proof. vm_compute. reflexivity. Qed.

Lemma linspace_exact :
  linspace (lit 0) (lit 300) 100 = Ok velocities_exact.
Proof. vm_compute. reflexivity. Qed.

Lemma velocities_binary64_square :
  forallb (fun V => ok (pow2 V)) velocities_binary64 = true.
Proof. vm_compute. reflexivity. Qed.

Section ScriptSpecs.
Context {A : Type} `{PyNum A}.

(** The pressure script, once the lookup has answered and provided no
    pass of the loop raises. *)
Lemma pressure_script_spec
    (calculate_from_PT : Composition A -> A -> A -> res (GasProperties A))
    (gp : GasProperties A) (vs : list A) :
  calculate_from_PT composition P_static T = Ok gp ->
  linspace (lit 0) (lit 300) 100 = Ok vs ->
  (forall V s, In V vs -> returns (pressure_body gp V s)) ->
  exists run,
    pressure_script calculate_from_PT = Ok run /\
    pr_velocities run = vs /\
    P_static_values (pr_lists run) = repeat P_static (length vs) /\
    Forall2 (relative_difference_at (rho gp)) vs
      (P_relative_diff_total_static (pr_lists run)).
Proof.
  intros lookup Hvs Hbody.
  unfold pressure_script. rewrite lookup. cbn [bind].
  rewrite Hvs. cbn [bind].
  pose proof (for_each_returns (pressure_body gp) vs Hbody) as R.
  match goal with
  | |- context [for_each _ _ ?s0] => destruct (R s0) as [s' Es']
  end.
  rewrite Es'. cbn [bind]. eexists. split; [reflexivity|].
  destruct (pressure_loop _ _ _ _ Es') as (rs & Hr & Hp & HF).
  cbn [pr_velocities pr_lists P_static_values
       P_relative_diff_total_static app] in *.
  rewrite Hr, Hp. repeat split; auto.
Qed.

(** The temperature script, provided no pass of the loop raises. *)
Lemma temperature_script_spec (vs : list A) :
  linspace (lit 0) (lit 300) 100 = Ok vs ->
  (forall V s, In V vs -> returns (temperature_body V s)) ->
  exists run,
    temperature_script = Ok run /\
    tr_velocities run = vs /\
    length (T_static_values (tr_lists run)) = length vs /\
    length (T_measured_values (tr_lists run)) = length vs /\
    length (T_diff_measured_static (tr_lists run)) = length vs /\
    Forall2 temperature_sample_at vs (rows (tr_lists run)).
Proof.
  intros Hvs Hbody.
  unfold temperature_script. rewrite Hvs. cbn [bind].
  pose proof (for_each_returns temperature_body vs Hbody) as R.
  match goal with
  | |- context [for_each _ _ ?s0] => destruct (R s0) as [s' Es']
  end.
  rewrite Es'. cbn [bind]. eexists. split; [reflexivity|].
  apply temperature_loop in Es'; [|reflexivity|reflexivity].
  destruct Es' as (xs & Hr & M1 & M2 & M3 & HF).
  cbn [tr_velocities tr_lists] in *.
  change (rows _ ++ xs) with xs in Hr. rewrite Hr.
  cbn [T_static_values length Nat.add] in M3.
  repeat split; auto; lia.
Qed.

End ScriptSpecs.

Section Binary64Scripts.

Lemma pressure_body_returns_binary64
    (gp : GasProperties float) (V : float) (s : PressureLists float) :
  ok (pow2 V) = true -> returns (pressure_body gp V s).
Proof.
  intros HV. apply ok_returns in HV. destruct HV as [V2 EV].
  unfold pressure_body, static_to_total_pressure. rewrite EV. cbn [bind].
  rewrite binary64_div_nonzero by reflexivity. cbn [bind].
  rewrite binary64_div_nonzero by reflexivity. cbn [bind].
  eexists. reflexivity.
Qed.

Lemma temperature_body_returns_binary64
    (V : float) (s : TemperatureLists float) :
  ok (pow2 V) = true -> returns (temperature_body V s).
Proof.
  intros HV. apply ok_returns in HV. destruct HV as [V2 EV].
  unfold temperature_body, total_to_static_temperature.
  rewrite EV. cbn [bind].
  rewrite binary64_div_nonzero by reflexivity. cbn [bind].
  rewrite binary64_div_nonzero by reflexivity. cbn [bind].
  eexists. reflexivity.
Qed.

Lemma pressure_script_binary64
    (calculate_from_PT :
       Composition float -> float -> float -> res (GasProperties float))
    (gp : GasProperties float) :
  calculate_from_PT composition P_static T = Ok gp ->
  exists run,
    pressure_script calculate_from_PT = Ok run /\
    pr_velocities run = velocities_binary64 /\
    P_static_values (pr_lists run) = repeat P_static 100 /\
    Forall2 (relative_difference_at (rho gp)) velocities_binary64
      (P_relative_diff_total_static (pr_lists run)).
Proof.
  intros lookup.
  apply (pressure_script_spec _ gp velocities_binary64 lookup linspace_binary64).
  intros V s HV. apply pressure_body_returns_binary64.
  pose proof velocities_binary64_square as F.
  rewrite forallb_forall in F. now apply F.
Qed.

Lemma temperature_script_binary64 :
  exists run,
    temperature_script = Ok run /\
    tr_velocities run = velocities_binary64 /\
    length (T_static_values (tr_lists run)) = 100%nat /\
    length (T_measured_values (tr_lists run)) = 100%nat /\
    length (T_diff_measured_static (tr_lists run)) = 100%nat /\
    Forall2 temperature_sample_at velocities_binary64 (rows (tr_lists run)).
Proof.
  apply (temperature_script_spec velocities_binary64 linspace_binary64).
  intros V s HV. apply temperature_body_returns_binary64.
  pose proof velocities_binary64_square as F.
  rewrite forallb_forall in F. now apply F.
Qed.

End Binary64Scripts.

Section ExactScripts.

Lemma pressure_body_returns_exact
    (gp : GasProperties Q) (V : Q) (s : PressureLists Q) :
  returns (pressure_body gp V s).
Proof.
  unfold pressure_body, static_to_total_pressure.
  change (pow2 V) with (Ok (V * V)%Q). cbn [bind].
  rewrite exact_div_nonzero by discriminate. cbn [bind].
  rewrite exact_div_nonzero by discriminate. cbn [bind].
  eexists. reflexivity.
Qed.

Lemma temperature_body_returns_exact (V : Q) (s : TemperatureLists Q) :
  returns (temperature_body V s).
Proof.
  unfold temperature_body, total_to_static_temperature.
  change (pow2 V) with (Ok (V * V)%Q). cbn [bind].
  rewrite exact_div_nonzero by discriminate. cbn [bind].
  rewrite exact_div_nonzero by discriminate. cbn [bind].
  eexists. reflexivity.
Qed.

Lemma pressure_script_exact
    (calculate_from_PT : Composition Q -> Q -> Q -> res (GasProperties Q))
    (gp : GasProperties Q) :
  calculate_from_PT composition P_static T = Ok gp ->
  exists run,
    pressure_script calculate_from_PT = Ok run /\
    pr_velocities run = velocities_exact /\
    P_static_values (pr_lists run) = repeat P_static 100 /\
    Forall2 (relative_difference_at (rho gp)) velocities_exact
      (P_relative_diff_total_static (pr_lists run)).
Proof.
  intros lookup.
  apply (pressure_script_spec _ gp velocities_exact lookup linspace_exact).
  intros V s _. apply pressure_body_returns_exact.
Qed.

Lemma temperature_script_exact :
  exists run,
    temperature_script = Ok run /\
    tr_velocities run = velocities_exact /\
    length (T_static_values (tr_lists run)) = 100%nat /\
    length (T_measured_values (tr_lists run)) = 100%nat /\
    length (T_diff_measured_static (tr_lists run)) = 100%nat /\
    Forall2 temperature_sample_at velocities_exact (rows (tr_lists run)).
Proof.
  apply (temperature_script_spec velocities_exact linspace_exact).
  intros V s _. apply temperature_body_returns_exact.
Qed.

End ExactScripts.

(** ** Lists read by index *)

Lemma nth_error_combine {X Y : Type} (xs : list X) (ys : list Y) i x y :
nth_error (combine xs ys) i = Some (x, y) ->
nth_error xs i = Some x /\ nth_error ys i = Some y.
Proof.
revert ys i. induction xs as [|x0 xs IH]; intros [|y0 ys] [|i] E;
  simpl in *; try discriminate.
- injection E as -> ->. auto.
- auto.
Qed.

Lemma Forall2_length_eq {X Y : Type} (R : X -> Y -> Prop) xs ys :
Forall2 R xs ys -> length xs = length ys.
Proof. induction 1; simpl; congruence. Qed.

Lemma Forall2_conj {X Y : Type} (R S : X -> Y -> Prop) xs ys :
Forall2 R xs ys -> Forall2 S xs ys ->
Forall2 (fun x y => R x y /\ S x y) xs ys.
Proof.
induction 1 as [|x y xs ys HR HF IH]; intros HS; inversion HS; subst;
  constructor; auto.
Qed.

Lemma Forall2_forallb {X Y : Type} (f : X -> Y -> bool) xs ys :
length xs = length ys ->
forallb (fun p => f (fst p) (snd p)) (combine xs ys) = true ->
Forall2 (fun x y => f x y = true) xs ys.
Proof.
revert ys. induction xs as [|x xs IH]; intros [|y ys] L E;
  simpl in *; try discriminate; constructor.
- now apply andb_true_iff in E.
- apply IH; [now injection L|]. now apply andb_true_iff in E.
Qed.

(** A property of consecutive inputs carries over to consecutive outputs. *)
Lemma Forall2_adjacent {X Y : Type} (R : X -> Y -> Prop)
  (P : X -> X -> Prop) (W : Y -> Y -> Prop) xs ys :
Forall2 R xs ys ->
Forall (fun p => P (fst p) (snd p)) (adjacent xs) ->
(forall x x' y y', P x x' -> R x y -> R x' y' -> W y y') ->
forall i a b,
  nth_error ys i = Some a -> nth_error ys (S i) = Some b -> W a b.
Proof.
intros HF HP HW. induction HF as [|x y xs ys HR HF IH]; intros i a b Ea Eb.
- destruct i; discriminate.
- destruct HF as [|x' y' xs ys HR' HF].
  + destruct i as [|[|i]]; discriminate.
  + simpl in HP. inversion HP as [|p ps Hp Hps]; subst.
    destruct i as [|i].
    * simpl in Ea, Eb. injection Ea as <-. injection Eb as <-.
      eapply HW; eauto.
    * eapply (IH Hps i); eauto.
Qed.

Lemma adjacent_nth_error {X : Type} (xs : list X) i a b :
nth_error xs i = Some a -> nth_error xs (S i) = Some b ->
In (a, b) (adjacent xs).
Proof.
revert i. induction xs as [|x xs IH]; intros i Ea Eb.
- destruct i; discriminate.
- destruct xs as [|x' xs]; [destruct i as [|[|i]]; discriminate|].
  destruct i as [|i].
  + simpl in Ea, Eb. injection Ea as <-. injection Eb as <-. now left.
  + right. eapply IH; eauto.
Qed.

Lemma nth_error_In_combine {X Y : Type} (xs : list X) (ys : list Y) i x y :
nth_error xs i = Some x -> nth_error ys i = Some y ->
In (x, y) (combine xs ys).
Proof.
revert ys i. induction xs as [|x0 xs IH]; intros [|y0 ys] [|i] Ex Ey;
  simpl in *; try discriminate.
- injection Ex as <-. injection Ey as <-. now left.
- right. eauto.
Qed.

Lemma nth_error_seq (s n i : nat) :
(i < n)%nat -> nth_error (seq s n) i = Some (s + i)%nat.
Proof.
revert s i. induction n as [|n IH]; intros s [|i] L; simpl; try lia.
- f_equal. lia.
- rewrite IH by lia. f_equal. lia.
Qed.

Lemma nth_error_In_indexed {X : Type} (xs : list X) i x :
nth_error xs i = Some x -> In (i, x) (indexed xs).
Proof.
intros E. unfold indexed. apply nth_error_In_combine with (i := i); [|exact E].
rewrite nth_error_seq; [reflexivity|].
apply nth_error_Some. congruence.
Qed.

(** ** The velocity sweep *)

Lemma velocities_binary64_increasing :
forallb (fun p => PrimFloat.ltb (fst p) (snd p))
  (adjacent velocities_binary64) = true.
Proof. vm_compute. reflexivity. Qed.

Lemma velocities_binary64_close :
forallb (fun p => within (1 # 2 ^ 44) (snd p) (exact_sample (fst p)))
  (indexed velocities_binary64) = true.
Proof. vm_compute. reflexivity. Qed.

Lemma velocities_exact_samples :
forallb (fun p => Qeq_bool (snd p) (exact_sample (fst p)))
  (indexed velocities_exact) = true.
Proof. vm_compute. reflexivity. Qed.

Lemma velocities_exact_step :
forallb (fun p => Qeq_bool (snd p - fst p) (300 / 99))
  (adjacent velocities_exact) = true.
Proof. vm_compute. reflexivity. Qed.

Lemma velocities_exact_increasing :
forallb (fun p => Qle_bool 0 (fst p) && Qltb (fst p) (snd p))
  (adjacent velocities_exact) = true.
Proof. vm_compute. reflexivity. Qed.

(** The recorded temperature differences of the binary64 run are within
    [2^-45] of the rounded corrections. *)
Lemma temperature_differences_close :
match temperature_script with
| Ok run =>
    forallb (fun p => difference_close (1 # 2 ^ 45) (fst p) (snd p))
      (combine (tr_velocities run) (T_diff_measured_static (tr_lists run)))
| Raise _ => false
end = true.
Proof. vm_compute. reflexivity. Qed.

(** ** Monotonicity in exact arithmetic *)

Section ExactOrder.
Local Open Scope Q_scope.

(** What one pass of the pressure loop records, in closed form. *)
Lemma relative_difference_exact (rho V r : Q) :
relative_difference_at rho V r ->
r == 100 * ((1 * 100000 + 0.5 * rho * (V * V)) / 100000 - 1) / 1.
Proof.
intros (P_t & P_total & H1 & H2 & H3).
unfold static_to_total_pressure in H1.
change (pow2 V) with (Ok (V * V)) in H1. cbn [bind] in H1.
injection H1 as <-.
rewrite exact_div_nonzero in H2 by discriminate. injection H2 as <-.
rewrite exact_div_nonzero in H3 by discriminate. injection H3 as <-.
reflexivity.
Qed.

Lemma relative_difference_increasing (rho V V' r r' : Q) :
0 < rho -> 0 <= V -> V < V' ->
relative_difference_at rho V r -> relative_difference_at rho V' r' ->
r < r'.
Proof.
intros Hrho HV HVV' Hr Hr'.
apply relative_difference_exact in Hr, Hr'. rewrite Hr, Hr'.
assert (HS : V * V < V' * V') by nra.
assert (HP : rho * (V * V) < rho * (V' * V')) by nra.
setoid_replace (100 * ((1 * 100000 + 0.5 * rho * (V * V)) / 100000 - 1) / 1)
  with ((rho * (V * V)) * (1 # 2000)) by field.
setoid_replace (100 * ((1 * 100000 + 0.5 * rho * (V' * V')) / 100000 - 1) / 1)
  with ((rho * (V' * V')) * (1 # 2000)) by field.
apply Qmult_lt_compat_r; [reflexivity|exact HP].
Qed.


End ExactOrder.

(** ** A velocity of zero in binary64 *)

Lemma positive_spec (x : float) :
(lit 0 <? x)%py = true ->
PrimFloat.is_nan x = false /\ (x == lit 0)%py = false.
Proof.
intros L. change ((lit 0 <? x)%py) with (PrimFloat.ltb PrimFloat.zero x) in L.
change ((x == lit 0)%py) with (PrimFloat.eqb x PrimFloat.zero).
rewrite ltb_spec in L. rewrite FloatAxioms.eqb_spec.
change (Prim2SF PrimFloat.zero) with (S754_zero false) in *.
split.
- apply is_nan_spec. intros N. rewrite N in L. discriminate.
- destruct (Prim2SF x) as [[|]|[|]| |[|] m e];
    simpl in L |- *; try discriminate; reflexivity.
Qed.


(** ** The rounding error of a round trip *)

Section RoundTripError.
Local Open Scope Q_scope.

Lemma add_finite_inv (x y : float) :
is_finite (x + y)%float = true -> is_finite x = true /\ is_finite y = true.
Proof.
rewrite !is_finite_spec, add_spec. unfold SF64add.
destruct (Prim2SF x) as [sx|sx| |sx mx ex], (Prim2SF y) as [sy|sy| |sy my ey];
  cbn [SFadd]; intros F; try (split; constructor); try (now inversion F).
destruct sx, sy; inversion F.
Qed.

Lemma sub_finite_inv (x y : float) :
is_finite (x - y)%float = true -> is_finite x = true /\ is_finite y = true.
Proof.
rewrite !is_finite_spec, sub_spec. unfold SF64sub.
destruct (Prim2SF x) as [sx|sx| |sx mx ex], (Prim2SF y) as [sy|sy| |sy my ey];
  cbn [SFsub]; intros F; try (split; constructor); try (now inversion F).
destruct sx, sy; inversion F.
Qed.

(** A finite sum is within a relative error of [2^-53] of the exact one. *)
Lemma add_error (x y : float) :
is_finite (x + y)%float = true ->
Qabs (F2Q (x + y)%float - (F2Q x + F2Q y)) * 2 ^ 53 <= Qabs (F2Q x + F2Q y).
Proof.
intros F. destruct (add_finite_inv x y F) as [Fx Fy].
apply is_finite_spec in Fx, Fy.
pose proof (SFadd_rounded _ _ Fx Fy (Prim2SF_valid x) (Prim2SF_valid y)) as R.
rewrite <- add_spec in R. apply is_finite_spec in F.
unfold F2Q. destruct F; cbn [rounded] in R; apply R.
Qed.

Lemma sub_error (x y : float) :
is_finite (x - y)%float = true ->
Qabs (F2Q (x - y)%float - (F2Q x - F2Q y)) * 2 ^ 53 <= Qabs (F2Q x - F2Q y).
Proof.
intros F. destruct (sub_finite_inv x y F) as [Fx Fy].
apply is_finite_spec in Fx, Fy.
pose proof (SFsub_rounded _ _ Fx Fy (Prim2SF_valid x) (Prim2SF_valid y)) as R.
rewrite <- sub_spec in R. apply is_finite_spec in F.
unfold F2Q. destruct F; cbn [rounded] in R; apply R.
Qed.

(** Two roundings, each of relative error [2^-53]: adding [b] to [a] and
    taking it away again is off by at most [3 * 2^-53 * (|a| + |b|)]. *)
Lemma round_trip_bound (a b s r : Q) :
Qabs (s - (a + b)) * 2 ^ 53 <= Qabs (a + b) ->
Qabs (r - (s - b)) * 2 ^ 53 <= Qabs (s - b) ->
Qabs (r - a) <= (3 # 2 ^ 53) * (Qabs a + Qabs b).
Proof.
intros H1 H2.
pose proof (Qabs_triangle a b) as T1.
assert (T2 : Qabs (s - b) <= Qabs a + Qabs (s - (a + b))).
{ setoid_replace (s - b) with (a + (s - (a + b))) by ring.
  apply Qabs_triangle. }
assert (T3 : Qabs (r - a) <= Qabs (r - (s - b)) + Qabs (s - (a + b))).
{ setoid_replace (r - a) with ((r - (s - b)) + (s - (a + b))) at 1 by ring.
  apply Qabs_triangle. }
pose proof (Qabs_nonneg a). pose proof (Qabs_nonneg b).
pose proof (Qabs_nonneg (s - (a + b))). pose proof (Qabs_nonneg (r - (s - b))).
set (A := Qabs a) in *. set (B := Qabs b) in *.
set (E1 := Qabs (s - (a + b))) in *. set (E2 := Qabs (r - (s - b))) in *.
set (N1 := Qabs (a + b)) in *. set (N2 := Qabs (s - b)) in *.
clearbody A B E1 E2 N1 N2.
change (2 ^ 53) with (9007199254740992 # 1) in *.
change (3 # 2 ^ 53) with (3 # 9007199254740992).
lra.
Qed.

Lemma pressure_round_trip_error (P V rho V2 r : float) :
pow2 V = Ok V2 ->
pressure_round_trip P V rho = Ok r ->
is_finite r = true ->
Qabs (F2Q r - F2Q P)
  <= (3 # 2 ^ 53) * (Qabs (F2Q P) + Qabs (F2Q (lit 0.5 * rho * V2)%py)).
Proof.
intros EV E F.
unfold pressure_round_trip, static_to_total_pressure,
  total_to_static_pressure in E.
rewrite EV in E. cbn [bind] in E. injection E as <-.
set (k := (lit 0.5 * rho * V2)%py) in *.
change ((P + k - k)%py) with ((P + k) - k)%float in *.
destruct (sub_finite_inv _ _ F) as [Fs Fk].
apply round_trip_bound with (s := F2Q (P + k)%float).
- now apply add_error.
- now apply sub_error.
Qed.

Lemma temperature_round_trip_error (T V Cp V2 k r : float) :
pow2 V = Ok V2 ->
div (lit 0.5 * V2)%py Cp = Ok k ->
temperature_round_trip T V Cp = Ok r ->
is_finite r = true ->
Qabs (F2Q r - F2Q T) <= (3 # 2 ^ 53) * (Qabs (F2Q T) + Qabs (F2Q k)).
Proof.
intros EV EK E F.
unfold temperature_round_trip, static_to_total_temperature,
  total_to_static_temperature in E.
rewrite EV in E. cbn [bind] in E. rewrite EK in E. cbn [bind] in E.
injection E as <-.
change ((T + k - k)%py) with ((T + k) - k)%float in *.
destruct (sub_finite_inv _ _ F) as [Fs Fk].
apply round_trip_bound with (s := F2Q (T + k)%float).
- now apply add_error.
- now apply sub_error.
Qed.

End RoundTripError.

(** ** The static temperature is at most the total temperature *)

Section StaticBelowTotal.

Lemma square_returns (V V2 : float) :
is_finite V = true -> pow2 V = Ok V2 ->
V2 = (V * V)%float /\ PrimFloat.is_infinity (V * V)%float = false.
Proof.
intros F E. change (pow2 V) with (Binary64.square V) in E.
unfold Binary64.square in E. rewrite F in E. cbn [andb] in E.
destruct (PrimFloat.is_infinity (V * V)) eqn:I; [discriminate|].
injection E as <-. auto.
Qed.

Lemma square_nonneg (V : float) :
is_finite V = true -> PrimFloat.is_infinity (V * V)%float = false ->
SF_finite (Prim2SF (V * V)%float) /\ SF_nonneg (Prim2SF (V * V)%float).
Proof.
intros F I. apply is_finite_spec in F.
destruct (SFmul_finite_sign _ _ F F) as [N S].
rewrite <- mul_spec in N, S. rewrite xorb_nilpotent in S.
split; [|split; assumption].
destruct (Prim2SF (V * V)%float) as [s|s| |s m e] eqn:E;
  try constructor; try congruence.
assert (PrimFloat.is_infinity (V * V)%float = true)
  by (apply is_infinity_spec; eauto).
congruence.
Qed.

Lemma positive_finite_spec (x : float) :
is_finite x = true -> (lit 0 <? x)%py = true ->
exists m e, Prim2SF x = S754_finite false m e.
Proof.
intros F L. apply is_finite_spec in F.
change ((lit 0 <? x)%py) with (PrimFloat.ltb PrimFloat.zero x) in L.
rewrite ltb_spec in L.
change (Prim2SF PrimFloat.zero) with (S754_zero false) in L.
destruct F as [s|[|] m e]; cbn in L; try discriminate. eauto.
Qed.


End StaticBelowTotal.

(** ** Rounding without overflow *)

Section NoOverflow.
Local Open Scope Z_scope.

Lemma shr_1_zero (mrs : shr_record) :
shr_m mrs = 0 -> shr_m (shr_1 mrs) = 0.
Proof.
destruct mrs as [m r s]. cbn [shr_m]. intros ->. reflexivity.
Qed.

Lemma iter_pos_shr_zero (p : positive) :
forall mrs, shr_m mrs = 0 -> shr_m (iter_pos shr_1 p mrs) = 0.
Proof.
induction p as [p IH|p IH|]; intros mrs H; cbn [iter_pos].
- apply IH, IH. now apply shr_1_zero.
- now apply IH, IH.
- now apply shr_1_zero.
Qed.

Lemma digits2_pos_le (q : positive) (k : Z) :
0 <= k -> Zpos q <= 2 ^ k -> Zpos (digits2_pos q) <= k + 1.
Proof.
intros Hk H. destruct (digits2_pos_bounds q) as [L _].
set (d := Zpos (digits2_pos q)) in *.
destruct (Z_le_gt_dec d (k + 1)) as [C|C]; [exact C|].
assert (2 ^ (k + 1) <= 2 ^ (d - 1)) by (apply Z.pow_le_mono_r; lia).
rewrite Z.pow_add_r in * by lia. change (2 ^ 1) with 2 in *.
assert (0 < 2 ^ k) by (apply Z.pow_pos_nonneg; lia). lia.
Qed.

(** An aligned mantissa whose value is below [2^1023] is rounded to a
    finite number: there is no overflow. *)
Lemma binary_round_aux_finite (s : bool) (m : positive) (e : Z) :
e <= fexp64 (Zpos (digits2_pos m) + e) ->
Zpos (digits2_pos m) + e <= 1023 ->
SF_finite (binary_round_aux prec emax s (Zpos m) e loc_Exact).
Proof.
intros Hal Hd.
destruct (digits2_pos_bounds m) as [L U].
set (d := Zpos (digits2_pos m)) in *.
assert (Hd0 : 0 < d) by (unfold d; lia).
unfold binary_round_aux, shr_fexp. cbn [Zdigits2 shr_record_of_loc].
fold d. rewrite fexp_fexp64.
destruct (fexp64 (d + e) - e) as [|p|p] eqn:En; [| |lia].
- cbn [shr shr_m loc_of_shr_record round_nearest_even shr_r shr_s].
  cbn [Zdigits2 shr_record_of_loc]. fold d. rewrite fexp_fexp64, En.
  cbn [shr shr_m]. change (emax - prec) with 971.
  destruct (e <=? 971) eqn:Ee; [constructor|].
  apply Z.leb_gt in Ee. unfold fexp64 in En. lia.
- cbn [shr].
  pose proof (iter_pos_shr_inv p (Zpos m) 0
                {| shr_m := Zpos m; shr_r := false; shr_s := false |}
                (Z.le_refl 0) (shr_inv_start (Zpos m) (Pos2Z.is_nonneg m))) as I.
  rewrite Z.add_0_l in I.
  set (mrs := iter_pos shr_1 p _) in *.
  pose proof (round_nearest_even_inv (Zpos m) (Zpos p) mrs (Pos2Z.is_nonneg p) I) as R.
  cbv zeta in R. destruct R as (RM & _ & _).
  destruct I as (t & Ht & E & _ & Hm1).
  set (m1 := shr_m mrs) in *.
  set (M := round_nearest_even m1 (loc_of_shr_record mrs)) in *.
  assert (P : 0 < 2 ^ Zpos p) by (apply Z.pow_pos_nonneg; lia).
  assert (Hb : 0 <= b2z (shr_r mrs) <= 1) by (destruct (shr_r mrs); cbn [b2z]; lia).
  assert (Fl : m1 * 2 ^ Zpos p <= Zpos m) by nia.
  set (f := e + Zpos p) in *.
  assert (Hf : f = fexp64 (d + e)) by (unfold f; lia).
  assert (Hf1 : f <= 970) by (rewrite Hf; unfold fexp64; lia).
  set (k := Z.max (d - Zpos p) 0).
  assert (Hm1k : m1 < 2 ^ k).
  { unfold k. destruct (Z_le_gt_dec (Zpos p) d) as [C|C].
    - rewrite Z.max_l by lia.
      assert (D : 2 ^ d = 2 ^ (d - Zpos p) * 2 ^ Zpos p).
      { rewrite <- Z.pow_add_r by lia. f_equal. lia. }
      rewrite D in U. nia.
    - rewrite Z.max_r by lia. rewrite Z.pow_0_r.
      assert (2 ^ d <= 2 ^ Zpos p) by (apply Z.pow_le_mono_r; lia). nia. }
  destruct M as [|q|q] eqn:EM; [| |lia].
  + (* rounded to zero *)
    cbn [Zdigits2 shr_record_of_loc]. rewrite fexp_fexp64.
    destruct (fexp64 (0 + f) - f) as [|p2|p2]; cbn [shr shr_m];
      try constructor.
    rewrite iter_pos_shr_zero by reflexivity. constructor.
  + cbn [Zdigits2 shr_record_of_loc]. rewrite fexp_fexp64.
    assert (Hq : Zpos (digits2_pos q) <= k + 1)
      by (apply digits2_pos_le; [unfold k; lia | lia]).
    set (d2 := Zpos (digits2_pos q)) in *.
    change (emax - prec) with 971.
    destruct (fexp64 (d2 + f) - f) as [|p2|p2] eqn:En2; cbn [shr shr_m].
    * destruct (f <=? 971) eqn:Ee; [constructor|]. apply Z.leb_gt in Ee. lia.
    * pose proof (iter_pos_shr_nonneg p2
                    {| shr_m := Zpos q; shr_r := false; shr_s := false |}
                    (Pos2Z.is_nonneg q)) as N.
      destruct (shr_m (iter_pos shr_1 p2 _)) as [|q3|q3]; [constructor| |lia].
      destruct (f + Zpos p2 <=? 971) eqn:Ee; [constructor|].
      apply Z.leb_gt in Ee. unfold fexp64, k in *. lia.
    * destruct (f <=? 971) eqn:Ee; [constructor|]. apply Z.leb_gt in Ee. lia.
Qed.

End NoOverflow.

(** ** Products that stay finite *)

Section Products.
Local Open Scope Z_scope.

Lemma canonical_exponent (m : positive) (e : Z) :
bounded prec emax m e = true ->
e = fexp64 (Zpos (digits2_pos m) + e) /\ Zpos (digits2_pos m) + e <= 1024.
Proof.
unfold bounded, canonical_mantissa. rewrite fexp_fexp64.
intros H. apply andb_true_iff in H. destruct H as [C B].
apply Z.eqb_eq in C. apply Z.leb_le in B. change (emax - prec) with 971 in B.
split; [lia|]. unfold fexp64 in C.
pose proof (Pos2Z.is_pos (digits2_pos m)). lia.
Qed.

Lemma digits2_pos_mul (a b : positive) :
Zpos (digits2_pos a) + Zpos (digits2_pos b) - 1 <= Zpos (digits2_pos (a * b))
  <= Zpos (digits2_pos a) + Zpos (digits2_pos b).
Proof.
destruct (digits2_pos_bounds a) as [La Ua], (digits2_pos_bounds b) as [Lb Ub],
  (digits2_pos_bounds (a * b)) as [L U].
set (da := Zpos (digits2_pos a)) in *. set (db := Zpos (digits2_pos b)) in *.
set (d := Zpos (digits2_pos (a * b))) in *.
assert (0 < da) by (unfold da; lia). assert (0 < db) by (unfold db; lia).
assert (0 < d) by (unfold d; lia).
rewrite Pos2Z.inj_mul in L, U.
assert (P1 : 2 ^ (da - 1) * 2 ^ (db - 1) <= Zpos a * Zpos b).
{ apply Z.mul_le_mono_nonneg; try lia; apply Z.pow_nonneg; lia. }
assert (P2 : Zpos a * Zpos b < 2 ^ da * 2 ^ db).
{ apply Z.mul_lt_mono_nonneg; lia. }
rewrite <- Z.pow_add_r in P1, P2 by lia.
split.
- destruct (Z_le_gt_dec (da + db - 1) d) as [C|C]; [exact C|].
  assert (2 ^ d <= 2 ^ (da - 1 + (db - 1))) by (apply Z.pow_le_mono_r; lia).
  lia.
- destruct (Z_le_gt_dec d (da + db)) as [C|C]; [exact C|].
  assert (2 ^ (da + db) <= 2 ^ (d - 1)) by (apply Z.pow_le_mono_r; lia).
  lia.
Qed.

(** The product of two finite numbers is finite when it stays below
    [2^1023]. *)
Lemma SFmul_finite (sx sy : bool) (mx my : positive) (ex ey : Z) :
bounded prec emax mx ex = true -> bounded prec emax my ey = true ->
Zpos (digits2_pos (mx * my)) + (ex + ey) <= 1023 ->
SF_finite (SF64mul (S754_finite sx mx ex) (S754_finite sy my ey)).
Proof.
intros Bx By H. unfold SF64mul. cbn [SFmul].
apply binary_round_aux_finite; [|exact H].
destruct (canonical_exponent _ _ Bx) as [Cx _],
  (canonical_exponent _ _ By) as [Cy _].
pose proof (digits2_pos_mul mx my) as [D _].
pose proof (Pos2Z.is_pos (digits2_pos mx)).
pose proof (Pos2Z.is_pos (digits2_pos my)).
unfold fexp64 in *. lia.
Qed.

Lemma digits2_pos_half_l (m : positive) :
Zpos (digits2_pos (4503599627370496 * m)) = Zpos (digits2_pos m) + 52.
Proof.
destruct (digits2_pos_bounds m) as [L U].
apply digits2_pos_unique; [|lia].
rewrite Pos2Z.inj_mul.
replace (Zpos (digits2_pos m) + 52 - 1) with (52 + (Zpos (digits2_pos m) - 1)) by lia.
replace (Zpos (digits2_pos m) + 52) with (52 + Zpos (digits2_pos m)) by lia.
rewrite !Z.pow_add_r by lia.
change (2 ^ 52) with 4503599627370496. lia.
Qed.

(** Halving never overflows. *)
Lemma SFmul_half_l (x : spec_float) :
SF_finite x -> valid_binary x = true ->
SF_finite (SF64mul (S754_finite false 4503599627370496 (-53)) x).
Proof.
intros [s|s m e] V.
- constructor.
- cbn [valid_binary] in V.
  apply SFmul_finite; [reflexivity|exact V|].
  rewrite digits2_pos_half_l.
  destruct (canonical_exponent _ _ V). lia.
Qed.

Lemma SFmul_half_r (x : spec_float) :
SF_finite x -> valid_binary x = true ->
SF_finite (SF64mul x (S754_finite false 4503599627370496 (-53))).
Proof.
intros [s|s m e] V.
- constructor.
- cbn [valid_binary] in V.
  apply SFmul_finite; [exact V|reflexivity|].
  rewrite Pos.mul_comm, digits2_pos_half_l.
  destruct (canonical_exponent _ _ V). lia.
Qed.

End Products.

Lemma half_mul_finite (x : float) :
is_finite x = true -> is_finite (lit 0.5 * x)%py = true.
Proof.
intros F. apply is_finite_spec in F. apply is_finite_spec.
change (lit 0.5 * x)%py with (PrimFloat.mul 0.5 x).
rewrite mul_spec.
change (Prim2SF 0.5) with (S754_finite false 4503599627370496 (-53)).
apply SFmul_half_l; [exact F|apply Prim2SF_valid].
Qed.

Lemma mul_half_finite (x : float) :
is_finite x = true -> is_finite (x * lit 0.5)%py = true.
Proof.
intros F. apply is_finite_spec in F. apply is_finite_spec.
change (x * lit 0.5)%py with (PrimFloat.mul x 0.5).
rewrite mul_spec.
change (Prim2SF 0.5) with (S754_finite false 4503599627370496 (-53)).
apply SFmul_half_r; [exact F|apply Prim2SF_valid].
Qed.

(** ** Adding a non-negative number *)

Section AdditionOrder.
Local Open Scope Q_scope.

(** Adding a non-negative number to a finite one never gives less: the
    rounding of [T + k] is at least [T]. *)
Lemma SFadd_ge (T k : spec_float) :
SF_finite T -> valid_binary T = true -> valid_binary k = true ->
SF_nonneg k ->
SFleb T (SF64add T k) = true.
Proof.
intros FT VT Vk [Nk Sk].
destruct k as [sk|sk| |sk mk ek]; cbn [SFsign] in Sk; subst; try congruence.
- (* k is zero *)
  destruct FT as [sT|sT mT eT]; unfold SF64add; cbn [SFadd].
  + destruct sT; reflexivity.
  + apply SFleb_refl. discriminate.
- (* k is infinite *)
  destruct FT as [sT|sT mT eT]; unfold SF64add; cbn [SFadd].
  + reflexivity.
  + destruct sT; reflexivity.
- (* k is positive *)
  destruct FT as [sT|sT mT eT]; unfold SF64add; cbn [SFadd].
  + reflexivity.
  + pose proof (valid_finite_emin _ _ _ VT) as HeT.
    pose proof (valid_finite_emin _ _ _ Vk) as Hek.
    cbn [valid_binary] in VT, Vk.
    set (ez := Z.min eT ek).
    assert (Hez : (-1074 <= ez)%Z) by (unfold ez; lia).
    pose proof (SF2Q_align false mT eT ez ltac:(unfold ez; lia)) as ET.
    pose proof (SF2Q_align false mk ek ez ltac:(unfold ez; lia)) as EK.
    cbn [SF2Q cond_Zopp] in ET, EK.
    set (aT := Zpos (fst (shl_align mT eT ez))) in *.
    set (ak := Zpos (fst (shl_align mk ek ez))) in *.
    assert (HaT : (0 < aT)%Z) by (unfold aT; lia).
    assert (Hak : (0 < ak)%Z) by (unfold ak; lia).
    cbn [cond_Zopp].
    destruct (cond_Zopp sT aT + ak)%Z as [|q|q] eqn:ES; cbn [binary_normalize].
    * destruct sT; cbn [cond_Zopp] in *; [reflexivity|lia].
    * destruct (binary_round_order false q ez Hez)
        as [[-> _]|(m' & e' & -> & B & _ & Hup)].
      -- destruct sT; reflexivity.
      -- destruct sT; cbn [cond_Zopp] in *; [reflexivity|].
         apply SFleb_positive; try assumption. apply Hup; [exact VT|].
         rewrite ET. apply QV_le. lia.
    * destruct sT; cbn [cond_Zopp] in *; [|lia].
      assert (Hy : QV (Zpos q) ez <= QV (Zpos mT) eT).
      { rewrite ET. apply QV_le. lia. }
      destruct (binary_round_order true q ez Hez)
        as [[_ Hinf]|(m' & e' & -> & B & Hdown & _)].
      -- specialize (Hinf mT eT VT). lra.
      -- apply SFleb_negative; try assumption. now apply Hdown.
Qed.

(** Read back from a comparison: among positive numbers [<=] is the
    order of the values. *)
Lemma SFleb_positive_inv (m1 m2 : positive) (e1 e2 : Z) :
bounded prec emax m1 e1 = true -> bounded prec emax m2 e2 = true ->
SFleb (S754_finite false m1 e1) (S754_finite false m2 e2) = true ->
QV (Zpos m1) e1 <= QV (Zpos m2) e2.
Proof.
intros B1 B2. unfold SFleb. cbn [SFcompare].
destruct (Z.compare_spec e1 e2) as [E|E|E]; intros H.
- subst e2. apply QV_le.
  change (Pos.compare_cont Eq m1 m2) with (Pos.compare m1 m2) in H.
  destruct (Pos.compare_spec m1 m2); try discriminate; lia.
- pose proof (bounded_exponent_lt _ _ _ _ B1 B2 E). lra.
- discriminate.
Qed.

(** Taking at most [T] away from a positive [T] leaves a number whose
    sign bit is clear. *)
Lemma SFsub_nonneg (mT : positive) (eT : Z) (k : spec_float) :
bounded prec emax mT eT = true -> SF_finite k -> valid_binary k = true ->
SFleb k (S754_finite false mT eT) = true ->
SF_nonneg (SF64sub (S754_finite false mT eT) k).
Proof.
intros VT Fk Vk Le.
destruct Fk as [sk|sk mk ek]; unfold SF64sub; cbn [SFsub].
- split; [discriminate|reflexivity].
- pose proof (valid_finite_emin _ _ _ Vk) as Hek.
  pose proof (bounded_digits _ _ VT) as (_ & HeT & _).
  cbn [valid_binary] in Vk.
  set (ez := Z.min eT ek).
  assert (Hez : (-1074 <= ez)%Z) by (unfold ez; lia).
  pose proof (SF2Q_align false mT eT ez ltac:(unfold ez; lia)) as ET.
  pose proof (SF2Q_align false mk ek ez ltac:(unfold ez; lia)) as EK.
  cbn [SF2Q cond_Zopp] in ET, EK.
  set (aT := Zpos (fst (shl_align mT eT ez))) in *.
  set (ak := Zpos (fst (shl_align mk ek ez))) in *.
  assert (HaT : (0 < aT)%Z) by (unfold aT; lia).
  assert (Hak : (0 < ak)%Z) by (unfold ak; lia).
  cbn [cond_Zopp].
  assert (Hpos : forall q, SF_nonneg (binary_round prec emax false q ez)).
  { intros q.
    destruct (binary_round_order false q ez Hez)
      as [[-> _]|(m' & e' & -> & _)]; split; try discriminate; reflexivity. }
  destruct (aT - cond_Zopp sk ak)%Z as [|q|q] eqn:ES;
    cbn [binary_normalize].
  + split; [discriminate|reflexivity].
  + apply Hpos.
  + destruct sk; cbn [cond_Zopp] in ES; [lia|].
    apply SFleb_positive_inv in Le; try assumption.
    rewrite ET, EK in Le. apply QV_le in Le. lia.
Qed.

End AdditionOrder.

(** ** The complement of the recovery factor *)

Section OneMinus.
Local Open Scope Z_scope.

(** A mantissa that is at most [2^1024 - 2^971 + 1] in value is rounded
    to a finite number: [1 - k] never overflows. *)
Lemma binary_round_below_max (s : bool) (q : positive) (ez : Z) (mk : positive) (ek : Z) :
-1074 <= ez <= -52 -> ez <= ek ->
bounded prec emax mk ek = true ->
Zpos q <= 2 ^ (- ez) + Zpos mk * 2 ^ (ek - ez) ->
SF_finite (binary_round prec emax s q ez).
Proof.
intros Hez Hek Bk Hq.
destruct (binary_round_spec s q ez ltac:(lia))
  as (ez' & mz & p & m1 & M & Hez' & Hmz & HR & [(_ & Hf & Hbig)|(m' & e' & -> & _)]);
  [|constructor].
exfalso.
destruct HR as (Hp & [Fl _] & HM & _ & Herr & HN & H0).
apply bounded_digits in Bk. destruct Bk as (Umk & Eek & _).
set (u := 2 ^ (- ez')).
assert (Hu : 0 < u) by (apply Z.pow_pos_nonneg; lia).
remember (2 ^ 971) as K eqn:EK.
assert (HK : 4 <= K).
{ subst K. change 4 with (2 ^ 2). apply Z.pow_le_mono_r; lia. }
assert (Ha : Zpos mz <= u + (2 ^ 53 - 1) * (K * u)).
{ rewrite Hmz.
  assert (P0 : 0 < 2 ^ (ez - ez')) by (apply Z.pow_pos_nonneg; lia).
  assert (E1 : 2 ^ (- ez) * 2 ^ (ez - ez') = u).
  { unfold u. rewrite <- Z.pow_add_r by lia. f_equal. lia. }
  assert (E2 : 2 ^ (ek - ez) * 2 ^ (ez - ez') = 2 ^ (ek - ez')).
  { rewrite <- Z.pow_add_r by lia. f_equal. lia. }
  assert (E3 : 2 ^ (ek - ez') <= K * u).
  { subst K. unfold u. rewrite <- Z.pow_add_r by lia.
    apply Z.pow_le_mono_r; lia. }
  assert (Zpos q * 2 ^ (ez - ez')
          <= (2 ^ (- ez) + Zpos mk * 2 ^ (ek - ez)) * 2 ^ (ez - ez'))
    by (apply Z.mul_le_mono_nonneg_r; lia).
  assert (Zpos mk * 2 ^ (ek - ez') <= (2 ^ 53 - 1) * (K * u)).
  { apply Z.mul_le_mono_nonneg; lia. }
  rewrite Z.mul_add_distr_r, E1, <- Z.mul_assoc, E2 in H. lia. }
set (f := ez' + p - 971) in *.
assert (Hf0 : 0 <= f) by (unfold f; lia).
assert (Hp0 : 0 < p) by lia.
specialize (HN Hp0).
set (F := 2 ^ f) in *.
assert (HF : 1 <= F) by (unfold F; apply (Z.pow_le_mono_r 2 0 f); lia).
assert (HW : 2 ^ p = F * (K * u)).
{ unfold F, u. subst K. rewrite <- !Z.pow_add_r by lia. f_equal. unfold f. lia. }
rewrite HW in *.
change (2 ^ 53) with 9007199254740992 in *.
change (2 ^ 52) with 4503599627370496 in *.
assert (HKu : 0 < K * u) by nia.
set (w := K * u) in *.
destruct (Z.eq_dec F 1) as [F1|F1].
- rewrite F1 in *. rewrite !Z.mul_1_l in *. rewrite Z.mul_1_r in Hbig.
  assert (M = 9007199254740992) by lia. subst M.
  assert (w <= 2 * u) by lia.
  unfold w in *. nia.
- assert (2 <= F) by lia.
  assert (4503599627370496 * (2 * w) <= m1 * (F * w)).
  { apply Z.mul_le_mono_nonneg; try lia. nia. }
  assert (w <= u) by lia.
  unfold w in *. nia.
Qed.

Lemma SFsub_one_finite (k : spec_float) :
SF_finite k -> valid_binary k = true ->
SF_finite (SF64sub (S754_finite false 4503599627370496 (-52)) k).
Proof.
intros [sk|sk mk ek] Vk; unfold SF64sub; cbn [SFsub]; [constructor|].
pose proof (valid_finite_emin _ _ _ Vk) as Hek.
cbn [valid_binary] in Vk.
set (ez := Z.min (-52) ek).
assert (Hez : -1074 <= ez <= -52) by (unfold ez; lia).
pose proof (shl_align_fst 4503599627370496 (-52) ez ltac:(lia)) as ET.
pose proof (shl_align_fst mk ek ez ltac:(unfold ez; lia)) as EK.
set (aT := Zpos (fst (shl_align 4503599627370496 (-52) ez))) in *.
set (ak := Zpos (fst (shl_align mk ek ez))) in *.
assert (HaT : aT = 2 ^ (- ez)).
{ rewrite ET. change 4503599627370496 with (2 ^ 52).
  rewrite <- Z.pow_add_r by lia. f_equal. lia. }
assert (Hak : 0 < ak) by (unfold ak; lia).
assert (HaT0 : 0 < aT) by (unfold aT; lia).
cbn [cond_Zopp].
destruct (aT - cond_Zopp sk ak) as [|q|q] eqn:ES; cbn [binary_normalize].
- constructor.
- apply (binary_round_below_max false q ez mk ek); try assumption;
    [unfold ez; lia|].
  rewrite <- HaT, <- EK. destruct sk; cbn [cond_Zopp] in ES; lia.
- apply (binary_round_below_max true q ez mk ek); try assumption;
    [unfold ez; lia|].
  rewrite <- HaT, <- EK. destruct sk; cbn [cond_Zopp] in ES; lia.
Qed.

End OneMinus.

Lemma one_minus_finite (x : float) :
is_finite x = true -> is_finite (lit 1 - x)%py = true.
Proof.
intros F. apply is_finite_spec in F. apply is_finite_spec.
change (lit 1 - x)%py with (PrimFloat.sub 1 x).
rewrite sub_spec.
change (Prim2SF 1) with (S754_finite false 4503599627370496 (-52)).
apply SFsub_one_finite; [exact F|apply Prim2SF_valid].
Qed.

(** ** Zeros, signs and negation in binary64 *)

Section Binary64Facts.

Lemma Prim2SF_eq (x y : float) : Prim2SF x = Prim2SF y -> x = y.
Proof.
intros E. rewrite <- (SF2Prim_Prim2SF x), <- (SF2Prim_Prim2SF y), E.
reflexivity.
Qed.

Lemma is_finite_opp (V : float) : is_finite (- V)%float = is_finite V.
Proof.
apply eq_true_iff_eq. rewrite !is_finite_spec, opp_spec.
destruct (Prim2SF V) as [s|s| |s m e]; cbn [SFopp];
  split; intros F; inversion F; constructor.
Qed.

Lemma mul_opp_opp (V : float) : (- V * - V)%float = (V * V)%float.
Proof.
apply Prim2SF_eq. rewrite !mul_spec, opp_spec.
destruct (Prim2SF V) as [s|s| |s m e]; unfold SF64mul; cbn [SFopp SFmul];
  try reflexivity; now destruct s.
Qed.

(** [(-V) ** 2] is [V ** 2], errors included. *)
Lemma square_opp (V : float) : pow2 (- V)%float = pow2 V.
Proof.
change (Binary64.square (- V)%float = Binary64.square V).
unfold Binary64.square. now rewrite mul_opp_opp, is_finite_opp.
Qed.

(** The square of a zero of either sign is [+0]. *)
Lemma square_zero (V : float) :
(V == lit 0)%py = true -> pow2 V = Ok PrimFloat.zero.
Proof.
intros Z. apply eqb_zero_spec in Z. destruct Z as [s Es].
assert (E : (V * V)%float = PrimFloat.zero).
{ apply Prim2SF_eq. rewrite mul_spec, Es. now destruct s. }
change (Binary64.square V = Ok PrimFloat.zero).
unfold Binary64.square. rewrite E. cbn. now rewrite andb_false_r.
Qed.

Lemma add_zero_eqb (T k : float) (s : bool) :
PrimFloat.is_nan T = false ->
Prim2SF k = S754_zero s ->
PrimFloat.eqb (T + k)%float T = true.
Proof.
intros NT Ek. apply is_nan_spec in NT.
rewrite FloatAxioms.eqb_spec, add_spec, Ek.
destruct (Prim2SF T) as [st|st| |st mt et] eqn:ET; try congruence.
- destruct st, s; reflexivity.
- apply SFeqb_refl. discriminate.
- apply SFeqb_refl. discriminate.
Qed.

Lemma mul_zero_r (x z : float) (s : bool) :
is_finite x = true -> Prim2SF z = S754_zero s ->
exists s', Prim2SF (x * z)%float = S754_zero s'.
Proof.
intros F Ez. apply is_finite_spec in F. rewrite mul_spec, Ez.
destruct F; unfold SF64mul; cbn [SFmul]; eauto.
Qed.

Lemma mul_zero_l (z x : float) (s : bool) :
Prim2SF z = S754_zero s -> is_finite x = true ->
exists s', Prim2SF (z * x)%float = S754_zero s'.
Proof.
intros Ez F. apply is_finite_spec in F. rewrite mul_spec, Ez.
destruct F; unfold SF64mul; cbn [SFmul]; eauto.
Qed.

Lemma div_zero_l (z c : float) (s : bool) :
Prim2SF z = S754_zero s ->
PrimFloat.is_nan c = false -> (c == lit 0)%py = false ->
exists s', Prim2SF (z / c)%float = S754_zero s'.
Proof.
intros Ez NC ZC. apply is_nan_spec in NC.
assert (NZ : forall s0, Prim2SF c <> S754_zero s0).
{ intros s0 E.
  assert (PrimFloat.eqb c (lit 0) = true) by (apply eqb_zero_spec; eauto).
  change (c == lit 0)%py with (PrimFloat.eqb c (lit 0)) in ZC. congruence. }
rewrite div_spec, Ez.
destruct (Prim2SF c) as [sc|sc| |sc mc ec]; unfold SF64div; cbn [SFdiv];
  try congruence; eauto.
Qed.

Lemma finite_not_nan (x : float) :
is_finite x = true -> PrimFloat.is_nan x = false.
Proof.
unfold is_finite. rewrite negb_true_iff, orb_false_iff. tauto.
Qed.

(** A number that is not NaN, has its sign bit clear and is at most a
    finite number is finite. *)
Lemma nonneg_le_finite (x T : spec_float) :
SF_nonneg x -> SF_finite T -> SFleb x T = true -> SF_finite x.
Proof.
intros [N S] FT L. destruct x as [s|s| |s m e]; try constructor;
  try congruence.
cbn [SFsign] in S. subst s. destruct FT; discriminate.
Qed.

(** [0 <= x] for a finite [x]: a zero of either sign or a positive
    number. *)
Lemma nonneg_finite_spec (x : float) :
is_finite x = true -> (lit 0 <=? x)%py = true ->
(exists s, Prim2SF x = S754_zero s) \/ SF_nonneg (Prim2SF x).
Proof.
intros F L. apply is_finite_spec in F.
change ((lit 0 <=? x)%py) with (PrimFloat.leb PrimFloat.zero x) in L.
rewrite leb_spec in L.
change (Prim2SF PrimFloat.zero) with (S754_zero false) in L.
destruct F as [s|[|] m e]; cbn in L; try discriminate; eauto.
right. split; [discriminate|reflexivity].
Qed.

Lemma leb_add_zero (T k : float) (s : bool) :
PrimFloat.is_nan T = false -> Prim2SF k = S754_zero s ->
PrimFloat.leb T (T + k)%float = true /\ PrimFloat.leb (T - k)%float T = true.
Proof.
intros NT Ek. apply is_nan_spec in NT.
rewrite !leb_spec, add_spec, sub_spec, Ek.
destruct (Prim2SF T) as [st|st| |st mt et] eqn:ET; try congruence.
- destruct st, s; split; reflexivity.
- destruct st; split; reflexivity.
- unfold SF64add, SF64sub. cbn [SFadd SFsub].
  split; apply SFleb_refl; discriminate.
Qed.

End Binary64Facts.

(** ** Velocities whose square cannot overflow *)

Section SmallVelocities.
Local Open Scope Z_scope.

Lemma SFmul_square_finite (s : bool) (m : positive) (e : Z) :
bounded prec emax m e = true -> e <= 458 ->
SF_finite (SF64mul (S754_finite s m e) (S754_finite s m e)).
Proof.
intros B He. apply SFmul_finite; try exact B.
pose proof (digits2_pos_mul m m) as [_ D].
destruct (canonical_exponent _ _ B) as [C _].
apply bounded_digits in B. destruct B as (U & _ & _).
destruct (digits2_pos_bounds m) as [L _].
assert (Zpos (digits2_pos m) <= 53).
{ destruct (Z_le_gt_dec (Zpos (digits2_pos m)) 53) as [H|H]; [exact H|].
  assert (2 ^ 53 <= 2 ^ (Zpos (digits2_pos m) - 1))
    by (apply Z.pow_le_mono_r; lia). lia. }
lia.
Qed.

Lemma below_2p511_spec (V : float) :
PrimFloat.ltb (abs V) 0x1p511%float = true ->
is_finite V = true /\ is_finite (V * V)%float = true.
Proof.
intros L. rewrite ltb_spec, abs_spec in L.
change (Prim2SF 0x1p511%float) with (S754_finite false 4503599627370496 459) in L.
remember 4503599627370496%positive as c eqn:Ec.
rewrite !is_finite_spec, mul_spec.
pose proof (Prim2SF_valid V) as Val.
destruct (Prim2SF V) as [s|s| |s m e]; cbn [SFabs] in L.
- split; [constructor|]. unfold SF64mul. cbn [SFmul]. constructor.
- discriminate.
- discriminate.
- split; [constructor|]. cbn [valid_binary] in Val.
  apply SFmul_square_finite; [exact Val|].
  unfold SFltb in L. cbn [SFcompare] in L.
  destruct (Z.compare_spec e 459) as [E|E|E]; try discriminate; [|lia].
  exfalso.
  change (Pos.compare_cont Eq m c) with (Pos.compare m c) in L.
  destruct (Pos.compare_spec m c) as [C|C|C]; try discriminate.
  apply bounded_digits in Val. destruct Val as (_ & _ & N).
  change (2 ^ 52) with 4503599627370496 in N. lia.
Qed.

End SmallVelocities.

(** ** Round trips the other way: the rounding error *)

Section BackError.
Local Open Scope Q_scope.

(** Taking [b] away from [a] and adding it again is off by at most
    [3 * 2^-53 * (|a| + |b|)]. *)
Lemma round_trip_back_bound (a b s r : Q) :
Qabs (s - (a - b)) * 2 ^ 53 <= Qabs (a - b) ->
Qabs (r - (s + b)) * 2 ^ 53 <= Qabs (s + b) ->
Qabs (r - a) <= (3 # 2 ^ 53) * (Qabs a + Qabs b).
Proof.
intros H1 H2.
pose proof (round_trip_bound a (- b) s r) as R.
rewrite Qabs_opp in R. apply R.
- exact H1.
- setoid_replace (s - - b) with (s + b) by ring. exact H2.
Qed.

Lemma sub_add_error (T k r : float) :
r = ((T - k) + k)%float -> is_finite r = true ->
Qabs (F2Q r - F2Q T) <= (3 # 2 ^ 53) * (Qabs (F2Q T) + Qabs (F2Q k)).
Proof.
intros -> F.
destruct (add_finite_inv _ _ F) as [Fs Fk].
apply round_trip_back_bound with (s := F2Q (T - k)%float).
- now apply sub_error.
- now apply add_error.
Qed.

Lemma add_sub_error (T k r : float) :
r = ((T + k) - k)%float -> is_finite r = true ->
Qabs (F2Q r - F2Q T) <= (3 # 2 ^ 53) * (Qabs (F2Q T) + Qabs (F2Q k)).
Proof.
intros -> F.
destruct (sub_finite_inv _ _ F) as [Fs Fk].
apply round_trip_bound with (s := F2Q (T + k)%float).
- now apply add_error.
- now apply sub_error.
Qed.

End BackError.

(** ** Signs of the corrections *)

Section CorrectionSigns.

(** The dynamic pressure [0.5 * rho * V**2] of a density that is not
    negative is a zero or a number with its sign bit clear. *)
Lemma dynamic_pressure_sign (rho V V2 : float) :
is_finite rho = true -> (lit 0 <=? rho)%py = true ->
is_finite V = true -> pow2 V = Ok V2 ->
(exists s, Prim2SF (lit 0.5 * rho * V2)%py = S754_zero s) \/
SF_nonneg (Prim2SF (lit 0.5 * rho * V2)%py).
Proof.
intros Fr Lr FV EV.
destruct (square_returns V V2 FV EV) as [-> I].
destruct (square_nonneg V FV I) as [F2 [N2 S2]].
assert (FH : is_finite (lit 0.5) = true) by reflexivity.
change (lit 0.5 * rho * (V * V)%float)%py
  with (PrimFloat.mul (PrimFloat.mul (lit 0.5) rho) (V * V)%float).
destruct (nonneg_finite_spec rho Fr Lr) as [[sr Er]|[Nr Sr]].
- left. destruct (mul_zero_r (lit 0.5) rho sr FH Er) as [s1 Es1].
  apply (mul_zero_l _ _ s1 Es1). now apply is_finite_spec.
- right.
  pose proof (half_mul_finite rho Fr) as Fh.
  change (lit 0.5 * rho)%py with (PrimFloat.mul (lit 0.5) rho) in Fh.
  apply is_finite_spec in Fh, Fr, FH.
  destruct (SFmul_finite_sign _ _ FH Fr) as [_ S1].
  rewrite <- mul_spec in S1.
  destruct (SFmul_finite_sign _ _ Fh F2) as [N S].
  rewrite <- mul_spec in N, S.
  split; [exact N|]. rewrite S, S1, Sr, S2. reflexivity.
Qed.

(** The kinetic term [0.5 * V**2 / Cp] of a positive [Cp] has its sign
    bit clear. *)
Lemma kinetic_term_sign (V V2 Cp : float) :
is_finite V = true -> pow2 V = Ok V2 ->
is_finite Cp = true -> (lit 0 <? Cp)%py = true ->
SF_nonneg (Prim2SF ((lit 0.5 * V2)%py / Cp)%float).
Proof.
intros FV EV FC PC.
destruct (square_returns V V2 FV EV) as [-> I].
destruct (square_nonneg V FV I) as [F2 [N2 S2]].
destruct (positive_finite_spec Cp FC PC) as (mc & ec & EC).
rewrite div_spec, EC.
change ((lit 0.5 * (V * V)%float)%py)
  with (PrimFloat.mul (lit 0.5) (V * V)%float).
rewrite mul_spec.
assert (FH : SF_finite (Prim2SF (lit 0.5))) by (vm_compute; constructor).
destruct (SFmul_finite_sign _ _ FH F2) as [N S].
destruct (SFdiv_finite_sign _ false mc ec N) as [Nk Sk].
split; [exact Nk|]. rewrite Sk, S, S2. reflexivity.
Qed.

(** The correction [(1 - rf) * 0.5 * V**2 / Cp] of a recovery factor
    that is at most 1 and a positive [Cp] has its sign bit clear. *)
Lemma recovery_term_sign (V V2 Cp rf : float) :
is_finite V = true -> pow2 V = Ok V2 ->
is_finite Cp = true -> (lit 0 <? Cp)%py = true ->
is_finite rf = true -> (rf <=? lit 1)%py = true ->
SF_nonneg (Prim2SF (((lit 1 - rf) * lit 0.5 * V2)%py / Cp)%float).
Proof.
intros FV EV FC PC Frf Lrf.
destruct (square_returns V V2 FV EV) as [-> I].
destruct (square_nonneg V FV I) as [F2 [N2 S2]].
destruct (positive_finite_spec Cp FC PC) as (mc & ec & EC).
pose proof (one_minus_finite rf Frf) as Fa.
pose proof (mul_half_finite _ Fa) as Fb.
change ((lit 1 - rf) * lit 0.5)%py
  with (PrimFloat.mul (PrimFloat.sub 1 rf) (lit 0.5)) in Fb.
change (lit 1 - rf)%py with (PrimFloat.sub 1 rf) in Fa.
assert (Sa : SF_nonneg (Prim2SF (PrimFloat.sub 1 rf))).
{ rewrite sub_spec.
  change (Prim2SF 1) with (S754_finite false 4503599627370496 (-52)).
  apply SFsub_nonneg; [reflexivity|now apply is_finite_spec
                      |apply Prim2SF_valid|].
  change ((rf <=? lit 1)%py) with (PrimFloat.leb rf 1) in Lrf.
  now rewrite leb_spec in Lrf. }
apply is_finite_spec in Fa, Fb.
assert (FH : SF_finite (Prim2SF (lit 0.5))) by (vm_compute; constructor).
destruct (SFmul_finite_sign _ _ Fa FH) as [_ S1].
rewrite <- mul_spec in S1.
destruct (SFmul_finite_sign _ _ Fb F2) as [N S].
rewrite <- mul_spec in N, S.
change (((lit 1 - rf) * lit 0.5 * (V * V)%float)%py)
  with (PrimFloat.mul (PrimFloat.mul (PrimFloat.sub 1 rf) (lit 0.5))
          (V * V)%float).
rewrite div_spec, EC.
destruct (SFdiv_finite_sign _ false mc ec N) as [Nk Sk].
split; [exact Nk|]. rewrite Sk, S, S1, S2. destruct Sa as [_ ->].
reflexivity.
Qed.

End CorrectionSigns.

(** ** Result lists read through boolean checks *)

(** Consecutive elements, read back from a boolean check. *)
Lemma adjacent_forallb {X : Type} (f : X -> X -> bool) (xs : list X) i a b :
forallb (fun p => f (fst p) (snd p)) (adjacent xs) = true ->
nth_error xs i = Some a -> nth_error xs (S i) = Some b ->
f a b = true.
Proof.
intros F Ea Eb. rewrite forallb_forall in F.
apply (F (a, b)). eapply adjacent_nth_error; eassumption.
Qed.

(** The first pass of the pressure loop, at [V = 0]. *)
Lemma relative_difference_at_rest (rho r : float) :
is_finite rho = true ->
relative_difference_at rho 0%float r -> r = 0%float.
Proof.
intros Fr (P_t & P_total & H1 & H2 & H3).
unfold static_to_total_pressure in H1.
change (pow2 0%float) with (Ok PrimFloat.zero) in H1. cbn [bind] in H1.
injection H1 as <-.
destruct (mul_zero_r (lit 0.5 * rho)%py PrimFloat.zero false
            (half_mul_finite rho Fr) eq_refl) as [s Es].
assert (E : PrimFloat.add 100000 (lit 0.5 * rho * PrimFloat.zero)%py
            = 100000%float).
{ apply Prim2SF_eq. rewrite add_spec.
  change (Prim2SF (lit 0.5 * rho * PrimFloat.zero)%py)
    with (Prim2SF ((lit 0.5 * rho)%py * PrimFloat.zero)%float).
  rewrite Es. reflexivity. }
change (div (PrimFloat.add 100000 (lit 0.5 * rho * PrimFloat.zero)%py)
          (lit 100000) = Ok P_total) in H2.
rewrite E in H2. vm_compute in H2. injection H2 as <-.
vm_compute in H3. injection H3 as <-. reflexivity.
Qed.

Lemma Qltb_lt (a b : Q) : Qltb a b = true -> (a < b)%Q.
Proof.
unfold Qltb. rewrite negb_true_iff. intros H.
apply Qnot_le_lt. intros C. apply Qle_bool_iff in C. congruence.
Qed.

(** Elements at the same index, read back from a boolean check. *)
Lemma combine_forallb {X Y : Type} (f : X -> Y -> bool)
  (xs : list X) (ys : list Y) i x y :
forallb (fun p => f (fst p) (snd p)) (combine xs ys) = true ->
nth_error xs i = Some x -> nth_error ys i = Some y ->
f x y = true.
Proof.
intros F Ex Ey. rewrite forallb_forall in F.
apply (F (x, y)). eapply nth_error_In_combine; eassumption.
Qed.

(** ** Negation in binary64 *)

Section Negation.

Lemma binary_round_aux_opp (s : bool) (m e : Z) (l : location) :
binary_round_aux prec emax (negb s) m e l
= SFopp (binary_round_aux prec emax s m e l).
Proof.
unfold binary_round_aux.
destruct (shr_fexp prec emax m e l) as [mrs' e'].
destruct (shr_fexp prec emax _ e' loc_Exact) as [mrs'' e''].
destruct (shr_m mrs''); cbn [SFopp]; try reflexivity.
destruct (e'' <=? emax - prec)%Z; reflexivity.
Qed.

Lemma SFmul_opp_r (x y : spec_float) :
SF64mul x (SFopp y) = SFopp (SF64mul x y).
Proof.
destruct x as [sx|sx| |sx mx ex], y as [sy|sy| |sy my ey];
  unfold SF64mul; cbn [SFopp SFmul]; try reflexivity;
  rewrite <- ?negb_xorb_r; try reflexivity.
apply binary_round_aux_opp.
Qed.

Lemma SFmul_opp_l (x y : spec_float) :
SF64mul (SFopp x) y = SFopp (SF64mul x y).
Proof.
destruct x as [sx|sx| |sx mx ex], y as [sy|sy| |sy my ey];
  unfold SF64mul; cbn [SFopp SFmul]; try reflexivity;
  rewrite <- ?negb_xorb_l; try reflexivity.
apply binary_round_aux_opp.
Qed.

Lemma SFdiv_opp_r (x y : spec_float) :
SF64div x (SFopp y) = SFopp (SF64div x y).
Proof.
destruct x as [sx|sx| |sx mx ex], y as [sy|sy| |sy my ey];
  unfold SF64div; cbn [SFopp SFdiv]; try reflexivity;
  rewrite <- ?negb_xorb_r; try reflexivity.
destruct (SFdiv_core_binary prec emax (Zpos mx) ex (Zpos my) ey)
  as [[mz ez] lz].
apply binary_round_aux_opp.
Qed.

Lemma SFadd_opp (x y : spec_float) :
SF64add x (SFopp y) = SF64sub x y.
Proof.
destruct x as [sx|sx| |sx mx ex], y as [sy|sy| |sy my ey];
  unfold SF64add, SF64sub; cbn [SFopp SFadd SFsub]; try reflexivity;
  destruct sx, sy; reflexivity.
Qed.

Lemma SFsub_opp (x y : spec_float) :
SF64sub x (SFopp y) = SF64add x y.
Proof.
destruct x as [sx|sx| |sx mx ex], y as [sy|sy| |sy my ey];
  unfold SF64add, SF64sub; cbn [SFopp SFadd SFsub]; try reflexivity;
  destruct sx, sy; reflexivity.
Qed.

Lemma mul_opp_r (x y : float) : (x * - y)%float = (- (x * y))%float.
Proof.
apply Prim2SF_eq. rewrite mul_spec, !opp_spec, mul_spec.
apply SFmul_opp_r.
Qed.

Lemma mul_opp_l (x y : float) : (- x * y)%float = (- (x * y))%float.
Proof.
apply Prim2SF_eq. rewrite mul_spec, !opp_spec, mul_spec.
apply SFmul_opp_l.
Qed.

Lemma div_opp_r (x y : float) : (x / - y)%float = (- (x / y))%float.
Proof.
apply Prim2SF_eq. rewrite div_spec, !opp_spec, div_spec.
apply SFdiv_opp_r.
Qed.

Lemma add_opp (x y : float) : (x + - y)%float = (x - y)%float.
Proof.
apply Prim2SF_eq. rewrite add_spec, opp_spec, sub_spec.
apply SFadd_opp.
Qed.

Lemma sub_opp (x y : float) : (x - - y)%float = (x + y)%float.
Proof.
apply Prim2SF_eq. rewrite sub_spec, opp_spec, add_spec.
apply SFsub_opp.
Qed.

Lemma eqb_opp_zero (c : float) :
((- c)%float == lit 0)%py = (c == lit 0)%py.
Proof.
change (((- c)%float == lit 0)%py) with (PrimFloat.eqb (- c) PrimFloat.zero).
change ((c == lit 0)%py) with (PrimFloat.eqb c PrimFloat.zero).
rewrite !FloatAxioms.eqb_spec, opp_spec.
change (Prim2SF PrimFloat.zero) with (S754_zero false).
destruct (Prim2SF c) as [[|]|[|]| |[|] m e]; reflexivity.
Qed.

Lemma div_opp_divisor (x c : float) :
div x (- c)%float = bind (div x c) (fun q => Ok (- q)%float).
Proof.
change (Binary64.truediv x (- c)
        = bind (Binary64.truediv x c) (fun q => Ok (- q)%float)).
unfold Binary64.truediv.
change (PrimFloat.eqb (- c) PrimFloat.zero) with ((- c)%float == lit 0)%py.
rewrite eqb_opp_zero.
change (c == lit 0)%py with (PrimFloat.eqb c PrimFloat.zero).
destruct (PrimFloat.eqb c PrimFloat.zero); cbn [bind]; [reflexivity|].
now rewrite div_opp_r.
Qed.

End Negation.

(** ** Finite results *)

Section FiniteResults.

Lemma mul_finite_inv (x y : float) :
is_finite (x * y)%float = true -> is_finite x = true /\ is_finite y = true.
Proof.
rewrite !is_finite_spec, mul_spec. unfold SF64mul.
destruct (Prim2SF x) as [sx|sx| |sx mx ex], (Prim2SF y) as [sy|sy| |sy my ey];
  cbn [SFmul]; intros F; try (split; constructor); now inversion F.
Qed.

Lemma div_finite_inv (x y : float) :
is_finite (x / y)%float = true -> is_finite x = true.
Proof.
rewrite !is_finite_spec, div_spec. unfold SF64div.
destruct (Prim2SF x) as [sx|sx| |sx mx ex], (Prim2SF y) as [sy|sy| |sy my ey];
  cbn [SFdiv]; intros F; try constructor; now inversion F.
Qed.

(** When [V ** 2] returns, it returns the rounded product. *)
Lemma square_value (V V2 : float) : pow2 V = Ok V2 -> V2 = (V * V)%float.
Proof.
change (pow2 V) with (Binary64.square V). unfold Binary64.square.
destruct (is_finite V && PrimFloat.is_infinity (V * V)); [discriminate|].
now intros [= <-].
Qed.

Lemma div_value (x y q : float) : div x y = Ok q -> q = (x / y)%float.
Proof.
change (div x y) with (Binary64.truediv x y). unfold Binary64.truediv.
destruct (PrimFloat.eqb y PrimFloat.zero); [discriminate|].
now intros [= <-].
Qed.

End FiniteResults.

(** ** The loops only append *)

Section AppendOnly.
Context {A : Type} `{PyNum A}.

Lemma temperature_loop_appends (vs : list A) :
forall s s',
  for_each vs temperature_body s = Ok s' ->
  exists a b c,
    length a = length vs /\ length b = length vs /\ length c = length vs /\
    T_static_values s' = T_static_values s ++ a /\
    T_measured_values s' = T_measured_values s ++ b /\
    T_diff_measured_static s' = T_diff_measured_static s ++ c.
Proof.
induction vs as [|V vs IH]; intros s s' E; cbn [for_each] in E.
- injection E as <-. exists [], [], []. rewrite !app_nil_r.
  repeat split; reflexivity.
- apply bind_Ok in E. destruct E as (s1 & E1 & E2).
  unfold temperature_body in E1.
  apply bind_Ok in E1. destruct E1 as (Ts & ET & E1).
  apply bind_Ok in E1. destruct E1 as (V2 & EV & E1).
  apply bind_Ok in E1. destruct E1 as (k & EK & E1).
  injection E1 as <-.
  destruct (IH _ _ E2) as (a & b & c & La & Lb & Lc & Ha & Hb & Hc).
  cbn [T_static_values T_measured_values T_diff_measured_static] in Ha, Hb, Hc.
  exists (Ts :: a), (add Ts k :: b), (sub (add Ts k) Ts :: c).
  rewrite Ha, Hb, Hc, <- !app_assoc. cbn [length app].
  repeat split; congruence.
Qed.

End AppendOnly.

(** * Rounding to nearest and the order of the results *)

(** ** Shifts and locations *)

Section Located.
Local Open Scope Q_scope.

Lemma located_bounds (x : Q) (m : Z) (l : location) :
located x m l -> inject_Z m <= x /\ x < inject_Z m + 1.
Proof.
destruct l as [|[| |]]; cbn [located]; intros H; lra.
Qed.

Lemma located_ext (x x' : Q) (m : Z) (l : location) :
x == x' -> located x m l -> located x' m l.
Proof.
intros E. destruct l as [|[| |]]; cbn [located]; rewrite E; auto.
Qed.

Lemma located_of_loc (x : Q) (m : Z) (l : location) :
located x m l ->
located x (shr_m (shr_record_of_loc m l))
  (loc_of_shr_record (shr_record_of_loc m l)).
Proof. destruct l as [|[| |]]; cbn; auto. Qed.

Lemma inject_Z_double (p : Z) : inject_Z (2 * p) == 2 * inject_Z p.
Proof. rewrite inject_Z_mult. reflexivity. Qed.

Lemma inject_Z_double1 (p : Z) : inject_Z (2 * p + 1) == 2 * inject_Z p + 1.
Proof. rewrite inject_Z_plus, inject_Z_mult. reflexivity. Qed.

(** One more bit shifted out: the mantissa is halved and the location
    is that of the half. *)
Lemma shr_1_located (x : Q) (mrs : shr_record) :
(0 <= shr_m mrs)%Z ->
located x (shr_m mrs) (loc_of_shr_record mrs) ->
located (x * (1 # 2)) (shr_m (shr_1 mrs)) (loc_of_shr_record (shr_1 mrs)).
Proof.
destruct mrs as [m r s]. cbn [shr_m]. intros Hm H.
destruct m as [|[p|p|]|p]; try lia; cbn [shr_1 shr_m].
- (* zero *)
  destruct r, s; cbn [loc_of_shr_record located orb] in *;
    change (inject_Z 0) with 0 in *; lra.
- (* 2p + 1 *)
  assert (E : inject_Z (Zpos p~1) == 2 * inject_Z (Zpos p) + 1)
    by (rewrite <- inject_Z_double1; reflexivity).
  destruct r, s; cbn [loc_of_shr_record located orb] in *;
    rewrite E in H; lra.
- (* 2p *)
  assert (E : inject_Z (Zpos p~0) == 2 * inject_Z (Zpos p))
    by (rewrite <- inject_Z_double; reflexivity).
  destruct r, s; cbn [loc_of_shr_record located orb] in *;
    rewrite E in H; lra.
- (* one *)
  destruct r, s; cbn [loc_of_shr_record located orb] in *;
    change (inject_Z 1) with 1 in *; change (inject_Z 0) with 0; lra.
Qed.

Lemma iter_pos_shr_located (p : positive) :
forall (x : Q) (mrs : shr_record),
  (0 <= shr_m mrs)%Z ->
  located x (shr_m mrs) (loc_of_shr_record mrs) ->
  located (x / 2 ^ Zpos p) (shr_m (iter_pos shr_1 p mrs))
    (loc_of_shr_record (iter_pos shr_1 p mrs)).
Proof.
assert (S1 : forall x mrs, (0 <= shr_m mrs)%Z ->
           located x (shr_m mrs) (loc_of_shr_record mrs) ->
           (0 <= shr_m (shr_1 mrs))%Z /\
           located (x / 2) (shr_m (shr_1 mrs)) (loc_of_shr_record (shr_1 mrs))).
{ intros x mrs Hm H. split; [now apply shr_1_nonneg|].
  apply located_ext with (x := x * (1 # 2)); [field|].
  now apply shr_1_located. }
induction p as [p IH|p IH|]; intros x mrs Hm H; cbn [iter_pos].
- destruct (S1 x mrs Hm H) as [Hm1 H1].
  pose proof (IH _ _ Hm1 H1) as H2.
  pose proof (IH _ _ (iter_pos_shr_nonneg p _ Hm1) H2) as H3.
  eapply located_ext; [|exact H3].
  rewrite (Pos2Z.inj_xI p).
  replace (2 * Zpos p + 1)%Z with (1 + Zpos p + Zpos p)%Z by lia.
  rewrite !pow2_add. change (2 ^ 1) with 2.
  field. pose proof (pow2_pos (Zpos p)). lra.
- pose proof (IH _ _ Hm H) as H2.
  pose proof (IH _ _ (iter_pos_shr_nonneg p _ Hm) H2) as H3.
  eapply located_ext; [|exact H3].
  rewrite (Pos2Z.inj_xO p).
  replace (2 * Zpos p)%Z with (Zpos p + Zpos p)%Z by lia.
  rewrite !pow2_add.
  field. pose proof (pow2_pos (Zpos p)). lra.
- destruct (S1 x mrs Hm H) as [_ H1]. exact H1.
Qed.

(** Rounding to nearest even is off by at most one half. *)
Lemma round_nearest_even_located (x : Q) (m : Z) (l : location) :
located x m l ->
let M := round_nearest_even m l in
(m <= M <= m + 1)%Z /\ Qabs (inject_Z M - x) <= 1 # 2.
Proof.
intros H. cbv zeta.
assert (E1 : inject_Z (m + 1) == inject_Z m + 1)
  by (rewrite inject_Z_plus; reflexivity).
destruct l as [|[| |]]; cbn [located round_nearest_even] in *.
- split; [lia|]. apply Qabs_Qle_condition. lra.
- destruct (Z.even m); (split; [lia|]); apply Qabs_Qle_condition;
    rewrite ?E1; lra.
- split; [lia|]. apply Qabs_Qle_condition. lra.
- split; [lia|]. apply Qabs_Qle_condition. rewrite E1. lra.
Qed.

End Located.

(** ** The rounding of any mantissa *)

Section RoundingAnyLocation.
Local Open Scope Z_scope.

(** The mantissa left by a shift does not depend on the round and sticky
    bits it started from. *)
Lemma shr_1_m (mrs mrs' : shr_record) :
shr_m mrs = shr_m mrs' -> shr_m (shr_1 mrs) = shr_m (shr_1 mrs').
Proof.
destruct mrs as [m r s], mrs' as [m' r' s']. cbn [shr_m]. intros <-.
destruct m as [|[p|p|]|[p|p|]]; reflexivity.
Qed.

Lemma iter_pos_shr_m (p : positive) :
forall mrs mrs',
  shr_m mrs = shr_m mrs' ->
  shr_m (iter_pos shr_1 p mrs) = shr_m (iter_pos shr_1 p mrs').
Proof.
induction p as [p IH|p IH|]; intros mrs mrs' E; cbn [iter_pos].
- apply IH, IH. now apply shr_1_m.
- now apply IH, IH.
- now apply shr_1_m.
Qed.

(** The mantissa left by a shift of [p] bits is the quotient by [2^p]. *)
Lemma iter_pos_shr_floor (p : positive) (m : Z) (mrs : shr_record) :
0 <= m -> shr_m mrs = m ->
let m1 := shr_m (iter_pos shr_1 p mrs) in
0 <= m1 /\ m1 * 2 ^ Zpos p <= m < (m1 + 1) * 2 ^ Zpos p.
Proof.
intros Hm E. cbv zeta.
rewrite (iter_pos_shr_m p mrs {| shr_m := m; shr_r := false; shr_s := false |})
  by exact E.
pose proof (iter_pos_shr_inv p m 0
              {| shr_m := m; shr_r := false; shr_s := false |}
              (Z.le_refl 0) (shr_inv_start m Hm)) as I.
rewrite Z.add_0_l in I.
destruct I as (t & Ht & E2 & _ & Hm1).
set (m1 := shr_m (iter_pos shr_1 p _)) in *.
assert (P : 0 < 2 ^ Zpos p) by (apply Z.pow_pos_nonneg; lia).
assert (Hb : 0 <= b2z (shr_r (iter_pos shr_1 p
                {| shr_m := m; shr_r := false; shr_s := false |})) <= 1).
{ destruct (shr_r _); cbn [b2z]; lia. }
split; [exact Hm1|]. nia.
Qed.

Lemma Zdigits2_bounds (m : Z) :
0 <= m -> 0 <= Zdigits2 m /\ m < 2 ^ Zdigits2 m /\
(0 < m -> 2 ^ (Zdigits2 m - 1) <= m).
Proof.
intros H. destruct m as [|p|p]; [| |lia]; cbn [Zdigits2].
- split; [lia|]. split; [reflexivity|lia].
- destruct (digits2_pos_bounds p). split; [lia|]. split; [lia|]. auto.
Qed.

Lemma bounded_canonical (q : positive) (g : Z) :
Zpos (digits2_pos q) <= 53 ->
(-1074 < g -> Zpos (digits2_pos q) = 53) ->
-1074 <= g <= 971 ->
bounded prec emax q g = true.
Proof.
intros D N G. unfold bounded, canonical_mantissa.
rewrite fexp_fexp64. unfold fexp64.
apply andb_true_iff. split; [apply Z.eqb_eq|apply Z.leb_le].
- destruct (Z.eq_dec g (-1074)) as [->|C]; [lia|].
  rewrite N by lia. lia.
- change (emax - prec) with 971. lia.
Qed.

(** The rounding of a located mantissa, in any range: the result is
    [M * 2^g] for the exponent [g] of the last bit kept and the integer
    [M] nearest to the scaled number. *)
Lemma binary_round_aux_any (s : bool) (m e : Z) (l : location) :
0 <= m ->
e <= fexp64 (Zdigits2 m + e) ->
exists n m1 l1 M,
  n = fexp64 (Zdigits2 m + e) - e /\
  (n = 0 -> m1 = m /\ l1 = l) /\
  (0 < n -> m1 * 2 ^ n <= m < (m1 + 1) * 2 ^ n) /\
  (forall x, located x m l -> located (x / 2 ^ n)%Q m1 l1) /\
  M = round_nearest_even m1 l1 /\
  0 <= m1 /\ m1 < 2 ^ 53 /\
  (-1074 < e + n -> 2 ^ 52 <= m1) /\
  match M with
  | 0 => binary_round_aux prec emax s m e l = S754_zero s
  | Zpos q =>
      if Z.eq_dec M (2 ^ 53) then
        binary_round_aux prec emax s m e l
        = (if e + n + 1 <=? 971
           then S754_finite s 4503599627370496 (e + n + 1)
           else S754_infinity s)
      else
        binary_round_aux prec emax s m e l
        = (if e + n <=? 971 then S754_finite s q (e + n)
           else S754_infinity s) /\
        (e + n <= 971 -> bounded prec emax q (e + n) = true)
  | Zneg _ => False
  end.
Proof.
intros Hm Hal.
destruct (Zdigits2_bounds m Hm) as (Hd0 & U & L).
set (d := Zdigits2 m) in *.
unfold binary_round_aux, shr_fexp. fold d.
change (fexp prec emax (d + e)) with (fexp64 (d + e)).
set (g := fexp64 (d + e)) in *.
assert (Hg : -1074 <= g /\ d + e - 53 <= g /\ (-1074 < g -> g = d + e - 53))
  by (unfold g, fexp64; lia).
(* the first shift *)
assert (S1 : exists m1 l1,
          (g - e = 0 -> m1 = m /\ l1 = l) /\
          (0 < g - e -> m1 * 2 ^ (g - e) <= m < (m1 + 1) * 2 ^ (g - e)) /\
          (forall x, located x m l -> located (x / 2 ^ (g - e))%Q m1 l1) /\
          0 <= m1 /\
          shr (shr_record_of_loc m l) e (g - e)
          = (fst (shr (shr_record_of_loc m l) e (g - e)), g) /\
          shr_m (fst (shr (shr_record_of_loc m l) e (g - e))) = m1 /\
          loc_of_shr_record (fst (shr (shr_record_of_loc m l) e (g - e))) = l1).
{ destruct (g - e) as [|p|p] eqn:En; [| |lia].
  - exists m, l. cbn [shr fst].
    assert (Em : shr_m (shr_record_of_loc m l) = m)
      by (destruct l as [|[| |]]; reflexivity).
    assert (El : loc_of_shr_record (shr_record_of_loc m l) = l)
      by (destruct l as [|[| |]]; reflexivity).
    repeat split; try lia; try assumption.
    + intros x Hx. eapply located_ext; [|exact Hx].
      change (2 ^ 0)%Q with 1%Q. field.
    + f_equal. lia.
  - assert (Em : shr_m (shr_record_of_loc m l) = m)
      by (destruct l as [|[| |]]; reflexivity).
    pose proof (iter_pos_shr_floor p m _ Hm Em) as F. cbv zeta in F.
    destruct F as [F0 F].
    eexists. eexists. cbn [shr fst].
    split; [lia|]. split; [intros _; exact F|].
    split; [|split; [exact F0|split; [f_equal; lia|split; reflexivity]]].
    intros x Hx. apply iter_pos_shr_located.
    + rewrite Em. exact Hm.
    + now apply located_of_loc. }
destruct S1 as (m1 & l1 & H0 & HF & HL & Hm1 & -> & Em1 & El1).
set (mrs := fst (shr (shr_record_of_loc m l) e (g - e))) in *.
cbn [fst] in Em1, El1. cbv beta iota. rewrite Em1, El1.
assert (Hn : 0 <= g - e) by lia.
assert (Hm1u : m1 < 2 ^ 53).
{ destruct (Z.eq_dec (g - e) 0) as [Z0|Z0].
  - destruct (H0 Z0) as [-> _].
    assert (d <= 53) by lia.
    assert (2 ^ d <= 2 ^ 53) by (apply Z.pow_le_mono_r; lia). lia.
  - destruct (HF ltac:(lia)) as [F1 _].
    assert (P : 0 < 2 ^ (g - e)) by (apply Z.pow_pos_nonneg; lia).
    destruct (Z_le_gt_dec (g - e) d) as [C|C].
    + assert (D : 2 ^ d = 2 ^ (d - (g - e)) * 2 ^ (g - e)).
      { rewrite <- Z.pow_add_r by lia. f_equal. lia. }
      assert (2 ^ (d - (g - e)) <= 2 ^ 53) by (apply Z.pow_le_mono_r; lia).
      nia.
    + assert (2 ^ d <= 2 ^ (g - e)) by (apply Z.pow_le_mono_r; lia).
      assert (m1 <= 0) by nia.
      change (2 ^ 53) with 9007199254740992. lia. }
assert (Hm1l : -1074 < g -> 2 ^ 52 <= m1).
{ intros G. destruct Hg as (_ & _ & Hg). specialize (Hg G).
  assert (Hm0 : 0 < m).
  { destruct (Z.eq_dec m 0) as [->|]; [|lia]. unfold d in Hg. cbn in Hg. lia. }
  specialize (L Hm0).
  destruct (Z.eq_dec (g - e) 0) as [Z0|Z0].
  - destruct (H0 Z0) as [-> _].
    replace (d - 1) with 52 in L by lia. exact L.
  - destruct (HF ltac:(lia)) as [_ F2].
    assert (P : 0 < 2 ^ (g - e)) by (apply Z.pow_pos_nonneg; lia).
    assert (D : 2 ^ (d - 1) = 2 ^ 52 * 2 ^ (g - e)).
    { rewrite <- Z.pow_add_r by lia. f_equal. lia. }
    nia. }
exists (g - e), m1, l1, (round_nearest_even m1 l1).
replace (e + (g - e)) with g by lia.
split; [reflexivity|]. split; [exact H0|]. split; [exact HF|].
split; [exact HL|]. split; [reflexivity|]. split; [exact Hm1|].
split; [exact Hm1u|]. split; [exact Hm1l|].
assert (RM : m1 <= round_nearest_even m1 l1 <= m1 + 1).
{ destruct l1 as [|[| |]]; cbn [round_nearest_even];
    try destruct (Z.even m1); lia. }
set (M := round_nearest_even m1 l1) in *.
destruct M as [|q|q] eqn:EM; [| |lia].
- (* rounded to zero *)
  cbn [Zdigits2 shr_record_of_loc]. rewrite fexp_fexp64.
  destruct (fexp64 (0 + g) - g) as [|p2|p2]; cbn [shr shr_m];
    try reflexivity.
  rewrite iter_pos_shr_zero by reflexivity. reflexivity.
- cbn [Zdigits2 shr_record_of_loc]. rewrite fexp_fexp64.
  change (emax - prec) with 971.
  destruct (Z.eq_dec (Zpos q) (2 ^ 53)) as [C|C].
  + (* the rounding carried into a 54th bit *)
    assert (q = 9007199254740992%positive)
      by (change (2 ^ 53) with 9007199254740992 in C; lia).
    subst q.
    replace (fexp64 (Zpos (digits2_pos 9007199254740992) + g) - g) with 1
      by (cbn [digits2_pos Pos.succ]; unfold fexp64; lia).
    cbn [shr iter_pos shr_1 shr_m]. reflexivity.
  + assert (Dq : Zpos (digits2_pos q) <= 53).
    { destruct (digits2_pos_bounds q) as [Lq _].
      destruct (Z_le_gt_dec (Zpos (digits2_pos q)) 53) as [D|D]; [exact D|].
      assert (2 ^ 53 <= 2 ^ (Zpos (digits2_pos q) - 1))
        by (apply Z.pow_le_mono_r; lia).
      lia. }
    assert (Dl : -1074 < g -> Zpos (digits2_pos q) = 53).
    { intros G. apply digits2_pos_unique; [|lia].
      change (53 - 1) with 52. specialize (Hm1l G). lia. }
    replace (fexp64 (Zpos (digits2_pos q) + g) - g) with 0.
    2:{ unfold fexp64. destruct (Z.eq_dec g (-1074)) as [->|G]; [lia|].
        rewrite Dl by lia. lia. }
    cbn [shr shr_m]. split; [reflexivity|].
    intros G. apply bounded_canonical; try assumption. lia.
Qed.

End RoundingAnyLocation.

(** ** Nearest numbers *)

Section Nearest.
Local Open Scope Q_scope.

Lemma QV_0 (e : Z) : QV 0 e == 0.
Proof. unfold QV. change (inject_Z 0) with 0. ring. Qed.

Lemma QV_nonneg (a e : Z) : (0 <= a)%Z -> 0 <= QV a e.
Proof. intros H. rewrite <- (QV_0 e). now apply QV_le. Qed.

Lemma QV_le_exp (a e1 e2 : Z) :
(0 <= a)%Z -> (e1 <= e2)%Z -> QV a e1 <= QV a e2.
Proof.
intros Ha He. rewrite (QV_align a e2 e1) by assumption. apply QV_le.
assert (1 <= 2 ^ (e2 - e1))%Z
  by (change 1%Z with (2 ^ 0)%Z; apply Z.pow_le_mono_r; lia).
nia.
Qed.

(** Among the integers none is nearer to [z] than one within one half
    of it. *)
Lemma nearest_integer (M K : Z) (z : Q) :
Qabs (inject_Z M - z) <= 1 # 2 ->
Qabs (inject_Z M - z) <= Qabs (inject_Z K - z).
Proof.
intros H. pose proof H as H'. apply Qabs_Qle_condition in H'.
destruct (Z.lt_trichotomy K M) as [C|[->|C]].
- assert (inject_Z K <= inject_Z M - 1).
  { setoid_replace (inject_Z M - 1) with (inject_Z (M - 1)).
    - rewrite <- Zle_Qle. lia.
    - unfold Zminus. rewrite inject_Z_plus. reflexivity. }
  rewrite (Qabs_Qminus (inject_Z K) z).
  eapply Qle_trans; [exact H|].
  eapply Qle_trans; [|apply Qle_Qabs]. lra.
- apply Qle_refl.
- assert (inject_Z M + 1 <= inject_Z K).
  { setoid_replace (inject_Z M + 1) with (inject_Z (M + 1)).
    - rewrite <- Zle_Qle. lia.
    - rewrite inject_Z_plus. reflexivity. }
  eapply Qle_trans; [exact H|].
  eapply Qle_trans; [|apply Qle_Qabs]. lra.
Qed.

Lemma QV_distance (K g : Z) (z : Q) :
Qabs (QV K g - z * 2 ^ g) == Qabs (inject_Z K - z) * 2 ^ g.
Proof.
unfold QV.
setoid_replace (inject_Z K * 2 ^ g - z * 2 ^ g)
  with ((inject_Z K - z) * 2 ^ g) by ring.
rewrite Qabs_Qmult. pose proof (pow2_pos g).
rewrite (Qabs_pos (2 ^ g)) by lra. reflexivity.
Qed.

(** The rounded mantissa [M] on the grid of [2^g] is nearer to the
    number than zero and than any number of the format. *)
Lemma rounding_core (m1 M g : Z) (z : Q) :
inject_Z m1 <= z ->
Qabs (inject_Z M - z) <= 1 # 2 ->
(0 <= m1)%Z -> (-1074 < g -> 2 ^ 52 <= m1)%Z -> (-1074 <= g)%Z ->
Qabs (QV M g - z * 2 ^ g) <= z * 2 ^ g /\
forall mT eT, bounded prec emax mT eT = true ->
  Qabs (QV M g - z * 2 ^ g) <= Qabs (QV (Zpos mT) eT - z * 2 ^ g).
Proof.
intros Hz HM Hm1 HN Hg.
pose proof (pow2_pos g) as P.
assert (Z0 : 0 <= z).
{ eapply Qle_trans; [|exact Hz]. change 0 with (inject_Z 0).
  now rewrite <- Zle_Qle. }
assert (G : forall K, Qabs (QV M g - z * 2 ^ g) <= Qabs (QV K g - z * 2 ^ g)).
{ intros K. rewrite !QV_distance. apply Qmult_le_compat_r; [|lra].
  now apply nearest_integer. }
split.
- eapply Qle_trans; [apply (G 0%Z)|].
  rewrite QV_0. apply Qabs_Qle_condition.
  assert (0 <= z * 2 ^ g) by (apply Qmult_le_0_compat; lra). lra.
- intros mT eT B.
  destruct (Z_le_gt_dec g eT) as [C|C].
  + rewrite (QV_align (Zpos mT) eT g) by assumption. apply G.
  + assert (G1 : (-1074 < g)%Z)
      by (apply bounded_digits in B; lia).
    specialize (HN G1).
    assert (T1 : QV (Zpos mT) eT <= QV (2 ^ 52) g).
    { apply bounded_digits in B. destruct B as (U & _ & _).
      apply (QV_le_align _ eT _ g eT); [lia|lia|].
      rewrite Z.sub_diag, Z.pow_0_r, Z.mul_1_r.
      assert (2 ^ 1 <= 2 ^ (g - eT))%Z by (apply Z.pow_le_mono_r; lia).
      change (2 ^ 1)%Z with 2%Z in *.
      change (2 ^ 53)%Z with 9007199254740992%Z in *.
      change (2 ^ 52)%Z with 4503599627370496%Z in *. nia. }
    assert (T2 : QV (2 ^ 52) g <= z * 2 ^ g).
    { unfold QV. apply Qmult_le_compat_r; [|lra].
      eapply Qle_trans; [|exact Hz]. now rewrite <- Zle_Qle. }
    eapply Qle_trans; [apply (G (2 ^ 52)%Z)|].
    rewrite (Qabs_Qminus (QV (2 ^ 52) g)), (Qabs_Qminus (QV (Zpos mT) eT)).
    rewrite !Qabs_pos by lra. lra.
Qed.

End Nearest.

Section RoundsTo.
Local Open Scope Q_scope.

Lemma pow2_pred (g : Z) : 2 ^ (g - 1) == 2 ^ g * (1 # 2).
Proof.
replace (g - 1)%Z with (g + -1)%Z by lia. rewrite pow2_add. reflexivity.
Qed.

Lemma half_grid_above (K g : Z) (z : Q) :
z <= inject_Z K + (1 # 2) -> z * 2 ^ g <= QV (2 * K + 1) (g - 1).
Proof.
intros H. unfold QV. rewrite inject_Z_double1, pow2_pred.
pose proof (pow2_pos g).
setoid_replace ((2 * inject_Z K + 1) * (2 ^ g * (1 # 2)))
  with ((inject_Z K + (1 # 2)) * 2 ^ g) by ring.
apply Qmult_le_compat_r; lra.
Qed.

Lemma half_grid_below (K g : Z) (z : Q) :
inject_Z K - (1 # 2) <= z -> QV (2 * K - 1) (g - 1) <= z * 2 ^ g.
Proof.
intros H. unfold QV.
replace (2 * K - 1)%Z with (2 * (K - 1) + 1)%Z by lia.
rewrite inject_Z_double1, pow2_pred.
unfold Zminus. rewrite inject_Z_plus. change (inject_Z (-1)) with (-1 # 1).
pose proof (pow2_pos g).
setoid_replace ((2 * (inject_Z K + (-1 # 1)) + 1) * (2 ^ g * (1 # 2)))
  with ((inject_Z K - (1 # 2)) * 2 ^ g) by ring.
apply Qmult_le_compat_r; lra.
Qed.

(** From magnitudes to signed numbers. *)
Lemma signed_nearest (s : bool) (R y : Q) (r : spec_float) :
SF2Q r == (if s then - R else R) ->
0 <= y ->
Qabs (R - y) <= y ->
(forall mT eT, bounded prec emax mT eT = true ->
   Qabs (R - y) <= Qabs (QV (Zpos mT) eT - y)) ->
nearest (if s then - y else y) r.
Proof.
intros Hr Hy H0 HT t Ft Vt. rewrite Hr.
assert (E1 : Qabs (- R - - y) == Qabs (R - y)).
{ setoid_replace (- R - - y) with (- (R - y)) by ring. apply Qabs_opp. }
destruct Ft as [st|st mT eT]; cbn [SF2Q].
- destruct s.
  + rewrite E1. setoid_replace (0 - - y) with y by ring.
    now rewrite (Qabs_pos y).
  + setoid_replace (0 - y) with (- y) by ring.
    now rewrite Qabs_opp, (Qabs_pos y).
- cbn [valid_binary] in Vt. specialize (HT mT eT Vt).
  pose proof (QV_pos mT eT) as PT.
  destruct s, st; cbn [cond_Zopp].
  + rewrite E1.
    change (Zneg mT) with (- Zpos mT)%Z. rewrite <- QV_opp.
    setoid_replace (- QV (Zpos mT) eT - - y) with (- (QV (Zpos mT) eT - y))
      by ring.
    now rewrite Qabs_opp.
  + rewrite E1. setoid_replace (QV (Zpos mT) eT - - y)
      with (QV (Zpos mT) eT + y) by ring.
    rewrite (Qabs_pos (QV (Zpos mT) eT + y)) by lra. lra.
  + change (Zneg mT) with (- Zpos mT)%Z. rewrite <- QV_opp.
    setoid_replace (- QV (Zpos mT) eT - y) with (- (QV (Zpos mT) eT + y))
      by ring.
    rewrite Qabs_opp, (Qabs_pos (QV (Zpos mT) eT + y)) by lra. lra.
  + exact HT.
Qed.

Lemma Qabs_signed (s : bool) (y : Q) :
0 <= y -> Qabs (if s then - y else y) == y.
Proof.
intros H. destruct s; [rewrite Qabs_opp|]; now apply Qabs_pos.
Qed.

(** The rounding of a located mantissa is a rounding to nearest of the
    number it stands for. *)
Lemma binary_round_aux_rounds (s : bool) (m e : Z) (l : location) (x : Q) :
(0 <= m)%Z -> (e <= fexp64 (Zdigits2 m + e))%Z ->
located x m l ->
rounds_to (if s then - (x * 2 ^ e) else x * 2 ^ e)
  (binary_round_aux prec emax s m e l).
Proof.
intros Hm Hal Hx.
destruct (binary_round_aux_any s m e l Hm Hal)
  as (n & m1 & l1 & M & En & H0 & HF & HL & EM & Hm1 & Hm1u & Hm1l & HR).
assert (Hn : (0 <= n)%Z) by lia.
set (g := (e + n)%Z) in *.
assert (Hg : (-1074 <= g)%Z) by (unfold g, fexp64 in *; lia).
set (z := x / 2 ^ n).
pose proof (HL x Hx) as Lz. fold z in Lz.
destruct (located_bounds _ _ _ Lz) as [Z1 Z2].
destruct (round_nearest_even_located _ _ _ Lz) as [RM RE].
cbv zeta in RM, RE. rewrite <- EM in RM, RE.
pose proof (pow2_pos g) as Pg. pose proof (pow2_pos n) as Pn.
assert (Ey : x * 2 ^ e == z * 2 ^ g).
{ unfold z, g. rewrite pow2_add. field. lra. }
assert (Z0 : 0 <= z).
{ eapply Qle_trans; [|exact Z1]. change 0 with (inject_Z 0).
  now rewrite <- Zle_Qle. }
assert (Y0 : 0 <= z * 2 ^ g) by (apply Qmult_le_0_compat; lra).
destruct (rounding_core m1 M g z Z1 RE Hm1 Hm1l Hg) as [C0 CT].
pose proof RE as RE'. apply Qabs_Qle_condition in RE'.
assert (Ev : (if s then - (x * 2 ^ e) else x * 2 ^ e)
             == (if s then - (z * 2 ^ g) else z * 2 ^ g))
  by (destruct s; rewrite Ey; reflexivity).
assert (Hinf : (971 < g \/ (g = 971 /\ M = 2 ^ 53))%Z ->
               Omega <= z * 2 ^ g).
{ intros [G|[G ->]].
  - apply Qle_trans with (QV (2 ^ 52) g).
    + unfold Omega. apply (QV_le_align _ 970 _ g 970); [lia|lia|].
      rewrite Z.sub_diag, Z.pow_0_r, Z.mul_1_r.
      assert (2 ^ 2 <= 2 ^ (g - 970))%Z by (apply Z.pow_le_mono_r; lia).
      change (2 ^ 2)%Z with 4%Z in *.
      change (2 ^ 54)%Z with 18014398509481984%Z.
      change (2 ^ 52)%Z with 4503599627370496%Z. nia.
    + unfold QV. apply Qmult_le_compat_r; [|lra].
      eapply Qle_trans; [|exact Z1]. rewrite <- Zle_Qle. apply Hm1l. lia.
  - unfold Omega.
    replace 970%Z with (g - 1)%Z by lia.
    change (2 ^ 54 - 1)%Z with (2 * 2 ^ 53 - 1)%Z.
    apply half_grid_below. lra. }
assert (Hinf' : forall r, r = S754_infinity s ->
                (971 < g \/ (g = 971 /\ M = 2 ^ 53))%Z ->
                rounds_to (if s then - (x * 2 ^ e) else x * 2 ^ e) r).
{ intros r -> G. specialize (Hinf G). cbn [rounds_to].
  destruct s; rewrite Ey; lra. }
assert (Hfin : forall r,
          SF_finite r -> valid_binary r = true ->
          SF2Q r == (if s then - QV M g else QV M g) ->
          z * 2 ^ g <= Omega ->
          rounds_to (if s then - (x * 2 ^ e) else x * 2 ^ e) r).
{ intros r Fr Vr Er Ho.
  assert (N : nearest (if s then - (z * 2 ^ g) else z * 2 ^ g) r)
    by (apply (signed_nearest s (QV M g)); assumption).
  assert (A : Qabs (if s then - (x * 2 ^ e) else x * 2 ^ e) <= Omega).
  { rewrite Ev, Qabs_signed by assumption. exact Ho. }
  assert (N' : nearest (if s then - (x * 2 ^ e) else x * 2 ^ e) r).
  { intros t Ft Vt. rewrite Ev. now apply N. }
  destruct Fr; cbn [rounds_to]; auto. }
destruct M as [|q|q] eqn:EMq; [| |lia].
- (* rounded to zero *)
  rewrite HR. apply Hfin; [constructor|reflexivity| |].
  + cbn [SF2Q]. destruct s; rewrite QV_0; reflexivity.
  + assert (m1 = 0%Z) by lia. subst m1.
    assert (g = (-1074)%Z).
    { destruct (Z.eq_dec g (-1074)) as [G|G]; [exact G|].
      assert (2 ^ 52 <= 0)%Z by (apply Hm1l; lia).
      change (2 ^ 52)%Z with 4503599627370496%Z in *. lia. }
    apply Qle_trans with (QV (2 * 0 + 1) (g - 1)).
    * apply half_grid_above. change (inject_Z 0) with 0 in *. lra.
    * unfold Omega. apply Qle_trans with (QV (2 * 0 + 1) 970).
      -- apply QV_le_exp; lia.
      -- apply QV_le. change (2 ^ 54)%Z with 18014398509481984%Z. lia.
- destruct (Z.eq_dec (Zpos q) (2 ^ 53)) as [C|C].
  + (* carry *)
    rewrite HR. destruct (g + 1 <=? 971)%Z eqn:Ee.
    * apply Z.leb_le in Ee.
      apply Hfin; [constructor| | |].
      -- cbn [valid_binary]. apply bounded_intro;
           [change (2 ^ 52)%Z with 4503599627370496%Z;
            change (2 ^ 53)%Z with 9007199254740992%Z; lia|lia].
      -- cbn [SF2Q]. rewrite C.
         assert (E2 : QV 4503599627370496 (g + 1) == QV (2 ^ 53) g).
         { rewrite <- (QV_scale 4503599627370496 1 g) by lia. reflexivity. }
         destruct s; cbn [cond_Zopp].
         ++ change (Zneg 4503599627370496) with (- 4503599627370496)%Z.
            rewrite <- QV_opp, E2. reflexivity.
         ++ exact E2.
      -- apply Qle_trans with (QV (2 * Zpos q + 1) (g - 1)).
         ++ apply half_grid_above. lra.
         ++ rewrite C. unfold Omega.
            apply Qle_trans with (QV (2 * 2 ^ 53 + 1) 969).
            ** apply QV_le_exp; [|lia].
               change (2 ^ 53)%Z with 9007199254740992%Z. lia.
            ** apply (QV_le_align _ 969 _ 970 969); [lia|lia|].
               rewrite Z.sub_diag, Z.pow_0_r, Z.mul_1_r.
               change (2 ^ (970 - 969))%Z with 2%Z.
               change (2 ^ 54)%Z with 18014398509481984%Z.
               change (2 ^ 53)%Z with 9007199254740992%Z. lia.
    * apply Z.leb_gt in Ee. apply Hinf'; [reflexivity|].
      destruct (Z.eq_dec g 971); [right; split; assumption|left; lia].
  + destruct HR as [HR HB]. rewrite HR.
    destruct (g <=? 971)%Z eqn:Ee.
    * apply Z.leb_le in Ee.
      apply Hfin; [constructor|exact (HB Ee)| |].
      -- cbn [SF2Q]. destruct s; cbn [cond_Zopp]; [|reflexivity].
         change (Zneg q) with (- Zpos q)%Z. now rewrite <- QV_opp.
      -- apply Qle_trans with (QV (2 * Zpos q + 1) (g - 1)).
         ++ apply half_grid_above. lra.
         ++ unfold Omega.
            apply Qle_trans with (QV (2 ^ 54 - 1) (g - 1)).
            ** apply QV_le.
               change (2 ^ 54)%Z with 18014398509481984%Z.
               change (2 ^ 53)%Z with 9007199254740992%Z in *. lia.
            ** apply QV_le_exp; [|lia].
               change (2 ^ 54)%Z with 18014398509481984%Z. lia.
    * apply Z.leb_gt in Ee. apply Hinf'; [reflexivity|left; lia].
Qed.

End RoundsTo.

(** ** The four operations round to nearest *)

Section Operations.
Local Open Scope Q_scope.

Lemma Omega_pos : 0 < Omega.
Proof.
unfold Omega, QV. apply Qmult_lt_0_compat; [reflexivity|apply pow2_pos].
Qed.

Lemma rounds_to_ext (Y Y' : Q) (r : spec_float) :
Y == Y' -> rounds_to Y r -> rounds_to Y' r.
Proof.
intros E. destruct r as [s|s| |s m e]; cbn [rounds_to]; try tauto.
- intros (V & A & N). split; [exact V|].
  split; [rewrite <- E; exact A|].
  intros t Ft Vt. rewrite <- E. now apply N.
- destruct s; now rewrite E.
- intros (V & A & N). split; [exact V|].
  split; [rewrite <- E; exact A|].
  intros t Ft Vt. rewrite <- E. now apply N.
Qed.

Lemma rounds_to_zero (Y : Q) (s : bool) : Y == 0 -> rounds_to Y (S754_zero s).
Proof.
intros E. apply rounds_to_ext with (Y := 0); [now symmetry|].
cbn [rounds_to]. split; [reflexivity|]. pose proof Omega_pos.
split; [rewrite Qabs_pos; lra|].
intros t _ _. cbn [SF2Q]. setoid_replace (0 - 0) with 0 by ring.
apply Qabs_nonneg.
Qed.

(** A finite number is its own rounding. *)
Lemma located_exact (m : Z) : located (inject_Z m) m loc_Exact.
Proof. cbn [located]. reflexivity. Qed.

Lemma SF2Q_signed (s : bool) (m : positive) (e : Z) :
SF2Q (S754_finite s m e)
== (if s then - QV (Zpos m) e else QV (Zpos m) e).
Proof.
cbn [SF2Q]. destruct s; cbn [cond_Zopp]; [|reflexivity].
change (Zneg m) with (- Zpos m)%Z. now rewrite <- QV_opp.
Qed.

(** The product of two finite numbers is rounded to nearest. *)
Lemma SFmul_rounds (x y : spec_float) :
SF_finite x -> SF_finite y ->
valid_binary x = true -> valid_binary y = true ->
rounds_to (SF2Q x * SF2Q y) (SF64mul x y).
Proof.
intros [sx|sx mx ex] [sy|sy my ey] Vx Vy; unfold SF64mul; cbn [SFmul];
  try (apply rounds_to_zero; cbn [SF2Q]; ring).
cbn [valid_binary] in Vx, Vy.
eapply rounds_to_ext;
  [|apply (binary_round_aux_rounds (xorb sx sy) (Zpos (mx * my)) (ex + ey)
             loc_Exact (inject_Z (Zpos (mx * my))));
    [lia| |apply located_exact]].
- rewrite !SF2Q_signed. unfold QV.
  destruct sx, sy; cbn [xorb];
    rewrite Pos2Z.inj_mul, inject_Z_mult, pow2_add; ring.
- cbn [Zdigits2].
  destruct (canonical_exponent _ _ Vx) as [Cx _],
    (canonical_exponent _ _ Vy) as [Cy _].
  pose proof (digits2_pos_mul mx my) as [D _].
  pose proof (Pos2Z.is_pos (digits2_pos mx)).
  pose proof (Pos2Z.is_pos (digits2_pos my)).
  unfold fexp64 in *. lia.
Qed.

(** The location of a remainder. *)
Lemma new_location_located (my q r : Z) :
(0 < my)%Z -> (0 <= r < my)%Z ->
located (inject_Z q + inject_Z r / inject_Z my) q (new_location my r).
Proof.
intros Hmy Hr.
assert (Y : 0 < inject_Z my) by (change 0 with (inject_Z 0); now rewrite <- Zlt_Qlt).
set (f := inject_Z r / inject_Z my).
assert (F0 : r = 0%Z -> f == 0).
{ intros ->. unfold f. change (inject_Z 0) with 0. field. lra. }
assert (F1 : (0 < r)%Z -> 0 < f).
{ intros H. unfold f. apply Qlt_shift_div_l; [exact Y|].
  rewrite Qmult_0_l. change 0 with (inject_Z 0). now rewrite <- Zlt_Qlt. }
assert (F2 : f < 1).
{ unfold f. apply Qlt_shift_div_r; [exact Y|]. rewrite Qmult_1_l.
  rewrite <- Zlt_Qlt. lia. }
assert (FL : (2 * r < my)%Z -> f < 1 # 2).
{ intros H. unfold f. apply Qlt_shift_div_r; [exact Y|].
  assert (inject_Z (2 * r) < inject_Z my) by now rewrite <- Zlt_Qlt.
  rewrite inject_Z_double in H0. lra. }
assert (FE : (2 * r = my)%Z -> f == 1 # 2).
{ intros H. unfold f. rewrite <- H, inject_Z_double. field.
  assert (0 < inject_Z r).
  { change 0 with (inject_Z 0). rewrite <- Zlt_Qlt. lia. }
  lra. }
assert (FG : (my < 2 * r)%Z -> (1 # 2) < f).
{ intros H. unfold f. apply Qlt_shift_div_l; [exact Y|].
  assert (inject_Z my < inject_Z (2 * r)) by now rewrite <- Zlt_Qlt.
  rewrite inject_Z_double in H0. lra. }
unfold new_location, new_location_even, new_location_odd.
destruct (Z.even my) eqn:Ev.
- destruct (Z.eqb_spec r 0) as [R0|R0].
  + cbn [located]. rewrite (F0 R0). ring.
  + destruct (Z.compare_spec (2 * r) my) as [C|C|C]; cbn [located].
    * rewrite (FE C). reflexivity.
    * specialize (FL C). specialize (F1 ltac:(lia)). lra.
    * specialize (FG C). lra.
- destruct (Z.eqb_spec r 0) as [R0|R0].
  + cbn [located]. rewrite (F0 R0). ring.
  + assert (Odd : my <> (2 * r)%Z).
    { intros ->. rewrite Z.even_mul in Ev. discriminate. }
    destruct (Z.compare_spec (2 * r + 1) my) as [C|C|C]; cbn [located].
    * specialize (FL ltac:(lia)). specialize (F1 ltac:(lia)). lra.
    * specialize (FL ltac:(lia)). specialize (F1 ltac:(lia)). lra.
    * specialize (FG ltac:(lia)). lra.
Qed.

(** The quotient that the division rounds: its mantissa, its location
    and its value. *)
Lemma SFdiv_core_spec (mx my : positive) (ex ey : Z) :
exists q e' l x,
  SFdiv_core_binary prec emax (Zpos mx) ex (Zpos my) ey = (q, e', l) /\
  (0 <= q)%Z /\ located x q l /\
  (e' <= fexp64 (Zdigits2 q + e'))%Z /\
  x * 2 ^ e' == QV (Zpos mx) ex / QV (Zpos my) ey.
Proof.
unfold SFdiv_core_binary. cbn [Zdigits2].
set (d1 := Zpos (digits2_pos mx)). set (d2 := Zpos (digits2_pos my)).
change (fexp prec emax (d1 + ex - (d2 + ey)))
  with (fexp64 (d1 + ex - (d2 + ey))).
set (e' := Z.min (fexp64 (d1 + ex - (d2 + ey))) (ex - ey)).
set (s := (ex - ey - e')%Z).
assert (Hs : (0 <= s)%Z) by (unfold s, e'; lia).
set (m' := match s with
           | 0%Z => Zpos mx
           | Zpos _ => Z.shiftl (Zpos mx) s
           | Zneg _ => 0%Z
           end).
assert (Em' : m' = (Zpos mx * 2 ^ s)%Z).
{ unfold m'. destruct s as [|p|p] eqn:Es; [| |lia].
  - rewrite Z.pow_0_r. lia.
  - now rewrite Z.shiftl_mul_pow2 by lia. }
pose proof (Z_div_mod m' (Zpos my) eq_refl) as D.
destruct (Z.div_eucl m' (Zpos my)) as [q r]. destruct D as [D1 D2].
assert (P : (0 < 2 ^ s)%Z) by (apply Z.pow_pos_nonneg; lia).
assert (Hq : (0 <= q)%Z) by nia.
exists q, e', (new_location (Zpos my) r),
  (inject_Z q + inject_Z r / inject_Z (Zpos my)).
split; [reflexivity|]. split; [exact Hq|].
split; [apply new_location_located; lia|].
assert (Y : 0 < inject_Z (Zpos my)) by reflexivity.
split.
- (* enough digits are computed *)
  destruct (digits2_pos_bounds mx) as [L1 U1].
  destruct (digits2_pos_bounds my) as [L2 U2].
  fold d1 in L1, U1. fold d2 in L2, U2.
  assert (Hd1 : (0 < d1)%Z) by (unfold d1; lia).
  assert (Hd2 : (0 < d2)%Z) by (unfold d2; lia).
  assert (Lm' : (2 ^ (d1 - 1 + s) <= m')%Z).
  { rewrite Em', Z.pow_add_r by lia. nia. }
  assert (Key : (d1 + s - d2 <= Zdigits2 q)%Z).
  { destruct (Zdigits2_bounds q Hq) as (Dq0 & Uq & _).
    destruct (Z_le_gt_dec (d1 + s - d2) (Zdigits2 q)) as [C|C]; [exact C|].
    exfalso.
    assert (K0 : (0 <= d1 + s - d2 - 1)%Z) by lia.
    assert (2 ^ Zdigits2 q <= 2 ^ (d1 + s - d2 - 1))%Z
      by (apply Z.pow_le_mono_r; lia).
    assert (E : (2 ^ (d1 - 1 + s) = 2 ^ (d1 + s - d2 - 1) * 2 ^ d2)%Z).
    { rewrite <- Z.pow_add_r by lia. f_equal. lia. }
    assert (0 < 2 ^ (d1 + s - d2 - 1))%Z by (apply Z.pow_pos_nonneg; lia).
    nia. }
  unfold s, e' in *. unfold fexp64 in *. lia.
- unfold QV. rewrite Qmult_plus_distr_l.
  assert (Es : 2 ^ ex == 2 ^ s * 2 ^ e' * 2 ^ ey).
  { rewrite <- !pow2_add. unfold s. f_equal.
    replace (ex - ey - e' + e' + ey)%Z with ex by lia. reflexivity. }
  assert (EQ : inject_Z (Zpos my) * inject_Z q + inject_Z r
               == inject_Z (Zpos mx) * 2 ^ s).
  { rewrite <- inject_Z_mult, <- inject_Z_plus, <- D1, Em', inject_Z_mult.
    now rewrite pow2_inject. }
  pose proof (pow2_pos ey). pose proof (pow2_pos e').
  rewrite Es.
  setoid_replace (inject_Z (Zpos mx) * (2 ^ s * 2 ^ e' * 2 ^ ey)
                  / (inject_Z (Zpos my) * 2 ^ ey))
    with ((inject_Z (Zpos mx) * 2 ^ s) * 2 ^ e' / inject_Z (Zpos my))
    by (field; lra).
  rewrite <- EQ. field. lra.
Qed.

(** The quotient of a finite number by a finite number other than zero
    is rounded to nearest. *)
Lemma SFdiv_rounds (x : spec_float) (sy : bool) (my : positive) (ey : Z) :
SF_finite x -> valid_binary x = true ->
rounds_to (SF2Q x / SF2Q (S754_finite sy my ey))
  (SF64div x (S754_finite sy my ey)).
Proof.
intros [sx|sx mx ex] Vx; unfold SF64div; cbn [SFdiv].
- apply rounds_to_zero. cbn [SF2Q]. unfold Qdiv. ring.
- destruct (SFdiv_core_spec mx my ex ey) as (q & e' & l & z & -> & Hq & Lz & Al & Ez).
  eapply rounds_to_ext;
    [|apply (binary_round_aux_rounds (xorb sx sy) q e' l z); assumption].
  rewrite !SF2Q_signed.
  pose proof (QV_pos my ey).
  destruct sx, sy; cbn [xorb]; rewrite Ez; field; lra.
Qed.

(** [binary_round] rounds to nearest. *)
Lemma binary_round_rounds (s : bool) (m : positive) (e : Z) :
rounds_to (if s then - QV (Zpos m) e else QV (Zpos m) e)
  (binary_round prec emax s m e).
Proof.
unfold binary_round, shl_align.
change (fexp prec emax (Zpos (digits2_pos m) + e))
  with (fexp64 (Zpos (digits2_pos m) + e)).
set (d := Zpos (digits2_pos m)).
destruct (fexp64 (d + e) - e)%Z as [|k|k] eqn:En.
- eapply rounds_to_ext;
    [|apply (binary_round_aux_rounds s (Zpos m) e loc_Exact (inject_Z (Zpos m)));
      [lia|cbn [Zdigits2]; fold d; lia|apply located_exact]].
  destruct s; reflexivity.
- eapply rounds_to_ext;
    [|apply (binary_round_aux_rounds s (Zpos m) e loc_Exact (inject_Z (Zpos m)));
      [lia|cbn [Zdigits2]; fold d; lia|apply located_exact]].
  destruct s; reflexivity.
- set (ez := fexp64 (d + e)) in *.
  eapply rounds_to_ext;
    [|apply (binary_round_aux_rounds s (Zpos (Pos.iter xO m k)) ez loc_Exact
               (inject_Z (Zpos (Pos.iter xO m k))));
      [lia| |apply located_exact]].
  + assert (E : QV (Zpos (Pos.iter xO m k)) ez == QV (Zpos m) e).
    { rewrite iter_xO, (QV_scale (Zpos m) (Zpos k) ez) by lia.
      now replace (ez + Zpos k)%Z with e by lia. }
    unfold QV in E. destruct s; rewrite E; reflexivity.
  + cbn [Zdigits2]. rewrite digits2_pos_shift. fold d.
    replace (d + Zpos k + ez)%Z with (d + e)%Z by lia. fold ez. lia.
Qed.

Lemma binary_normalize_rounds (m e : Z) :
rounds_to (QV m e) (binary_normalize prec emax m e false).
Proof.
destruct m as [|p|p]; cbn [binary_normalize].
- apply rounds_to_zero. apply QV_0.
- apply (binary_round_rounds false p e).
- eapply rounds_to_ext; [|apply (binary_round_rounds true p e)].
  change (Zneg p) with (- Zpos p)%Z. now rewrite <- QV_opp.
Qed.

Lemma rounds_to_self (r : spec_float) :
SF_finite r -> valid_binary r = true ->
(Qabs (SF2Q r) <= Omega) -> rounds_to (SF2Q r) r.
Proof.
intros F V A.
assert (N : nearest (SF2Q r) r).
{ intros t _ _. setoid_replace (SF2Q r - SF2Q r) with 0 by ring.
  apply Qabs_nonneg. }
destruct F; cbn [rounds_to]; auto.
Qed.

Lemma valid_below_Omega (r : spec_float) :
SF_finite r -> valid_binary r = true -> Qabs (SF2Q r) <= Omega.
Proof.
intros [s|s m e] V.
- cbn [SF2Q]. rewrite Qabs_pos by lra. pose proof Omega_pos. lra.
- rewrite SF2Q_signed, Qabs_signed by (pose proof (QV_pos m e); lra).
  cbn [valid_binary] in V. pose proof (bounded_max m e V) as B.
  apply bounded_digits in V. destruct V as (U & E & _).
  unfold Omega.
  apply Qle_trans with (QV (2 ^ 53 - 1) 971).
  + apply Qle_trans with (QV (2 ^ 53 - 1) e).
    * apply QV_le. lia.
    * apply QV_le_exp; [|lia]. change (2 ^ 53)%Z with 9007199254740992%Z. lia.
  + apply (QV_le_align _ 971 _ 970 970); [lia|lia|].
    rewrite Z.sub_diag, Z.pow_0_r, Z.mul_1_r.
    change (2 ^ (971 - 970))%Z with 2%Z.
    change (2 ^ 54)%Z with 18014398509481984%Z.
    change (2 ^ 53)%Z with 9007199254740992%Z. lia.
Qed.

(** Sums and differences of finite numbers are rounded to nearest. *)
Lemma SFadd_rounds (x y : spec_float) :
SF_finite x -> SF_finite y ->
valid_binary x = true -> valid_binary y = true ->
rounds_to (SF2Q x + SF2Q y) (SF64add x y).
Proof.
intros Fx Fy Vx Vy.
destruct Fx as [sx|sx mx ex], Fy as [sy|sy my ey]; unfold SF64add; cbn [SFadd].
- destruct sx, sy; apply rounds_to_zero; cbn [SF2Q]; ring.
- eapply rounds_to_ext; [|apply rounds_to_self;
    [constructor|exact Vy|apply valid_below_Omega; [constructor|exact Vy]]].
  cbn [SF2Q]. ring.
- eapply rounds_to_ext; [|apply rounds_to_self;
    [constructor|exact Vx|apply valid_below_Omega; [constructor|exact Vx]]].
  cbn [SF2Q]. ring.
- set (ez := Z.min ex ey).
  eapply rounds_to_ext; [|apply binary_normalize_rounds].
  rewrite <- QV_plus.
  rewrite <- !SF2Q_align by (unfold ez; lia). reflexivity.
Qed.

Lemma SFsub_rounds (x y : spec_float) :
SF_finite x -> SF_finite y ->
valid_binary x = true -> valid_binary y = true ->
rounds_to (SF2Q x - SF2Q y) (SF64sub x y).
Proof.
intros Fx Fy Vx Vy.
destruct Fx as [sx|sx mx ex], Fy as [sy|sy my ey]; unfold SF64sub; cbn [SFsub].
- destruct sx, sy; apply rounds_to_zero; cbn [SF2Q]; ring.
- assert (Vn : valid_binary (S754_finite (negb sy) my ey) = true) by exact Vy.
  eapply rounds_to_ext; [|apply rounds_to_self;
    [constructor|exact Vn|apply valid_below_Omega; [constructor|exact Vn]]].
  rewrite !SF2Q_signed. cbn [SF2Q]. destruct sy; cbn [negb]; ring.
- eapply rounds_to_ext; [|apply rounds_to_self;
    [constructor|exact Vx|apply valid_below_Omega; [constructor|exact Vx]]].
  cbn [SF2Q]. ring.
- set (ez := Z.min ex ey).
  eapply rounds_to_ext; [|apply binary_normalize_rounds].
  rewrite <- QV_minus.
  rewrite <- !SF2Q_align by (unfold ez; lia). reflexivity.
Qed.

End Operations.

(** ** Rounding keeps the order *)

Section ValueOrder.
Local Open Scope Q_scope.

Lemma SFleb_negative_inv (m1 m2 : positive) (e1 e2 : Z) :
bounded prec emax m1 e1 = true -> bounded prec emax m2 e2 = true ->
SFleb (S754_finite true m1 e1) (S754_finite true m2 e2) = true ->
QV (Zpos m2) e2 <= QV (Zpos m1) e1.
Proof.
intros B1 B2. unfold SFleb. cbn [SFcompare].
destruct (Z.compare_spec e1 e2) as [E|E|E]; intros H.
- subst e2. apply QV_le.
  change (Pos.compare_cont Eq m1 m2) with (Pos.compare m1 m2) in H.
  destruct (Pos.compare_spec m1 m2); cbn [CompOpp] in H;
    try discriminate; lia.
- discriminate.
- pose proof (bounded_exponent_lt _ _ _ _ B2 B1 E). lra.
Qed.

(** Among finite numbers [<=] is the order of the values. *)
Lemma SFleb_of_le (a b : spec_float) :
SF_finite a -> SF_finite b ->
valid_binary a = true -> valid_binary b = true ->
SF2Q a <= SF2Q b -> SFleb a b = true.
Proof.
intros [sa|sa ma ea] [sb|sb mb eb] Va Vb; rewrite ?SF2Q_signed;
  cbn [SF2Q valid_binary] in *; intros H.
- reflexivity.
- pose proof (QV_pos mb eb). destruct sb; [lra|reflexivity].
- pose proof (QV_pos ma ea). destruct sa; [reflexivity|lra].
- pose proof (QV_pos ma ea). pose proof (QV_pos mb eb).
  destruct sa, sb.
  + apply SFleb_negative; try assumption. lra.
  + reflexivity.
  + lra.
  + now apply SFleb_positive.
Qed.

Lemma SFleb_to_le (a b : spec_float) :
SF_finite a -> SF_finite b ->
valid_binary a = true -> valid_binary b = true ->
SFleb a b = true -> SF2Q a <= SF2Q b.
Proof.
intros [sa|sa ma ea] [sb|sb mb eb] Va Vb; rewrite ?SF2Q_signed;
  cbn [SF2Q valid_binary] in *; intros H.
- lra.
- pose proof (QV_pos mb eb). destruct sb; [discriminate|lra].
- pose proof (QV_pos ma ea). destruct sa; [lra|discriminate].
- pose proof (QV_pos ma ea). pose proof (QV_pos mb eb).
  destruct sa, sb.
  + apply SFleb_negative_inv in H; try assumption. lra.
  + lra.
  + discriminate.
  + now apply SFleb_positive_inv in H.
Qed.

(** Finite numbers of the same value are the same number, or two
    zeros. *)
Lemma SF2Q_same (a b : spec_float) :
SF_finite a -> SF_finite b ->
valid_binary a = true -> valid_binary b = true ->
SF2Q a == SF2Q b ->
a = b \/ exists sa sb, a = S754_zero sa /\ b = S754_zero sb.
Proof.
intros Fa Fb Va Vb E.
assert (L1 : SFleb a b = true) by (apply SFleb_of_le; try assumption; lra).
assert (L2 : SFleb b a = true) by (apply SFleb_of_le; try assumption; lra).
destruct Fa as [sa|sa ma ea], Fb as [sb|sb mb eb].
- right. eauto.
- destruct sb; discriminate.
- destruct sa; discriminate.
- left. unfold SFleb in L1, L2. cbn [SFcompare] in L1, L2.
  change (Pos.compare_cont Eq ma mb) with (Pos.compare ma mb) in *.
  change (Pos.compare_cont Eq mb ma) with (Pos.compare mb ma) in *.
  destruct sa, sb; try discriminate;
    destruct (Z.compare_spec ea eb) as [C|C|C];
    destruct (Z.compare_spec eb ea) as [C'|C'|C']; try lia;
    try discriminate; subst eb;
    destruct (Pos.compare_spec ma mb) as [D|D|D];
    destruct (Pos.compare_spec mb ma) as [D'|D'|D'];
    cbn [CompOpp] in *; try discriminate; try lia; subst; reflexivity.
Qed.

Lemma Qabs_midpoint_l (A B u : Q) :
B < A -> Qabs (A - u) <= Qabs (B - u) -> A + B <= 2 * u.
Proof.
intros H N. apply Qabs_Qle_condition in N.
destruct (Qlt_le_dec (B - u) 0) as [C|C].
- rewrite Qabs_neg in N by lra. lra.
- rewrite Qabs_pos in N by lra. lra.
Qed.

Lemma Qabs_midpoint_r (A B v : Q) :
B < A -> Qabs (B - v) <= Qabs (A - v) -> 2 * v <= A + B.
Proof.
intros H N. apply Qabs_Qle_condition in N.
destruct (Qlt_le_dec (A - v) 0) as [C|C].
- rewrite Qabs_neg in N by lra. lra.
- rewrite Qabs_pos in N by lra. lra.
Qed.

Lemma rounds_to_not_nan (Y : Q) (r : spec_float) :
rounds_to Y r -> r <> S754_nan.
Proof. intros H ->. exact H. Qed.

Lemma rounds_to_finite (Y : Q) (r : spec_float) :
rounds_to Y r -> SF_finite r ->
valid_binary r = true /\ Qabs Y <= Omega /\ nearest Y r.
Proof. intros H F. destruct F; exact H. Qed.

(** Rounding to nearest keeps the order: of two numbers the smaller is
    not rounded above the larger. *)
Lemma rounds_to_mono (u v : Q) (a b : spec_float) :
rounds_to u a -> rounds_to v b -> u < v -> SFleb a b = true.
Proof.
intros Ha Hb Huv. pose proof Omega_pos as PO.
assert (Fin : SF_finite a -> SF_finite b -> SFleb a b = true).
{ intros Fa Fb.
  destruct (rounds_to_finite _ _ Ha Fa) as (Va & Aa & Na).
  destruct (rounds_to_finite _ _ Hb Fb) as (Vb & Ab & Nb).
  destruct (Qlt_le_dec (SF2Q b) (SF2Q a)) as [C|C].
  - exfalso.
    pose proof (Qabs_midpoint_l _ _ _ C (Na b Fb Vb)).
    pose proof (Qabs_midpoint_r _ _ _ C (Nb a Fa Va)). lra.
  - now apply SFleb_of_le. }
assert (Ba : SF_finite a -> - Omega <= u <= Omega).
{ intros Fa. destruct (rounds_to_finite _ _ Ha Fa) as (_ & A & _).
  now apply Qabs_Qle_condition in A. }
assert (Bb : SF_finite b -> - Omega <= v <= Omega).
{ intros Fb. destruct (rounds_to_finite _ _ Hb Fb) as (_ & A & _).
  now apply Qabs_Qle_condition in A. }
destruct a as [sa|sa| |sa ma ea], b as [sb|sb| |sb mb eb];
  try contradiction;
  try (apply Fin; constructor);
  cbn [rounds_to] in Ha, Hb.
- specialize (Ba (SF_finite_zero sa)). destruct sb; [lra|reflexivity].
- specialize (Bb (SF_finite_zero sb)). destruct sa; [reflexivity|lra].
- destruct sa, sb; try reflexivity; lra.
- specialize (Bb (SF_finite_num sb mb eb)). destruct sa; [reflexivity|lra].
- specialize (Ba (SF_finite_num sa ma ea)). destruct sb; [lra|reflexivity].
Qed.

End ValueOrder.

Section Monotone.
Local Open Scope Q_scope.

Lemma SFleb_neg_infinity (r : spec_float) :
r <> S754_nan -> SFleb (S754_infinity true) r = true.
Proof. destruct r as [s|[|]| |[|] m e]; intros H; try reflexivity; congruence. Qed.

Lemma SFleb_pos_infinity (r : spec_float) :
r <> S754_nan -> SFleb r (S754_infinity false) = true.
Proof. destruct r as [[|]|[|]| |[|] m e]; intros H; try reflexivity; congruence. Qed.

(** An operation that rounds a strictly increasing function of the
    value to nearest, and keeps the infinities, keeps [<=]. *)
Lemma rounded_function_mono (f : spec_float -> spec_float) (phi : Q -> Q) :
(forall x, SF_finite x -> valid_binary x = true ->
   rounds_to (phi (SF2Q x)) (f x)) ->
(forall X Y, X < Y -> phi X < phi Y) ->
(forall sa sb, SFleb (f (S754_zero sa)) (f (S754_zero sb)) = true) ->
f (S754_infinity true) = S754_infinity true ->
f (S754_infinity false) = S754_infinity false ->
forall x y,
  valid_binary x = true -> valid_binary y = true ->
  SFleb x y = true -> SFleb (f x) (f y) = true.
Proof.
intros Hr Hphi Hz Hm Hp x y Vx Vy L.
assert (Nn : forall t, SF_finite t -> valid_binary t = true -> f t <> S754_nan).
{ intros t Ft Vt. eapply rounds_to_not_nan. now apply Hr. }
assert (Fin : SF_finite x -> SF_finite y -> SFleb (f x) (f y) = true).
{ intros Fx Fy.
  pose proof (SFleb_to_le x y Fx Fy Vx Vy L) as Le.
  destruct (Qlt_le_dec (SF2Q x) (SF2Q y)) as [C|C].
  - eapply rounds_to_mono; [apply Hr|apply Hr|apply Hphi]; assumption.
  - destruct (SF2Q_same x y Fx Fy Vx Vy ltac:(lra)) as [->|(sa & sb & -> & ->)].
    + apply SFleb_refl. now apply Nn.
    + apply Hz. }
destruct x as [sx|sx| |sx mx ex], y as [sy|sy| |sy my ey];
  try discriminate; try (apply Fin; constructor).
- destruct sy; [discriminate|]. rewrite Hp.
  apply SFleb_pos_infinity. apply Nn; [constructor|exact Vx].
- destruct sx; [|discriminate]. rewrite Hm.
  apply SFleb_neg_infinity. apply Nn; [constructor|exact Vy].
- destruct sx, sy; try discriminate; rewrite ?Hm, ?Hp; reflexivity.
- destruct sx; [|discriminate]. rewrite Hm.
  apply SFleb_neg_infinity. apply Nn; [constructor|exact Vy].
- destruct sy; [discriminate|]. rewrite Hp.
  apply SFleb_pos_infinity. apply Nn; [constructor|exact Vx].
Qed.

Lemma SFadd_mono_r (c x y : spec_float) :
SF_finite c -> valid_binary c = true ->
valid_binary x = true -> valid_binary y = true ->
SFleb x y = true -> SFleb (SF64add c x) (SF64add c y) = true.
Proof.
intros Fc Vc.
apply (rounded_function_mono (SF64add c) (fun X => SF2Q c + X)).
- intros t Ft Vt. now apply SFadd_rounds.
- intros X Y H. lra.
- intros sa sb. destruct Fc as [sc|sc mc ec].
  + destruct sc, sa, sb; reflexivity.
  + unfold SF64add. cbn [SFadd]. apply SFleb_refl. discriminate.
- destruct Fc; reflexivity.
- destruct Fc; reflexivity.
Qed.

Lemma SFadd_mono_l (c x y : spec_float) :
SF_finite c -> valid_binary c = true ->
valid_binary x = true -> valid_binary y = true ->
SFleb x y = true -> SFleb (SF64add x c) (SF64add y c) = true.
Proof.
intros Fc Vc.
apply (rounded_function_mono (fun t => SF64add t c) (fun X => X + SF2Q c)).
- intros t Ft Vt. now apply SFadd_rounds.
- intros X Y H. lra.
- intros sa sb. destruct Fc as [sc|sc mc ec].
  + destruct sc, sa, sb; reflexivity.
  + unfold SF64add. cbn [SFadd]. apply SFleb_refl. discriminate.
- destruct Fc; reflexivity.
- destruct Fc; reflexivity.
Qed.

Lemma SFsub_mono_l (c x y : spec_float) :
SF_finite c -> valid_binary c = true ->
valid_binary x = true -> valid_binary y = true ->
SFleb x y = true -> SFleb (SF64sub x c) (SF64sub y c) = true.
Proof.
intros Fc Vc.
apply (rounded_function_mono (fun t => SF64sub t c) (fun X => X - SF2Q c)).
- intros t Ft Vt. now apply SFsub_rounds.
- intros X Y H. lra.
- intros sa sb. destruct Fc as [sc|sc mc ec].
  + destruct sc, sa, sb; reflexivity.
  + unfold SF64sub. cbn [SFsub]. apply SFleb_refl. discriminate.
- destruct Fc; reflexivity.
- destruct Fc; reflexivity.
Qed.

Lemma SFmul_mono_pos_r (mc : positive) (ec : Z) (x y : spec_float) :
bounded prec emax mc ec = true ->
valid_binary x = true -> valid_binary y = true ->
SFleb x y = true ->
SFleb (SF64mul (S754_finite false mc ec) x)
      (SF64mul (S754_finite false mc ec) y) = true.
Proof.
intros Vc. pose proof (QV_pos mc ec) as PC.
apply (rounded_function_mono (SF64mul (S754_finite false mc ec))
         (fun X => SF2Q (S754_finite false mc ec) * X)).
- intros t Ft Vt. apply SFmul_rounds; try assumption. constructor.
- intros X Y H. cbn [SF2Q cond_Zopp]. nra.
- intros sa sb. destruct sa, sb; reflexivity.
- reflexivity.
- reflexivity.
Qed.

Lemma SFmul_mono_pos_l (mc : positive) (ec : Z) (x y : spec_float) :
bounded prec emax mc ec = true ->
valid_binary x = true -> valid_binary y = true ->
SFleb x y = true ->
SFleb (SF64mul x (S754_finite false mc ec))
      (SF64mul y (S754_finite false mc ec)) = true.
Proof.
intros Vc. pose proof (QV_pos mc ec) as PC.
apply (rounded_function_mono (fun t => SF64mul t (S754_finite false mc ec))
         (fun X => X * SF2Q (S754_finite false mc ec))).
- intros t Ft Vt. apply SFmul_rounds; try assumption. constructor.
- intros X Y H. cbn [SF2Q cond_Zopp]. nra.
- intros sa sb. destruct sa, sb; reflexivity.
- reflexivity.
- reflexivity.
Qed.

Lemma SFdiv_mono_pos (mc : positive) (ec : Z) (x y : spec_float) :
bounded prec emax mc ec = true ->
valid_binary x = true -> valid_binary y = true ->
SFleb x y = true ->
SFleb (SF64div x (S754_finite false mc ec))
      (SF64div y (S754_finite false mc ec)) = true.
Proof.
intros Vc. pose proof (QV_pos mc ec) as PC.
apply (rounded_function_mono (fun t => SF64div t (S754_finite false mc ec))
         (fun X => X / SF2Q (S754_finite false mc ec))).
- intros t Ft Vt. now apply SFdiv_rounds.
- intros X Y H. cbn [SF2Q cond_Zopp]. unfold Qdiv.
  assert (0 < / QV (Zpos mc) ec) by now apply Qinv_lt_0_compat.
  nra.
- intros sa sb. destruct sa, sb; reflexivity.
- reflexivity.
- reflexivity.
Qed.

(** A finite multiplier that is not negative keeps the order of finite
    numbers. *)
Lemma SFmul_mono_nonneg_r (c x y : spec_float) :
SF_finite c -> valid_binary c = true -> SFleb (S754_zero false) c = true ->
SF_finite x -> SF_finite y ->
valid_binary x = true -> valid_binary y = true ->
SFleb x y = true -> SFleb (SF64mul c x) (SF64mul c y) = true.
Proof.
intros [sc|sc mc ec] Vc Lc Fx Fy Vx Vy L.
- destruct Fx, Fy; unfold SF64mul; cbn [SFmul]; reflexivity.
- destruct sc; [discriminate|]. now apply SFmul_mono_pos_r.
Qed.

Lemma SFmul_mono_nonneg_l (c x y : spec_float) :
SF_finite c -> valid_binary c = true -> SFleb (S754_zero false) c = true ->
SF_finite x -> SF_finite y ->
valid_binary x = true -> valid_binary y = true ->
SFleb x y = true -> SFleb (SF64mul x c) (SF64mul y c) = true.
Proof.
intros [sc|sc mc ec] Vc Lc Fx Fy Vx Vy L.
- destruct Fx, Fy; unfold SF64mul; cbn [SFmul]; reflexivity.
- destruct sc; [discriminate|]. now apply SFmul_mono_pos_l.
Qed.

End Monotone.

(** ** Monotone operations on binary64 numbers *)

Section FloatMonotone.

Lemma add_le_mono_r (c x y : float) :
is_finite c = true -> PrimFloat.leb x y = true ->
PrimFloat.leb (c + x) (c + y) = true.
Proof.
intros Fc. rewrite !leb_spec, !add_spec. apply is_finite_spec in Fc.
apply SFadd_mono_r; try apply Prim2SF_valid; assumption.
Qed.

Lemma add_le_mono_l (c x y : float) :
is_finite c = true -> PrimFloat.leb x y = true ->
PrimFloat.leb (x + c) (y + c) = true.
Proof.
intros Fc. rewrite !leb_spec, !add_spec. apply is_finite_spec in Fc.
apply SFadd_mono_l; try apply Prim2SF_valid; assumption.
Qed.

Lemma sub_le_mono_l (c x y : float) :
is_finite c = true -> PrimFloat.leb x y = true ->
PrimFloat.leb (x - c) (y - c) = true.
Proof.
intros Fc. rewrite !leb_spec, !sub_spec. apply is_finite_spec in Fc.
apply SFsub_mono_l; try apply Prim2SF_valid; assumption.
Qed.

Lemma positive_valid (c : float) (mc : positive) (ec : Z) :
Prim2SF c = S754_finite false mc ec -> bounded prec emax mc ec = true.
Proof.
intros E. pose proof (Prim2SF_valid c) as V. now rewrite E in V.
Qed.

Lemma mul_le_mono_pos_r (c x y : float) :
is_finite c = true -> PrimFloat.ltb 0 c = true ->
PrimFloat.leb x y = true ->
PrimFloat.leb (c * x) (c * y) = true.
Proof.
intros Fc Pc. destruct (positive_finite_spec c Fc Pc) as (mc & ec & Ec).
rewrite !leb_spec, !mul_spec, Ec.
apply SFmul_mono_pos_r; try apply Prim2SF_valid.
exact (positive_valid c mc ec Ec).
Qed.

Lemma div_le_mono_pos (c x y : float) :
is_finite c = true -> PrimFloat.ltb 0 c = true ->
PrimFloat.leb x y = true ->
PrimFloat.leb (x / c) (y / c) = true.
Proof.
intros Fc Pc. destruct (positive_finite_spec c Fc Pc) as (mc & ec & Ec).
rewrite !leb_spec, !div_spec, Ec.
apply SFdiv_mono_pos; try apply Prim2SF_valid.
exact (positive_valid c mc ec Ec).
Qed.

Lemma mul_le_mono_nonneg_r (c x y : float) :
is_finite c = true -> PrimFloat.leb 0 c = true ->
is_finite x = true -> is_finite y = true ->
PrimFloat.leb x y = true ->
PrimFloat.leb (c * x) (c * y) = true.
Proof.
intros Fc Pc Fx Fy. rewrite !leb_spec, !mul_spec.
rewrite leb_spec in Pc. apply is_finite_spec in Fc, Fx, Fy.
apply SFmul_mono_nonneg_r; try apply Prim2SF_valid; assumption.
Qed.

Lemma mul_le_mono_nonneg_l (c x y : float) :
is_finite c = true -> PrimFloat.leb 0 c = true ->
is_finite x = true -> is_finite y = true ->
PrimFloat.leb x y = true ->
PrimFloat.leb (x * c) (y * c) = true.
Proof.
intros Fc Pc Fx Fy. rewrite !leb_spec, !mul_spec.
rewrite leb_spec in Pc. apply is_finite_spec in Fc, Fx, Fy.
apply SFmul_mono_nonneg_l; try apply Prim2SF_valid; assumption.
Qed.

End FloatMonotone.

Section MoreOrder.
Local Open Scope Q_scope.

Lemma SF2Q_opp (x : spec_float) : SF2Q (SFopp x) == - SF2Q x.
Proof.
destruct x as [s|s| |s m e]; cbn [SFopp];
  rewrite ?SF2Q_signed; cbn [SF2Q]; try ring.
destruct s; cbn [negb]; ring.
Qed.

Lemma valid_opp (x : spec_float) :
valid_binary (SFopp x) = valid_binary x.
Proof. destruct x; reflexivity. Qed.

Lemma SFleb_opp (x y : spec_float) :
valid_binary x = true -> valid_binary y = true ->
SFleb x y = true -> SFleb (SFopp y) (SFopp x) = true.
Proof.
intros Vx Vy L.
assert (Fin : SF_finite x -> SF_finite y ->
              SFleb (SFopp y) (SFopp x) = true).
{ intros Fx Fy. pose proof (SFleb_to_le x y Fx Fy Vx Vy L).
  apply SFleb_of_le; rewrite ?valid_opp; try assumption.
  - destruct Fy; constructor.
  - destruct Fx; constructor.
  - rewrite !SF2Q_opp. lra. }
destruct x as [sx|sx| |sx mx ex], y as [sy|sy| |sy my ey];
  try discriminate; try (apply Fin; constructor);
  destruct sx, sy; try discriminate; reflexivity.
Qed.

(** Subtracting more gives less. *)
Lemma SFsub_anti_r (c x y : spec_float) :
SF_finite c -> valid_binary c = true ->
valid_binary x = true -> valid_binary y = true ->
SFleb x y = true -> SFleb (SF64sub c y) (SF64sub c x) = true.
Proof.
intros Fc Vc Vx Vy L.
rewrite <- !SFadd_opp.
apply SFadd_mono_r; rewrite ?valid_opp; try assumption.
now apply SFleb_opp.
Qed.

(** Adding the same number, finite or not, to two finite numbers. *)
Lemma SFadd_mono_l_any (k x y : spec_float) :
k <> S754_nan -> valid_binary k = true ->
SF_finite x -> SF_finite y ->
valid_binary x = true -> valid_binary y = true ->
SFleb x y = true ->
SFleb (SF64add x k) (SF64add y k) = true /\
SFleb (SF64sub x k) (SF64sub y k) = true.
Proof.
intros Nk Vk Fx Fy Vx Vy L.
destruct k as [sk|sk| |sk mk ek]; try congruence.
- split; [apply SFadd_mono_l|apply SFsub_mono_l]; try assumption; constructor.
- destruct Fx, Fy; destruct sk; split; reflexivity.
- split; [apply SFadd_mono_l|apply SFsub_mono_l]; try assumption; constructor.
Qed.

End MoreOrder.

Section FloatOrder.

Lemma sub_anti_r (c x y : float) :
is_finite c = true -> PrimFloat.leb x y = true ->
PrimFloat.leb (c - y) (c - x) = true.
Proof.
intros Fc. rewrite !leb_spec, !sub_spec. apply is_finite_spec in Fc.
apply SFsub_anti_r; try apply Prim2SF_valid; assumption.
Qed.

Lemma add_sub_mono_l_any (k x y : float) :
PrimFloat.is_nan k = false ->
is_finite x = true -> is_finite y = true ->
PrimFloat.leb x y = true ->
PrimFloat.leb (x + k) (y + k) = true /\ PrimFloat.leb (x - k) (y - k) = true.
Proof.
intros Nk Fx Fy. rewrite !leb_spec, !add_spec, !sub_spec.
apply is_nan_spec in Nk. apply is_finite_spec in Fx, Fy.
apply SFadd_mono_l_any; try apply Prim2SF_valid; assumption.
Qed.

(** When [V ** 2] returns for a finite [V], it returns a finite number
    that is not negative. *)
Lemma square_returns_finite (V V2 : float) :
is_finite V = true -> pow2 V = Ok V2 ->
V2 = (V * V)%float /\ is_finite V2 = true /\ PrimFloat.leb 0 V2 = true.
Proof.
intros FV EV. destruct (square_returns V V2 FV EV) as [-> I].
destruct (square_nonneg V FV I) as [F2 [N2 S2]].
split; [reflexivity|]. split; [now apply is_finite_spec|].
rewrite leb_spec. change (Prim2SF 0) with (S754_zero false).
destruct F2 as [s|s m e]; cbn [SFsign] in S2; subst; reflexivity.
Qed.

Lemma mul_not_nan (x y : float) :
is_finite x = true -> is_finite y = true ->
PrimFloat.is_nan (x * y)%float = false.
Proof.
intros Fx Fy. apply is_finite_spec in Fx, Fy. apply is_nan_spec.
rewrite mul_spec. now destruct (SFmul_finite_sign _ _ Fx Fy).
Qed.

Lemma div_not_nan (x c : float) :
PrimFloat.is_nan x = false -> is_finite c = true ->
PrimFloat.ltb 0 c = true ->
PrimFloat.is_nan (x / c)%float = false.
Proof.
intros Nx Fc Pc. destruct (positive_finite_spec c Fc Pc) as (mc & ec & Ec).
apply is_nan_spec in Nx. apply is_nan_spec. rewrite div_spec, Ec.
now destruct (SFdiv_finite_sign _ false mc ec Nx).
Qed.

Lemma half_nonneg (rho : float) :
is_finite rho = true -> PrimFloat.leb 0 rho = true ->
is_finite (lit 0.5 * rho)%py = true /\
PrimFloat.leb 0 (lit 0.5 * rho)%py = true.
Proof.
intros Fr Lr. split; [now apply half_mul_finite|].
assert (F5 : is_finite 0.5 = true) by reflexivity.
assert (P5 : PrimFloat.ltb 0 0.5 = true) by reflexivity.
exact (mul_le_mono_pos_r 0.5 0 rho F5 P5 Lr).
Qed.

(** What one pass of the pressure loop records. *)
Lemma relative_difference_at_value (rho V V2 r : float) :
pow2 V = Ok V2 -> relative_difference_at rho V r ->
r = relative_difference_of rho V2.
Proof.
intros EV (P_t & P_total & H1 & H2 & H3).
unfold static_to_total_pressure in H1. rewrite EV in H1. cbn [bind] in H1.
injection H1 as <-.
apply div_value in H2. subst P_total.
apply div_value in H3. subst r. reflexivity.
Qed.

(** The recorded relative difference does not decrease with the square
    of the velocity, for a finite density that is not negative. *)
Lemma relative_difference_mono (rho V2 V2' : float) :
is_finite rho = true -> PrimFloat.leb 0 rho = true ->
is_finite V2 = true -> is_finite V2' = true ->
PrimFloat.leb V2 V2' = true ->
PrimFloat.leb (relative_difference_of rho V2)
  (relative_difference_of rho V2') = true.
Proof.
intros Fr Lr F2 F2' L.
destruct (half_nonneg rho Fr Lr) as [Fc Lc].
unfold relative_difference_of.
apply (div_le_mono_pos P_static); [reflexivity|reflexivity|].
apply (mul_le_mono_pos_r (lit 100)); [reflexivity|reflexivity|].
apply (sub_le_mono_l P_static); [reflexivity|].
apply (div_le_mono_pos (lit 100000)); [reflexivity|reflexivity|].
apply (add_le_mono_r (P_static * lit 100000)%py); [reflexivity|].
now apply (mul_le_mono_nonneg_r (lit 0.5 * rho)%py).
Qed.

Lemma relative_difference_of_rest (rho : float) :
is_finite rho = true -> relative_difference_of rho 0 = 0%float.
Proof.
intros Fr. apply (relative_difference_at_rest rho _ Fr).
unfold relative_difference_at, static_to_total_pressure.
change (pow2 0%float) with (Ok PrimFloat.zero). cbn [bind].
do 2 eexists. split; [reflexivity|].
split; (rewrite binary64_div_nonzero by reflexivity); reflexivity.
Qed.

End FloatOrder.

Section DivisorOrder.
Local Open Scope Q_scope.

(** A greater positive divisor gives a smaller quotient of a number that
    is not negative. *)
Lemma SFdiv_anti_divisor (x : spec_float) (mc mc' : positive) (ec ec' : Z) :
SF_finite x -> valid_binary x = true ->
SFleb (S754_zero false) x = true ->
bounded prec emax mc ec = true -> bounded prec emax mc' ec' = true ->
SFleb (S754_finite false mc ec) (S754_finite false mc' ec') = true ->
SFleb (SF64div x (S754_finite false mc' ec'))
      (SF64div x (S754_finite false mc ec)) = true.
Proof.
intros Fx Vx Lx Vc Vc' L.
pose proof (SFleb_to_le _ _ (SF_finite_num false mc ec)
              (SF_finite_num false mc' ec') Vc Vc' L) as H1.
cbn [SF2Q cond_Zopp] in H1.
pose proof (QV_pos mc ec) as Pc. pose proof (QV_pos mc' ec') as Pc'.
destruct Fx as [sx|sx mx ex]; [destruct sx; reflexivity|].
destruct sx; [discriminate|].
pose proof (QV_pos mx ex) as Px.
destruct (Qlt_le_dec (QV (Zpos mc) ec) (QV (Zpos mc') ec')) as [C|C].
- apply (rounds_to_mono
           (SF2Q (S754_finite false mx ex) / SF2Q (S754_finite false mc' ec'))
           (SF2Q (S754_finite false mx ex) / SF2Q (S754_finite false mc ec)));
    [apply SFdiv_rounds; [constructor|exact Vx]
    |apply SFdiv_rounds; [constructor|exact Vx]|].
  cbn [SF2Q cond_Zopp]. unfold Qdiv.
  apply Qmult_lt_l; [exact Px|].
  now apply -> Qinv_lt_contravar.
- destruct (SF2Q_same (S754_finite false mc ec) (S754_finite false mc' ec')
              (SF_finite_num _ _ _) (SF_finite_num _ _ _) Vc Vc')
    as [E|(sa & sb & E & _)].
  + cbn [SF2Q cond_Zopp]. lra.
  + injection E as <- <-. apply SFleb_refl.
    eapply rounds_to_not_nan. apply SFdiv_rounds; [constructor|exact Vx].
  + discriminate.
Qed.

End DivisorOrder.

Section CoefficientOrder.

Lemma div_anti_divisor (x c c' : float) :
PrimFloat.leb 0 x = true ->
PrimFloat.ltb 0 c = true -> is_finite c' = true ->
PrimFloat.leb c c' = true ->
PrimFloat.leb (x / c') (x / c) = true.
Proof.
intros Lx Pc Fc' L.
rewrite leb_spec in Lx, L. rewrite ltb_spec in Pc.
change (Prim2SF 0) with (S754_zero false) in Lx, Pc.
apply is_finite_spec in Fc'.
rewrite leb_spec, !div_spec.
pose proof (Prim2SF_valid c) as Vc. pose proof (Prim2SF_valid c') as Vc'.
pose proof (Prim2SF_valid x) as Vx.
destruct (Prim2SF c) as [sc|sc| |sc mc ec]; try discriminate.
- destruct sc; [discriminate|].
  destruct Fc' as [s'|s' m' e']; destruct s'; discriminate.
- destruct sc; [discriminate|].
  destruct Fc' as [s'|s' mc' ec']; [discriminate|].
  destruct s'; [discriminate|].
  destruct (Prim2SF x) as [sx|sx| |sx mx ex] eqn:Ex; try discriminate.
  + apply SFdiv_anti_divisor; try assumption. constructor.
  + destruct sx; [discriminate|]. reflexivity.
  + apply SFdiv_anti_divisor; try assumption. constructor.
Qed.

(** [1 - rf] is finite and not negative when [rf] is at most 1. *)
Lemma one_minus_nonneg (rf : float) :
is_finite rf = true -> PrimFloat.leb rf 1 = true ->
is_finite (1 - rf) = true /\ PrimFloat.leb 0 (1 - rf) = true.
Proof.
intros F L. pose proof (one_minus_finite rf F) as Fa.
change (lit 1 - rf)%py with (PrimFloat.sub 1 rf) in Fa.
split; [exact Fa|].
assert (Sa : SF_nonneg (Prim2SF (1 - rf))).
{ rewrite sub_spec.
  change (Prim2SF 1) with (S754_finite false 4503599627370496 (-52)).
  apply SFsub_nonneg; [reflexivity|now apply is_finite_spec
                      |apply Prim2SF_valid|].
  now rewrite leb_spec in L. }
apply is_finite_spec in Fa. rewrite leb_spec.
change (Prim2SF 0) with (S754_zero false).
destruct Sa as [_ S].
destruct Fa as [s|s m e]; cbn [SFsign] in S; subst; reflexivity.
Qed.

(** The coefficient [(1 - rf) * 0.5] of a recovery factor that is at
    most 1. *)
Lemma recovery_coefficient_nonneg (rf : float) :
is_finite rf = true -> PrimFloat.leb rf 1 = true ->
is_finite ((1 - rf) * 0.5) = true /\ PrimFloat.leb 0 ((1 - rf) * 0.5) = true.
Proof.
intros F L. destruct (one_minus_nonneg rf F L) as [Fa La]. split.
- exact (mul_half_finite _ Fa).
- assert (F5 : is_finite 0.5 = true) by reflexivity.
  assert (L5 : PrimFloat.leb 0 0.5 = true) by reflexivity.
  assert (F0 : is_finite 0 = true) by reflexivity.
  exact (mul_le_mono_nonneg_l 0.5 0 (1 - rf) F5 L5 F0 Fa La).
Qed.

(** The coefficient does not grow with the recovery factor. *)
Lemma recovery_coefficient_anti (rf rf' : float) :
is_finite rf = true -> is_finite rf' = true ->
PrimFloat.leb rf rf' = true ->
PrimFloat.leb ((1 - rf') * 0.5) ((1 - rf) * 0.5) = true.
Proof.
intros F F' L.
assert (F1 : is_finite 1 = true) by reflexivity.
assert (F5 : is_finite 0.5 = true) by reflexivity.
assert (L5 : PrimFloat.leb 0 0.5 = true) by reflexivity.
apply (mul_le_mono_nonneg_l 0.5); try assumption.
- exact (one_minus_finite rf' F').
- exact (one_minus_finite rf F).
- now apply sub_anti_r.
Qed.

End CoefficientOrder.

(** ** The squares of the velocities of the sweep *)

Lemma velocities_binary64_squares :
forallb (fun V => match pow2 V with
                  | Ok V2 => is_finite V2 && PrimFloat.leb 0 V2
                  | Raise _ => false
                  end) velocities_binary64 = true.
Proof. vm_compute. reflexivity. Qed.

Lemma velocities_binary64_squares_ordered :
forallb (fun p => match pow2 (fst p), pow2 (snd p) with
                  | Ok V2, Ok V2' =>
                      is_finite V2 && is_finite V2' && PrimFloat.leb V2 V2'
                  | _, _ => false
                  end) (adjacent velocities_binary64) = true.
Proof. vm_compute. reflexivity. Qed.

Lemma Forall2_nth_error_r {X Y : Type} (R : X -> Y -> Prop) xs ys :
Forall2 R xs ys ->
forall i y, nth_error ys i = Some y -> exists x, In x xs /\ R x y.
Proof.
induction 1 as [|x0 y0 xs ys HR HF IH]; intros [|i] y E; simpl in *;
  try discriminate.
- injection E as <-. eauto.
- destruct (IH i y E) as (x & I & Rx). eauto.
Qed.

Section CorrectionOrder.

(** The dynamic pressure [0.5 * rho * V**2] does not decrease with the
    density. *)
Lemma dynamic_pressure_mono_rho (rho rho' V2 : float) :
is_finite rho = true -> is_finite rho' = true ->
is_finite V2 = true -> PrimFloat.leb 0 V2 = true ->
PrimFloat.leb rho rho' = true ->
PrimFloat.leb (0.5 * rho * V2) (0.5 * rho' * V2) = true.
Proof.
intros Fr Fr' F2 L2 L.
assert (F5 : is_finite 0.5 = true) by reflexivity.
assert (P5 : PrimFloat.ltb 0 0.5 = true) by reflexivity.
apply mul_le_mono_nonneg_l; try assumption.
- exact (half_mul_finite rho Fr).
- exact (half_mul_finite rho' Fr').
- now apply mul_le_mono_pos_r.
Qed.

(** For a density that is not negative it does not decrease with the
    square of the velocity. *)
Lemma dynamic_pressure_mono_square (rho V2 V2' : float) :
is_finite rho = true -> PrimFloat.leb 0 rho = true ->
is_finite V2 = true -> is_finite V2' = true ->
PrimFloat.leb V2 V2' = true ->
PrimFloat.leb (0.5 * rho * V2) (0.5 * rho * V2') = true.
Proof.
intros Fr Lr F2 F2' L.
destruct (half_nonneg rho Fr Lr) as [Fc Lc].
now apply mul_le_mono_nonneg_r.
Qed.

Lemma dynamic_pressure_not_nan (rho V2 : float) :
is_finite rho = true -> is_finite V2 = true ->
PrimFloat.is_nan (0.5 * rho * V2) = false.
Proof.
intros Fr F2. apply mul_not_nan; [exact (half_mul_finite rho Fr)|exact F2].
Qed.

(** The kinetic term [c * V**2 / Cp] of a finite coefficient. *)
Lemma kinetic_term_not_nan (c V2 Cp : float) :
is_finite c = true -> is_finite V2 = true ->
is_finite Cp = true -> PrimFloat.ltb 0 Cp = true ->
PrimFloat.is_nan (c * V2 / Cp) = false.
Proof.
intros Fc F2 FC PC. apply div_not_nan; try assumption.
now apply mul_not_nan.
Qed.

Lemma kinetic_term_mono_square (c V2 V2' Cp : float) :
is_finite c = true -> PrimFloat.leb 0 c = true ->
is_finite V2 = true -> is_finite V2' = true ->
is_finite Cp = true -> PrimFloat.ltb 0 Cp = true ->
PrimFloat.leb V2 V2' = true ->
PrimFloat.leb (c * V2 / Cp) (c * V2' / Cp) = true.
Proof.
intros Fc Lc F2 F2' FC PC L.
apply div_le_mono_pos; try assumption.
now apply mul_le_mono_nonneg_r.
Qed.

Lemma product_nonneg (c V2 : float) :
is_finite c = true -> PrimFloat.leb 0 c = true ->
is_finite V2 = true -> PrimFloat.leb 0 V2 = true ->
PrimFloat.leb 0 (c * V2) = true.
Proof.
intros Fc Lc F2 L2.
apply is_finite_spec in Fc, F2. rewrite leb_spec in Lc, L2.
rewrite leb_spec, mul_spec.
change (Prim2SF 0) with (S754_zero false) in *.
destruct (SFmul_finite_sign _ _ Fc F2) as [N S].
destruct Fc as [sc|sc mc ec], F2 as [s2|s2 m2 e2];
  try (unfold SF64mul; cbn [SFmul]; destruct sc, s2; reflexivity).
destruct sc; [discriminate|]. destruct s2; [discriminate|].
cbn [SFsign xorb] in S.
destruct (SF64mul _ _) as [s|s| |s m e]; cbn [SFsign] in S; subst;
  try reflexivity; congruence.
Qed.

Lemma kinetic_term_anti_Cp (c V2 Cp Cp' : float) :
is_finite c = true -> PrimFloat.leb 0 c = true ->
is_finite V2 = true -> PrimFloat.leb 0 V2 = true ->
PrimFloat.ltb 0 Cp = true -> is_finite Cp' = true ->
PrimFloat.leb Cp Cp' = true ->
PrimFloat.leb (c * V2 / Cp') (c * V2 / Cp) = true.
Proof.
intros Fc Lc F2 L2 PC FC' L.
apply div_anti_divisor; try assumption.
now apply product_nonneg.
Qed.

(** A divisor above a positive one is positive. *)
Lemma positive_above (c c' : float) :
PrimFloat.ltb 0 c = true -> PrimFloat.leb c c' = true ->
PrimFloat.ltb 0 c' = true.
Proof.
rewrite !ltb_spec, leb_spec. change (Prim2SF 0) with (S754_zero false).
destruct (Prim2SF c) as [s|s| |s m e], (Prim2SF c') as [s'|s'| |s' m' e'];
  try discriminate; destruct s, s'; try discriminate; reflexivity.
Qed.

End CorrectionOrder.

(** * The error of one rounding *)

Section Closeness.
Local Open Scope Q_scope.

Lemma eta_pos : 0 < eta.
Proof. apply pow2_pos. Qed.

Lemma close_to_ext (Y Y' : Q) (r : spec_float) :
Y == Y' -> close_to Y r -> close_to Y' r.
Proof. intros E H F. rewrite <- E. now apply H. Qed.

Lemma close_to_zero (Y : Q) (s : bool) : Y == 0 -> close_to Y (S754_zero s).
Proof.
intros E _. rewrite E. cbn [SF2Q]. pose proof eta_pos.
setoid_replace (0 - 0) with 0 by ring.
change (Qabs 0) with 0. lra.
Qed.

(** The rounded mantissa [M] on the grid of [2^g]. *)
Lemma close_core (m1 M g : Z) (z : Q) :
inject_Z m1 <= z ->
Qabs (inject_Z M - z) <= 1 # 2 ->
(0 <= m1)%Z -> (-1074 < g -> 2 ^ 52 <= m1)%Z -> (-1074 <= g)%Z ->
Qabs (QV M g - z * 2 ^ g) <= (1 # 2 ^ 53) * (z * 2 ^ g) + eta.
Proof.
intros Hz HM Hm1 HN Hg.
pose proof (pow2_pos g) as P.
assert (Z0 : 0 <= z).
{ eapply Qle_trans; [|exact Hz]. change 0 with (inject_Z 0).
  now rewrite <- Zle_Qle. }
rewrite QV_distance.
assert (B : Qabs (inject_Z M - z) * 2 ^ g <= (1 # 2) * 2 ^ g)
  by (apply Qmult_le_compat_r; lra).
assert (Y0 : 0 <= z * 2 ^ g) by (apply Qmult_le_0_compat; lra).
destruct (Z.eq_dec g (-1074)) as [G|G].
- assert (E : (1 # 2) * 2 ^ g == eta).
  { subst g. unfold eta. change (-1075)%Z with (-1074 - 1)%Z.
    rewrite (pow2_pred (-1074)). ring. }
  rewrite E in B. change (1 # 2 ^ 53) with (1 # 9007199254740992). lra.
- assert (L : (2 ^ 52 <= m1)%Z) by (apply HN; lia).
  assert (Lz : inject_Z (2 ^ 52) <= z)
    by (eapply Qle_trans; [|exact Hz]; now rewrite <- Zle_Qle).
  change (inject_Z (2 ^ 52)) with (4503599627370496 # 1) in Lz.
  assert (H : (1 # 2) * 2 ^ g <= (1 # 2 ^ 53) * (z * 2 ^ g)).
  { setoid_replace ((1 # 2 ^ 53) * (z * 2 ^ g))
      with (((1 # 2 ^ 53) * z) * 2 ^ g) by ring.
    apply Qmult_le_compat_r; [|lra].
    change (1 # 2 ^ 53) with (1 # 9007199254740992). lra. }
  pose proof eta_pos. lra.
Qed.

(** The rounding of a located mantissa is close to the number it
    stands for. *)
Lemma binary_round_aux_close (s : bool) (m e : Z) (l : location) (x : Q) :
(0 <= m)%Z -> (e <= fexp64 (Zdigits2 m + e))%Z ->
located x m l ->
close_to (if s then - (x * 2 ^ e) else x * 2 ^ e)
  (binary_round_aux prec emax s m e l).
Proof.
intros Hm Hal Hx.
destruct (binary_round_aux_any s m e l Hm Hal)
  as (n & m1 & l1 & M & En & H0 & HF & HL & EM & Hm1 & Hm1u & Hm1l & HR).
assert (Hn : (0 <= n)%Z) by lia.
set (g := (e + n)%Z) in *.
assert (Hg : (-1074 <= g)%Z) by (unfold g, fexp64 in *; lia).
set (z := x / 2 ^ n).
pose proof (HL x Hx) as Lz. fold z in Lz.
destruct (located_bounds _ _ _ Lz) as [Z1 Z2].
destruct (round_nearest_even_located _ _ _ Lz) as [RM RE].
cbv zeta in RM, RE. rewrite <- EM in RM, RE.
pose proof (pow2_pos g) as Pg. pose proof (pow2_pos n) as Pn.
assert (Ey : x * 2 ^ e == z * 2 ^ g).
{ unfold z, g. rewrite pow2_add. field. lra. }
assert (Z0 : 0 <= z).
{ eapply Qle_trans; [|exact Z1]. change 0 with (inject_Z 0).
  now rewrite <- Zle_Qle. }
assert (Y0 : 0 <= z * 2 ^ g) by (apply Qmult_le_0_compat; lra).
pose proof (close_core m1 M g z Z1 RE Hm1 Hm1l Hg) as C.
assert (Hfin : forall r,
          SF2Q r == (if s then - QV M g else QV M g) ->
          close_to (if s then - (x * 2 ^ e) else x * 2 ^ e) r).
{ intros r Er _. rewrite Er.
  destruct s.
  - rewrite Ey, Qabs_opp, (Qabs_pos (z * 2 ^ g)) by exact Y0.
    setoid_replace (- QV M g - - (z * 2 ^ g))
      with (- (QV M g - z * 2 ^ g)) by ring.
    rewrite Qabs_opp. exact C.
  - rewrite Ey, (Qabs_pos (z * 2 ^ g)) by exact Y0. exact C. }
destruct M as [|q|q] eqn:EMq; [| |lia].
- rewrite HR. apply Hfin. cbn [SF2Q]. destruct s; rewrite QV_0; reflexivity.
- destruct (Z.eq_dec (Zpos q) (2 ^ 53)) as [C1|C1].
  + rewrite HR. destruct (g + 1 <=? 971)%Z eqn:Ee.
    * apply Hfin. cbn [SF2Q]. rewrite C1.
      assert (E2 : QV 4503599627370496 (g + 1) == QV (2 ^ 53) g).
      { rewrite <- (QV_scale 4503599627370496 1 g) by lia. reflexivity. }
      destruct s; cbn [cond_Zopp].
      -- change (Zneg 4503599627370496) with (- 4503599627370496)%Z.
         rewrite <- QV_opp, E2. reflexivity.
      -- exact E2.
    * intros F. inversion F.
  + destruct HR as [HR HB]. rewrite HR.
    destruct (g <=? 971)%Z eqn:Ee.
    * apply Hfin. cbn [SF2Q]. destruct s; cbn [cond_Zopp]; [|reflexivity].
      change (Zneg q) with (- Zpos q)%Z. now rewrite <- QV_opp.
    * intros F. inversion F.
Qed.

(** The product and the quotient of two finite numbers. *)
Lemma SFmul_close (x y : spec_float) :
SF_finite x -> SF_finite y ->
valid_binary x = true -> valid_binary y = true ->
close_to (SF2Q x * SF2Q y) (SF64mul x y).
Proof.
intros [sx|sx mx ex] [sy|sy my ey] Vx Vy; unfold SF64mul; cbn [SFmul];
  try (apply close_to_zero; cbn [SF2Q]; ring).
cbn [valid_binary] in Vx, Vy.
eapply close_to_ext;
  [|apply (binary_round_aux_close (xorb sx sy) (Zpos (mx * my)) (ex + ey)
             loc_Exact (inject_Z (Zpos (mx * my))));
    [lia| |apply located_exact]].
- rewrite !SF2Q_signed. unfold QV.
  destruct sx, sy; cbn [xorb];
    rewrite Pos2Z.inj_mul, inject_Z_mult, pow2_add; ring.
- cbn [Zdigits2].
  destruct (canonical_exponent _ _ Vx) as [Cx _],
    (canonical_exponent _ _ Vy) as [Cy _].
  pose proof (digits2_pos_mul mx my) as [D _].
  pose proof (Pos2Z.is_pos (digits2_pos mx)).
  pose proof (Pos2Z.is_pos (digits2_pos my)).
  unfold fexp64 in *. lia.
Qed.

Lemma SFdiv_close (x : spec_float) (sy : bool) (my : positive) (ey : Z) :
SF_finite x -> valid_binary x = true ->
close_to (SF2Q x / SF2Q (S754_finite sy my ey))
  (SF64div x (S754_finite sy my ey)).
Proof.
intros [sx|sx mx ex] Vx; unfold SF64div; cbn [SFdiv].
- apply close_to_zero. cbn [SF2Q]. unfold Qdiv. ring.
- destruct (SFdiv_core_spec mx my ex ey) as (q & e' & l & z & -> & Hq & Lz & Al & Ez).
  eapply close_to_ext;
    [|apply (binary_round_aux_close (xorb sx sy) q e' l z); assumption].
  rewrite !SF2Q_signed.
  pose proof (QV_pos my ey).
  destruct sx, sy; cbn [xorb]; rewrite Ez; field; lra.
Qed.

End Closeness.

Section FloatErrors.
Local Open Scope Q_scope.

Lemma eta_small : eta <= 1 # 1000000000000000000000000000000.
Proof. unfold eta. vm_compute. discriminate. Qed.

(** A finite product is within a relative error of [2^-53], and
    [2^-1075], of the exact one. *)
Lemma mul_close (x y : float) :
is_finite (x * y)%float = true ->
Qabs (F2Q (x * y)%float - F2Q x * F2Q y)
<= (1 # 2 ^ 53) * Qabs (F2Q x * F2Q y) + eta.
Proof.
intros F. destruct (mul_finite_inv x y F) as [Fx Fy].
apply is_finite_spec in Fx, Fy, F.
pose proof (SFmul_close _ _ Fx Fy (Prim2SF_valid x) (Prim2SF_valid y)) as C.
rewrite <- mul_spec in C. exact (C F).
Qed.

(** So is a finite quotient by a finite number other than zero. *)
Lemma div_close (x y : float) :
is_finite (x / y)%float = true ->
is_finite y = true -> (y == lit 0)%py = false ->
Qabs (F2Q (x / y)%float - F2Q x / F2Q y)
<= (1 # 2 ^ 53) * Qabs (F2Q x / F2Q y) + eta.
Proof.
intros F Fy Zy. pose proof (div_finite_inv x y F) as Fx.
apply is_finite_spec in Fx, Fy, F.
assert (E : exists sy my ey, Prim2SF y = S754_finite sy my ey).
{ destruct (Prim2SF y) as [sy|sy| |sy my ey] eqn:Ey;
    try (now inversion Fy); [|eauto].
  exfalso. apply not_true_iff_false in Zy. apply Zy.
  apply eqb_zero_spec. eauto. }
destruct E as (sy & my & ey & Ey).
pose proof (SFdiv_close _ sy my ey Fx (Prim2SF_valid x)) as C.
rewrite <- Ey, <- div_spec in C. exact (C F).
Qed.

Lemma leb_to_Qle (a b : float) :
is_finite a = true -> is_finite b = true ->
PrimFloat.leb a b = true -> F2Q a <= F2Q b.
Proof.
intros Fa Fb. rewrite leb_spec. apply is_finite_spec in Fa, Fb.
apply SFleb_to_le; try assumption; apply Prim2SF_valid.
Qed.

Lemma SFcompare_antisym (x y : spec_float) :
SFcompare y x = option_map CompOpp (SFcompare x y).
Proof.
destruct x as [sx|sx| |sx mx ex], y as [sy|sy| |sy my ey];
  cbn [SFcompare option_map]; try reflexivity;
  try (destruct sx; reflexivity); try (destruct sy; reflexivity);
  try (destruct sx, sy; reflexivity).
assert (E : Pos.compare_cont Eq my mx
            = CompOpp (Pos.compare_cont Eq mx my))
  by (symmetry; apply (Pos.compare_cont_antisym mx my Eq)).
rewrite (Z.compare_antisym ex ey), E.
destruct sx, sy; try reflexivity;
  destruct (ex ?= ey)%Z; cbn [CompOpp]; try reflexivity;
  destruct (Pos.compare_cont Eq mx my); reflexivity.
Qed.

(** A finite number of smaller value is smaller. *)
Lemma Qlt_to_ltb (a b : float) :
is_finite a = true -> is_finite b = true ->
F2Q a < F2Q b -> PrimFloat.ltb a b = true.
Proof.
intros Fa Fb H. rewrite ltb_spec. apply is_finite_spec in Fa, Fb.
destruct (SFleb (Prim2SF b) (Prim2SF a)) eqn:L.
- pose proof (SFleb_to_le _ _ Fb Fa (Prim2SF_valid b) (Prim2SF_valid a) L).
  unfold F2Q in H. lra.
- unfold SFleb in L. unfold SFltb.
  rewrite (SFcompare_antisym (Prim2SF a) (Prim2SF b)) in L.
  destruct (SFcompare (Prim2SF a) (Prim2SF b)) as [[| |]|] eqn:C;
    cbn [option_map CompOpp] in L; try discriminate; try reflexivity.
  exfalso. destruct Fa, Fb; discriminate.
Qed.

(** A number between two finite ones is finite. *)
Lemma finite_between (lo x hi : float) :
is_finite lo = true -> is_finite hi = true ->
PrimFloat.leb lo x = true -> PrimFloat.leb x hi = true ->
is_finite x = true.
Proof.
intros Fl Fh. rewrite !leb_spec. apply is_finite_spec in Fl, Fh.
rewrite is_finite_spec.
destruct (Prim2SF x) as [s|s| |s m e]; intros L1 L2; try constructor.
- destruct s.
  + destruct Fl as [sl|sl ml el]; try discriminate; destruct sl; discriminate.
  + destruct Fh as [sh|sh mh eh]; try discriminate; destruct sh; discriminate.
- destruct Fl; discriminate.
Qed.

Lemma leb_trans_finite (a b c : float) :
is_finite a = true -> is_finite b = true -> is_finite c = true ->
PrimFloat.leb a b = true -> PrimFloat.leb b c = true ->
PrimFloat.leb a c = true.
Proof.
intros Fa Fb Fc L1 L2.
pose proof (leb_to_Qle a b Fa Fb L1). pose proof (leb_to_Qle b c Fb Fc L2).
rewrite leb_spec. apply is_finite_spec in Fa, Fc.
apply SFleb_of_le; try assumption; try apply Prim2SF_valid.
unfold F2Q in *. lra.
Qed.

(** One step of a computation that keeps the order: between two inputs
    whose results are finite the result is finite, and between their
    results. *)
Lemma monotone_step (f : float -> float) (lo x hi : float) :
(forall a b, PrimFloat.leb a b = true -> PrimFloat.leb (f a) (f b) = true) ->
is_finite (f lo) = true -> is_finite (f hi) = true ->
PrimFloat.leb lo x = true -> PrimFloat.leb x hi = true ->
is_finite (f x) = true /\
PrimFloat.leb (f lo) (f x) = true /\ PrimFloat.leb (f x) (f hi) = true.
Proof.
intros M Fl Fh L1 L2.
pose proof (M _ _ L1) as M1. pose proof (M _ _ L2) as M2.
split; [|split; assumption].
exact (finite_between _ _ _ Fl Fh M1 M2).
Qed.

(** The error bounds, without absolute values. *)
Lemma relative_bound (r Y : Q) :
0 <= Y -> Qabs (r - Y) * 2 ^ 53 <= Qabs Y ->
- ((1 # 9007199254740992) * Y) <= r - Y <= (1 # 9007199254740992) * Y.
Proof.
intros H0 H. rewrite (Qabs_pos Y) in H by exact H0.
change (2 ^ 53) with (9007199254740992 # 1) in H.
apply Qabs_Qle_condition.
pose proof (Qabs_nonneg (r - Y)). lra.
Qed.

Lemma close_bound (r Y : Q) :
0 <= Y -> Qabs (r - Y) <= (1 # 2 ^ 53) * Qabs Y + eta ->
- ((1 # 9007199254740992) * Y + (1 # 1000000000000000000000000000000))
<= r - Y
<= (1 # 9007199254740992) * Y + (1 # 1000000000000000000000000000000).
Proof.
intros H0 H. rewrite (Qabs_pos Y) in H by exact H0.
change (1 # 2 ^ 53) with (1 # 9007199254740992) in H.
pose proof eta_small.
apply Qabs_Qle_condition. lra.
Qed.

End FloatErrors.

(** ** The roundings of the pressure loop *)

Section PressureStrict.
Local Open Scope Q_scope.

Lemma F2Q_zero : F2Q 0 == 0.
Proof. reflexivity. Qed.

(** The six roundings of one pass of the pressure loop, for a density
    between 0 and [1e303] and a square between 0 and [90000]: every
    intermediate result is finite, and each is within half a unit in the
    last place of the exact result of its operation. *)
Lemma relative_difference_enclosure (rho s : float) :
is_finite rho = true ->
PrimFloat.leb 0 rho = true -> PrimFloat.leb rho 1e303 = true ->
is_finite s = true ->
PrimFloat.leb 0 s = true -> PrimFloat.leb s 90000 = true ->
is_finite (relative_difference_of rho s) = true /\
exists p q A B C D E : Q,
  p == F2Q (0.5 * rho) * F2Q s /\
  E == F2Q (relative_difference_of rho s) /\
  0 <= p /\ 0 <= q /\ 100000 <= A /\ 1 <= B /\ 0 <= C /\ 0 <= D /\
  - ((1 # 9007199254740992) * p + (1 # 1000000000000000000000000000000))
    <= q - p
    <= (1 # 9007199254740992) * p + (1 # 1000000000000000000000000000000) /\
  - ((1 # 9007199254740992) * (100000 + q))
    <= A - (100000 + q)
    <= (1 # 9007199254740992) * (100000 + q) /\
  - ((1 # 9007199254740992) * (A / 100000)
     + (1 # 1000000000000000000000000000000))
    <= B - A / 100000
    <= (1 # 9007199254740992) * (A / 100000)
       + (1 # 1000000000000000000000000000000) /\
  - ((1 # 9007199254740992) * (B - 1))
    <= C - (B - 1)
    <= (1 # 9007199254740992) * (B - 1) /\
  - ((1 # 9007199254740992) * (100 * C)
     + (1 # 1000000000000000000000000000000))
    <= D - 100 * C
    <= (1 # 9007199254740992) * (100 * C)
       + (1 # 1000000000000000000000000000000) /\
  - ((1 # 9007199254740992) * D + (1 # 1000000000000000000000000000000))
    <= E - D
    <= (1 # 9007199254740992) * D + (1 # 1000000000000000000000000000000).
Proof.
intros Fr Lr Ur Fs Ls Us.
destruct (half_nonneg rho Fr Lr) as [Fh Lh].
change (lit 0.5 * rho)%py with (0.5 * rho)%float in Fh, Lh.
set (h := (0.5 * rho)%float) in *.
change (relative_difference_of rho s)
  with ((100 * ((100000 + h * s) / 100000 - 1) / 1)%float).
set (q := (h * s)%float).
(* the dynamic pressure is finite *)
assert (F0 : is_finite 0 = true) by reflexivity.
assert (F9 : is_finite 90000 = true) by reflexivity.
assert (Lq : PrimFloat.leb 0 q = true) by now apply product_nonneg.
assert (Uh : PrimFloat.leb h (0.5 * 1e303) = true).
{ apply mul_le_mono_pos_r; [reflexivity|reflexivity|exact Ur]. }
assert (Fq9 : is_finite (h * 90000) = true).
{ apply (finite_between 0 _ (0.5 * 1e303 * 90000)); [reflexivity|reflexivity| |].
  - now apply product_nonneg.
  - apply mul_le_mono_nonneg_l; try assumption; reflexivity. }
assert (Uq1 : PrimFloat.leb q (h * 90000) = true)
  by (apply mul_le_mono_nonneg_r; assumption).
assert (Fq : is_finite q = true)
  by exact (finite_between 0 _ _ F0 Fq9 Lq Uq1).
assert (Uq : PrimFloat.leb q (0.5 * 1e303 * 90000) = true).
{ apply (leb_trans_finite _ (h * 90000)); try assumption.
  apply mul_le_mono_nonneg_l; try assumption; reflexivity. }
(* the five steps that follow *)
set (qh := (0.5 * 1e303 * 90000)%float) in *.
assert (M1 : forall a b, PrimFloat.leb a b = true ->
             PrimFloat.leb (100000 + a) (100000 + b) = true)
  by (intros a b; now apply add_le_mono_r).
assert (M2 : forall a b, PrimFloat.leb a b = true ->
             PrimFloat.leb (a / 100000) (b / 100000) = true)
  by (intros a b; now apply div_le_mono_pos).
assert (M3 : forall a b, PrimFloat.leb a b = true ->
             PrimFloat.leb (a - 1) (b - 1) = true)
  by (intros a b; now apply sub_le_mono_l).
assert (M4 : forall a b, PrimFloat.leb a b = true ->
             PrimFloat.leb (100 * a) (100 * b) = true)
  by (intros a b; now apply mul_le_mono_pos_r).
assert (M5 : forall a b, PrimFloat.leb a b = true ->
             PrimFloat.leb (a / 1) (b / 1) = true)
  by (intros a b; now apply div_le_mono_pos).
assert (G1 : is_finite (100000 + 0) = true) by reflexivity.
assert (H1 : is_finite (100000 + qh) = true) by reflexivity.
destruct (monotone_step (fun x => 100000 + x)%float 0 q qh M1 G1 H1 Lq Uq)
  as (FA & LA & UA).
set (A := (100000 + q)%float) in *.
assert (G2 : is_finite ((100000 + 0) / 100000) = true) by reflexivity.
assert (H2 : is_finite ((100000 + qh) / 100000) = true) by reflexivity.
destruct (monotone_step (fun x => x / 100000)%float (100000 + 0) A
            (100000 + qh) M2 G2 H2 LA UA)
  as (FB & LB & UB).
set (B := (A / 100000)%float) in *.
assert (G3 : is_finite ((100000 + 0) / 100000 - 1) = true) by reflexivity.
assert (H3 : is_finite ((100000 + qh) / 100000 - 1) = true) by reflexivity.
destruct (monotone_step (fun x => x - 1)%float ((100000 + 0) / 100000) B
            ((100000 + qh) / 100000) M3 G3 H3 LB UB)
  as (FC & LC & UC).
set (C := (B - 1)%float) in *.
assert (G4 : is_finite (100 * ((100000 + 0) / 100000 - 1)) = true)
  by reflexivity.
assert (H4 : is_finite (100 * ((100000 + qh) / 100000 - 1)) = true)
  by reflexivity.
destruct (monotone_step (fun x => 100 * x)%float
            ((100000 + 0) / 100000 - 1) C
            ((100000 + qh) / 100000 - 1) M4 G4 H4 LC UC)
  as (FD & LD & UD).
set (D := (100 * C)%float) in *.
assert (G5 : is_finite (100 * ((100000 + 0) / 100000 - 1) / 1) = true)
  by reflexivity.
assert (H5 : is_finite (100 * ((100000 + qh) / 100000 - 1) / 1) = true)
  by reflexivity.
destruct (monotone_step (fun x => x / 1)%float
            (100 * ((100000 + 0) / 100000 - 1)) D
            (100 * ((100000 + qh) / 100000 - 1)) M5 G5 H5 LD UD)
  as (FE & LE & UE).
split; [exact FE|].
(* the values *)
pose proof (leb_to_Qle _ _ F0 Fh Lh) as Qh.
pose proof (leb_to_Qle _ _ F0 Fs Ls) as Qs.
pose proof (leb_to_Qle _ _ F0 Fq Lq) as Qq.
pose proof (leb_to_Qle _ _ G1 FA LA) as QA.
pose proof (leb_to_Qle _ _ G2 FB LB) as QB.
pose proof (leb_to_Qle _ _ G3 FC LC) as QC.
pose proof (leb_to_Qle _ _ G4 FD LD) as QD.
rewrite F2Q_zero in Qh, Qs, Qq.
assert (E1 : F2Q (100000 + 0) == 100000) by (vm_compute; reflexivity).
assert (E2 : F2Q ((100000 + 0) / 100000) == 1) by (vm_compute; reflexivity).
assert (E3 : F2Q ((100000 + 0) / 100000 - 1) == 0) by (vm_compute; reflexivity).
assert (E4 : F2Q (100 * ((100000 + 0) / 100000 - 1)) == 0)
  by (vm_compute; reflexivity).
rewrite E1 in QA. rewrite E2 in QB. rewrite E3 in QC. rewrite E4 in QD.
assert (K5 : F2Q 100000 == 100000) by (vm_compute; reflexivity).
assert (T5 : is_finite 100000 = true) by reflexivity.
assert (N5 : (100000%float == lit 0)%py = false) by reflexivity.
assert (T1 : is_finite 1 = true) by reflexivity.
assert (N1 : (1%float == lit 0)%py = false) by reflexivity.
assert (K1 : F2Q 1 == 1) by (vm_compute; reflexivity).
assert (K2 : F2Q 100 == 100) by (vm_compute; reflexivity).
assert (P0 : 0 <= F2Q h * F2Q s) by (apply Qmult_le_0_compat; assumption).
exists (F2Q h * F2Q s), (F2Q q), (F2Q A), (F2Q B), (F2Q C), (F2Q D),
  (F2Q (D / 1)).
split; [reflexivity|]. split; [reflexivity|].
repeat (split; [assumption|]).
split; [|split; [|split; [|split; [|split]]]].
- apply close_bound; [exact P0|]. now apply mul_close.
- pose proof (add_error 100000 q FA) as H. rewrite K5 in H.
  apply relative_bound; [lra|exact H].
- pose proof (div_close A 100000 FB T5 N5) as H. rewrite K5 in H.
  apply close_bound; [|exact H].
  unfold Qdiv. apply Qmult_le_0_compat; [lra|].
  apply Qinv_le_0_compat. lra.
- pose proof (sub_error B 1 FC) as H. rewrite K1 in H.
  apply relative_bound; [lra|exact H].
- pose proof (mul_close 100 C FD) as H. rewrite K2 in H.
  apply close_bound; [lra|exact H].
- pose proof (div_close D 1 FE T1 N1) as H. rewrite K1 in H.
  assert (X : F2Q D / 1 == F2Q D) by (field).
  rewrite X in H.
  apply close_bound; [lra|exact H].
Qed.

End PressureStrict.

Section PressureStrict2.
Local Open Scope Q_scope.

(** The order of two results of the pressure expression, from the error
    bounds of their six roundings. *)
Lemma pressure_expression_gap (p q A B C D E p' q' A' B' C' D' E' : Q) :
0 <= p -> 0 <= q -> 100000 <= A -> 1 <= B -> 0 <= C -> 0 <= D ->
  - ((1 # 9007199254740992) * p + (1 # 1000000000000000000000000000000))
    <= q - p
    <= (1 # 9007199254740992) * p + (1 # 1000000000000000000000000000000) ->
  - ((1 # 9007199254740992) * (100000 + q))
    <= A - (100000 + q)
    <= (1 # 9007199254740992) * (100000 + q) ->
  - ((1 # 9007199254740992) * (A * (1 # 100000))
     + (1 # 1000000000000000000000000000000))
    <= B - A * (1 # 100000)
    <= (1 # 9007199254740992) * (A * (1 # 100000))
       + (1 # 1000000000000000000000000000000) ->
  - ((1 # 9007199254740992) * (B - 1))
    <= C - (B - 1)
    <= (1 # 9007199254740992) * (B - 1) ->
  - ((1 # 9007199254740992) * (100 * C)
     + (1 # 1000000000000000000000000000000))
    <= D - 100 * C
    <= (1 # 9007199254740992) * (100 * C)
       + (1 # 1000000000000000000000000000000) ->
  - ((1 # 9007199254740992) * D + (1 # 1000000000000000000000000000000))
    <= E - D
    <= (1 # 9007199254740992) * D + (1 # 1000000000000000000000000000000) ->
0 <= p' -> 0 <= q' -> 100000 <= A' -> 1 <= B' -> 0 <= C' -> 0 <= D' ->
  - ((1 # 9007199254740992) * p' + (1 # 1000000000000000000000000000000))
    <= q' - p'
    <= (1 # 9007199254740992) * p' + (1 # 1000000000000000000000000000000) ->
  - ((1 # 9007199254740992) * (100000 + q'))
    <= A' - (100000 + q')
    <= (1 # 9007199254740992) * (100000 + q') ->
  - ((1 # 9007199254740992) * (A' * (1 # 100000))
     + (1 # 1000000000000000000000000000000))
    <= B' - A' * (1 # 100000)
    <= (1 # 9007199254740992) * (A' * (1 # 100000))
       + (1 # 1000000000000000000000000000000) ->
  - ((1 # 9007199254740992) * (B' - 1))
    <= C' - (B' - 1)
    <= (1 # 9007199254740992) * (B' - 1) ->
  - ((1 # 9007199254740992) * (100 * C')
     + (1 # 1000000000000000000000000000000))
    <= D' - 100 * C'
    <= (1 # 9007199254740992) * (100 * C')
       + (1 # 1000000000000000000000000000000) ->
  - ((1 # 9007199254740992) * D' + (1 # 1000000000000000000000000000000))
    <= E' - D'
    <= (1 # 9007199254740992) * D' + (1 # 1000000000000000000000000000000) ->
p + 9 * (4 # 100000000000) <= p' -> (102 # 100) * p <= p' ->
E < E'.
Proof. intros. lra. Qed.

Lemma product_gap (H S S' : Q) :
4 # 100000000000 <= H -> S + 9 <= S' ->
H * S + 9 * (4 # 100000000000) <= H * S'.
Proof. intros. nra. Qed.

Lemma product_ratio (H S S' : Q) :
0 <= H -> (102 # 100) * S <= S' -> (102 # 100) * (H * S) <= H * S'.
Proof. intros. nra. Qed.

(** Half a density of at least [1e-10]. *)
Lemma half_density_bound (rho : float) :
is_finite rho = true -> PrimFloat.leb 1e-10 rho = true ->
PrimFloat.leb 0 rho = true /\ 4 # 100000000000 <= F2Q (0.5 * rho).
Proof.
intros Fr Lr.
assert (F1 : is_finite 1e-10 = true) by reflexivity.
assert (F0 : is_finite 0 = true) by reflexivity.
assert (L0 : PrimFloat.leb 0 1e-10 = true) by reflexivity.
pose proof (leb_trans_finite _ _ _ F0 F1 Fr L0 Lr) as L.
split; [exact L|].
pose proof (leb_to_Qle _ _ F1 Fr Lr) as Q1.
assert (B : 9 # 100000000000 <= F2Q 1e-10) by (vm_compute; discriminate).
pose proof (half_mul_finite rho Fr) as Fh.
change (lit 0.5 * rho)%py with (0.5 * rho)%float in Fh.
pose proof (mul_close 0.5 rho Fh) as C.
assert (K : F2Q 0.5 == 1 # 2) by (vm_compute; reflexivity).
rewrite K in C. apply close_bound in C; [|lra]. lra.
Qed.

(** Two squares far enough apart give different relative differences,
    for every density between [1e-10] and [1e303]. *)
Lemma relative_difference_strict (rho s s' : float) :
is_finite rho = true ->
PrimFloat.leb 1e-10 rho = true -> PrimFloat.leb rho 1e303 = true ->
is_finite s = true ->
PrimFloat.leb 0 s = true -> PrimFloat.leb s 90000 = true ->
is_finite s' = true ->
PrimFloat.leb 0 s' = true -> PrimFloat.leb s' 90000 = true ->
F2Q s + 9 <= F2Q s' -> (102 # 100) * F2Q s <= F2Q s' ->
PrimFloat.ltb (relative_difference_of rho s) (relative_difference_of rho s')
= true.
Proof.
intros Fr Lr Ur Fs Ls Us Fs' Ls' Us' G1 G2.
destruct (half_density_bound rho Fr Lr) as [L0 Hh].
destruct (relative_difference_enclosure rho s Fr L0 Ur Fs Ls Us)
  as (FE & p & q & A & B & C & D & E & Ep & EE & P0 & Q0 & A0 & B0 & C0 & D0
      & Rq & RA & RB & RC & RD & RE).
destruct (relative_difference_enclosure rho s' Fr L0 Ur Fs' Ls' Us')
  as (FE' & p' & q' & A' & B' & C' & D' & E' & Ep' & EE' & P0' & Q0' & A0'
      & B0' & C0' & D0' & Rq' & RA' & RB' & RC' & RD' & RE').
assert (F0 : is_finite 0 = true) by reflexivity.
pose proof (leb_to_Qle _ _ F0 Fs Ls) as S0. rewrite F2Q_zero in S0.
set (H := F2Q (0.5 * rho)) in *.
set (S := F2Q s) in *. set (S' := F2Q s') in *.
assert (X1 : p + 9 * (4 # 100000000000) <= p').
{ rewrite Ep, Ep'. now apply product_gap. }
assert (X2 : (102 # 100) * p <= p').
{ rewrite Ep, Ep'. apply product_ratio; [lra|exact G2]. }
apply Qlt_to_ltb; [exact FE|exact FE'|].
rewrite <- EE, <- EE'.
unfold Qdiv in RB, RB'.
change (/ 100000) with (1 # 100000) in RB, RB'.
exact (pressure_expression_gap p q A B C D E p' q' A' B' C' D' E'
         P0 Q0 A0 B0 C0 D0 Rq RA RB RC RD RE
         P0' Q0' A0' B0' C0' D0' Rq' RA' RB' RC' RD' RE' X1 X2).
Qed.

End PressureStrict2.

(** The squares of consecutive velocities of the sweep lie between 0 and
    90000, at least 9 apart and at least 2 percent apart. *)
Lemma velocities_binary64_squares_apart :
forallb (fun p =>
           match pow2 (fst p), pow2 (snd p) with
           | Ok s, Ok s' =>
               is_finite s && PrimFloat.leb 0 s && PrimFloat.leb s 90000
               && is_finite s' && PrimFloat.leb 0 s'
               && PrimFloat.leb s' 90000
               && Qle_bool (F2Q s + 9) (F2Q s')
               && Qle_bool ((102 # 100) * F2Q s) (F2Q s')
           | _, _ => false
           end) (adjacent velocities_binary64) = true.
Proof. vm_compute. reflexivity. Qed.

(** ** The sweeps on [numpy.float64] values *)

Section NumPyArithmetic.

Lemma for_each_ext {S X : Type} (f g : X -> S -> res S) xs s :
(forall x s', In x xs -> f x s' = g x s') ->
for_each xs f s = for_each xs g s.
Proof.
revert s. induction xs as [|x xs IH]; intros s E; simpl; [reflexivity|].
rewrite (E x s) by now left.
destruct (g x s) as [s'|e]; simpl; [|reflexivity].
apply IH. intros y t I. apply E. now right.
Qed.

(** Where Python's [**] returns, NumPy's returns the same number. *)
Lemma square_numpy (V : float) :
ok (pow2 V) = true -> @pow2 float NumPy.float64_PyNum V = pow2 V.
Proof.
change (@pow2 float float_PyNum V) with (Binary64.square V).
change (@pow2 float NumPy.float64_PyNum V) with (NumPy.square V).
unfold Binary64.square, NumPy.square.
destruct (is_finite V && PrimFloat.is_infinity (V * V)); [discriminate|].
reflexivity.
Qed.

(** So does the division by a number other than zero. *)
Lemma div_numpy (x y : float) :
(y == lit 0)%py = false -> @div float NumPy.float64_PyNum x y = div x y.
Proof.
intros Z. rewrite (binary64_div_nonzero _ _ Z). reflexivity.
Qed.

Lemma pressure_body_numpy (gp : GasProperties float) (V : float)
    (s : PressureLists float) :
ok (pow2 V) = true ->
@pressure_body float NumPy.float64_PyNum gp V s = pressure_body gp V s.
Proof.
intros HV. pose proof (square_numpy V HV) as E.
apply ok_returns in HV. destruct HV as [V2 EV]. rewrite EV in E.
unfold pressure_body, static_to_total_pressure. rewrite E, EV. cbn [bind].
rewrite binary64_div_nonzero by reflexivity. cbn [bind].
rewrite binary64_div_nonzero by reflexivity. reflexivity.
Qed.

Lemma temperature_body_numpy (V : float) (s : TemperatureLists float) :
ok (pow2 V) = true ->
@temperature_body float NumPy.float64_PyNum V s = temperature_body V s.
Proof.
intros HV. pose proof (square_numpy V HV) as E.
apply ok_returns in HV. destruct HV as [V2 EV]. rewrite EV in E.
unfold temperature_body, total_to_static_temperature.
rewrite E, EV. cbn [bind].
rewrite binary64_div_nonzero by reflexivity. cbn [bind].
rewrite binary64_div_nonzero by reflexivity. reflexivity.
Qed.

Lemma linspace_numpy :
@linspace float NumPy.float64_PyNum
  (@lit float NumPy.float64_PyNum 0) (@lit float NumPy.float64_PyNum 300) 100
= Ok velocities_binary64.
Proof. vm_compute. reflexivity. Qed.

(** The pressure loop over the velocities of the sweep, for any density
    and from any lists. *)
Lemma pressure_loop_numpy (gp : GasProperties float)
    (s : PressureLists float) :
for_each velocities_binary64 (@pressure_body float NumPy.float64_PyNum gp) s
= for_each velocities_binary64 (pressure_body gp) s.
Proof.
apply for_each_ext. intros V s' HIn. apply pressure_body_numpy.
pose proof velocities_binary64_square as F.
rewrite forallb_forall in F. now apply F.
Qed.

Lemma temperature_loop_numpy (s : TemperatureLists float) :
for_each velocities_binary64 (@temperature_body float NumPy.float64_PyNum) s
= for_each velocities_binary64 temperature_body s.
Proof.
apply for_each_ext. intros V s' HIn. apply temperature_body_numpy.
pose proof velocities_binary64_square as F.
rewrite forallb_forall in F. now apply F.
Qed.

Lemma pressure_script_numpy
    (calculate_from_PT :
       Composition float -> float -> float -> res (GasProperties float)) :
@pressure_script float NumPy.float64_PyNum calculate_from_PT
= pressure_script calculate_from_PT.
Proof.
unfold pressure_script.
change (@P_static float NumPy.float64_PyNum) with (@P_static float _).
change (@T float NumPy.float64_PyNum) with (@T float _).
change (@composition float NumPy.float64_PyNum) with (@composition float _).
destruct (calculate_from_PT composition P_static T) as [gp|e];
  cbn [bind]; [|reflexivity].
rewrite linspace_numpy, linspace_binary64. cbn [bind].
now rewrite pressure_loop_numpy.
Qed.

Lemma temperature_script_numpy :
@temperature_script float NumPy.float64_PyNum = temperature_script.
Proof.
unfold temperature_script.
rewrite linspace_numpy, linspace_binary64. cbn [bind].
now rewrite temperature_loop_numpy.
Qed.

(** On [numpy.float64] values no pass of the temperature loop raises,
    whatever the velocity is. *)
Lemma temperature_loop_numpy_returns (vs : list float)
    (s : TemperatureLists float) :
returns (for_each vs (@temperature_body float NumPy.float64_PyNum) s).
Proof.
apply for_each_returns. intros V s' _.
unfold temperature_body, total_to_static_temperature.
change (@pow2 float NumPy.float64_PyNum V) with (Ok (V * V)%float).
cbn [bind].
change (@div float NumPy.float64_PyNum ?x ?y) with (Ok (x / y)%float).
cbn [bind]. eexists. reflexivity.
Qed.

(** A quotient by zero is an infinity or NaN, and so is what it is added
    to or taken from. *)
Lemma div_zero_not_finite (x c : float) :
(c == lit 0)%py = true -> is_finite (x / c) = false.
Proof.
intros Z. apply eqb_zero_spec in Z. destruct Z as [s Es].
apply not_true_is_false. rewrite is_finite_spec, div_spec, Es.
destruct (Prim2SF x) as [sx|sx| |sx mx ex]; unfold SF64div; cbn [SFdiv];
  intros F; inversion F.
Qed.

Lemma add_not_finite (x k : float) :
is_finite k = false -> is_finite (x + k) = false.
Proof.
intros N. apply not_true_is_false. intros F.
apply add_finite_inv in F. destruct F as [_ F]. congruence.
Qed.

Lemma sub_not_finite (x k : float) :
is_finite k = false -> is_finite (x - k) = false.
Proof.
intros N. apply not_true_is_false. intros F.
apply sub_finite_inv in F. destruct F as [_ F]. congruence.
Qed.

(** On [numpy.float64] values the three temperature conversions return
    for every argument; with a zero [Cp] what they return is an infinity
    or NaN. *)
Lemma numpy_conversions_return (T V Cp rf : float) :
@all_three float NumPy.float64_PyNum
  (fun m => exists r, m = Ok r /\
                      ((Cp == lit 0)%py = true -> is_finite r = false))
  T V Cp rf.
Proof.
unfold all_three, static_to_total_temperature, total_to_static_temperature,
  measured_to_total_temperature.
change (@pow2 float NumPy.float64_PyNum V) with (Ok (V * V)%float).
cbn [bind].
change (@div float NumPy.float64_PyNum ?x ?y) with (Ok (x / y)%float).
cbn [bind].
repeat split; eexists; (split; [reflexivity|]); intros Z.
- apply add_not_finite. now apply div_zero_not_finite.
- apply sub_not_finite. now apply div_zero_not_finite.
- apply sub_not_finite. now apply div_zero_not_finite.
Qed.

End NumPyArithmetic.

(** The recorded differences of the binary64 run equal the rounded
    corrections at the first index and nowhere else. *)
Lemma temperature_differences_equal_at_rest :
match temperature_script with
| Ok run =>
    forallb (fun p =>
               match kinetic_correction (fst (snd p)) with
               | Ok k => Bool.eqb (PrimFloat.eqb (snd (snd p)) k)
                           (Nat.eqb (fst p) 0)
               | Raise _ => false
               end)
      (indexed (combine (tr_velocities run)
                  (T_diff_measured_static (tr_lists run))))
| Raise _ => false
end = true.
Proof. vm_compute. reflexivity. Qed.

Lemma nth_error_combine_intro {X Y : Type} (xs : list X) (ys : list Y) i x y :
nth_error xs i = Some x -> nth_error ys i = Some y ->
nth_error (combine xs ys) i = Some (x, y).
Proof.
revert ys i. induction xs as [|x0 xs IH]; intros [|y0 ys] [|i] Ex Ey;
  simpl in *; try discriminate.
- injection Ex as <-. injection Ey as <-. reflexivity.
- auto.
Qed.

(** * The claims *)

(** ** Round trips *)

(** C1, as stated, fails on binary64: with [P = 101.3], [V = 10] and
    [rho = 0.8] the round trip returns a number that [==] tells apart
    from [P] (and [P = 0.1], [V = 1], [rho = 1] gives
    [0.09999999999999998]). *)
Lemma pressure_round_trip_binary64_differs :
(lit 0 <=? 10%float)%py = true /\ (lit 0 <? 0.8%float)%py = true /\
returns_neq (pressure_round_trip 101.3%float 10%float 0.8%float) 101.3%float /\
pressure_round_trip 0.1%float 1%float 1%float = Ok 0.099999999999999978%float.
Proof.
repeat split; try reflexivity.
eexists. split; reflexivity.
Qed.

(** C1, amended: [total_to_static_pressure] undoes
    [static_to_total_pressure] up to rounding.  Whenever [V ** 2] returns,
    the round trip returns a number [r], and if [r] is finite it is
    within [3 * 2^-53 * (|P| + |k|)] of [P], where [k] is the rounded
    dynamic pressure [0.5 * rho * V**2].  Read in exact arithmetic the
    round trip returns [P] itself, for every [P], [V] and [rho]. *)
Theorem pressure_round_trip_tolerance :
(forall P V rho V2 : float,
    pow2 V = Ok V2 ->
    exists r,
      pressure_round_trip P V rho = Ok r /\
      (is_finite r = true ->
       (Qabs (F2Q r - F2Q P)
        <= (3 # 2 ^ 53)
           * (Qabs (F2Q P) + Qabs (F2Q (lit 0.5 * rho * V2)%py)))%Q)) /\
(forall P V rho : Q, returns_eq (pressure_round_trip P V rho) P).
Proof.
split.
- intros P V rho V2 EV.
  assert (E : pressure_round_trip P V rho
              = Ok ((P + lit 0.5 * rho * V2) - lit 0.5 * rho * V2)%py).
  { unfold pressure_round_trip, static_to_total_pressure,
      total_to_static_pressure. rewrite EV. reflexivity. }
  eexists. split; [exact E|].
  intros F. eapply pressure_round_trip_error; eassumption.
- apply exact_pressure_round_trip.
Qed.

Lemma pressure_round_trip_tolerance_witness :
exists r,
  pressure_round_trip 101.3%float 10%float 0.8%float = Ok r /\
  (Qabs (F2Q r - F2Q 101.3%float)
   <= (3 # 2 ^ 53)
      * (Qabs (F2Q 101.3%float)
         + Qabs (F2Q (lit 0.5 * 0.8%float * 100%float)%py)))%Q.
Proof.
destruct (proj1 pressure_round_trip_tolerance
            101.3%float 10%float 0.8%float 100%float eq_refl)
  as (r & E & B).
exists r. split; [exact E|]. apply B.
vm_compute in E. injection E as <-. reflexivity.
Defined.

(** C2, as stated, fails on binary64: with [T = 1013.25], [V = 300] and
    [Cp = 2080] the round trip returns a number that [==] tells apart
    from [T]. *)
Lemma temperature_round_trip_binary64_differs :
(lit 0 <=? 300%float)%py = true /\ (2080%float == lit 0)%py = false /\
returns_neq (temperature_round_trip 1013.25%float 300%float 2080%float)
  1013.25%float.
Proof.
repeat split; try reflexivity.
eexists. split; reflexivity.
Qed.

(** C2, amended: [total_to_static_temperature] undoes
    [static_to_total_temperature] up to rounding.  Whenever [V ** 2]
    returns and [Cp] is not zero, the round trip returns a number [r],
    and if [r] is finite it is within [3 * 2^-53 * (|T| + |k|)] of [T],
    where [k] is the rounded correction [0.5 * V**2 / Cp].  Read in exact
    arithmetic the round trip returns [T] itself, for every [T], [V] and
    [Cp <> 0]. *)
Theorem temperature_round_trip_tolerance :
(forall T V Cp V2 : float,
    pow2 V = Ok V2 -> (Cp == lit 0)%py = false ->
    exists k r,
      div (lit 0.5 * V2)%py Cp = Ok k /\
      temperature_round_trip T V Cp = Ok r /\
      (is_finite r = true ->
       (Qabs (F2Q r - F2Q T)
        <= (3 # 2 ^ 53) * (Qabs (F2Q T) + Qabs (F2Q k)))%Q)) /\
(forall T V Cp : Q,
    ~ (Cp == 0)%Q -> returns_eq (temperature_round_trip T V Cp) T).
Proof.
split.
- intros T V Cp V2 EV ZC.
  pose proof (binary64_div_nonzero (lit 0.5 * V2)%py Cp ZC) as EK.
  assert (E : temperature_round_trip T V Cp
              = Ok ((T + (lit 0.5 * V2)%py / Cp) - (lit 0.5 * V2)%py / Cp)%float).
  { unfold temperature_round_trip, static_to_total_temperature,
      total_to_static_temperature. rewrite EV. cbn [bind].
    rewrite EK. reflexivity. }
  do 2 eexists. split; [exact EK|]. split; [exact E|].
  intros F. eapply temperature_round_trip_error; eassumption.
- apply exact_temperature_round_trip.
Qed.

Lemma temperature_round_trip_tolerance_witness :
(exists k r,
    div (lit 0.5 * 90000%float)%py 2080%float = Ok k /\
    temperature_round_trip 1013.25%float 300%float 2080%float = Ok r /\
    (Qabs (F2Q r - F2Q 1013.25%float)
     <= (3 # 2 ^ 53) * (Qabs (F2Q 1013.25%float) + Qabs (F2Q k)))%Q) /\
returns_eq (temperature_round_trip (A:=Q) 293.15 50 2080) 293.15.
Proof.
split.
- destruct (proj1 temperature_round_trip_tolerance
              1013.25%float 300%float 2080%float 90000%float eq_refl eq_refl)
    as (k & r & EK & E & B).
  exists k, r. split; [exact EK|]. split; [exact E|]. apply B.
  vm_compute in E. injection E as <-. reflexivity.
- apply (proj2 temperature_round_trip_tolerance 293.15 50 2080).
  unfold Qeq. simpl. lia.
Defined.

(** ** Recovery factor 1 *)




(** ** The example scenario *)

(** C7: [static_to_total_pressure(1e5, 100, 0.8)] is exactly [104000],
    in binary64 as in exact arithmetic. *)
Theorem static_to_total_pressure_example :
static_to_total_pressure 1e5%float 100%float 0.8%float = Ok 104000%float /\
returns_eq (static_to_total_pressure (A:=Q) 1e5 100 0.8) 104000.
Proof.
split; [reflexivity|].
eexists. split; reflexivity.
Qed.

(** ** Division by zero *)

(** C8, as stated, fails on Python floats: when [V ** 2] overflows the
    conversions raise [OverflowError], with [Cp = 0] (no division by zero
    is reached) and with [Cp <> 0] (an error is raised) alike. *)
Lemma temperature_overflow_error :
static_to_total_temperature 300%float 1e200%float 0%float
  = Raise OverflowError /\
static_to_total_temperature 300%float 1e200%float 2080%float
  = Raise OverflowError.
Proof. split; reflexivity. Qed.

(** C8, amended: called with Python floats, whenever [V ** 2] returns
    (for every [V], zero included, whose square does not overflow) the
    three temperature conversions raise [ZeroDivisionError] if [Cp == 0]
    and return if not; when [V ** 2] overflows they raise [OverflowError]
    whatever [Cp] is.  In exact arithmetic only the first two cases
    arise.  The sweep of the script does not reach these errors: its
    velocities are [numpy.float64] values, on which the three conversions
    return for every argument, an infinity or NaN when [Cp] is zero; no
    pass of the loop raises, whatever the velocity, and the sweep runs to
    its end. *)
Theorem temperature_errors :
(forall T V Cp rf V2 : float,
    pow2 V = Ok V2 -> (Cp == lit 0)%py = true ->
    all_three (fun m => m = Raise ZeroDivisionError) T V Cp rf) /\
(forall T V Cp rf V2 : float,
    pow2 V = Ok V2 -> (Cp == lit 0)%py = false ->
    all_three returns T V Cp rf) /\
(forall T V Cp rf : float,
    is_finite V = true -> PrimFloat.is_infinity (V * V)%float = true ->
    all_three (fun m => m = Raise OverflowError) T V Cp rf) /\
(forall T V Cp rf : Q,
    (Cp == 0)%Q ->
    all_three (fun m => m = Raise ZeroDivisionError) T V Cp rf) /\
(forall T V Cp rf : Q,
    ~ (Cp == 0)%Q -> all_three returns T V Cp rf) /\
(forall T V Cp rf : float,
    @all_three float NumPy.float64_PyNum
      (fun m => exists r, m = Ok r /\
                          ((Cp == lit 0)%py = true -> is_finite r = false))
      T V Cp rf) /\
(forall (vs : list float) (s : TemperatureLists float),
    returns (for_each vs (@temperature_body float NumPy.float64_PyNum) s)) /\
(exists run, @temperature_script float NumPy.float64_PyNum = Ok run).
Proof.
split; [|split; [|split; [|split; [|split; [|split; [|split]]]]]].
- intros T V Cp rf V2. apply binary64_zero_divisor.
- intros T V Cp rf V2. apply binary64_nonzero_divisor.
- intros T V Cp rf F I. apply temperature_pow_error.
  now apply binary64_square_overflow.
- apply exact_zero_divisor.
- apply exact_nonzero_divisor.
- apply numpy_conversions_return.
- apply temperature_loop_numpy_returns.
- rewrite temperature_script_numpy.
  destruct temperature_script_binary64 as (run & E & _). now exists run.
Qed.

(** ** The velocity sweep *)

(** C3, as stated, fails on binary64: the samples at indices 1, 2 and 3
    of [np.linspace(0, 300, 100)] are not equally spaced, neither by the
    rounded subtraction nor by their exact values. *)
Lemma velocity_steps_binary64_differ :
exists (vs : list float) (a b c : float),
  linspace (lit 0) (lit 300) 100 = Ok vs /\
  nth_error vs 1 = Some a /\ nth_error vs 2 = Some b /\
  nth_error vs 3 = Some c /\
  ((b - a) == (c - b))%py = false /\
  Qeq_bool (F2Q b - F2Q a) (F2Q c - F2Q b) = false.
Proof.
exists velocities_binary64. do 3 eexists.
split; [exact linspace_binary64|].
repeat split; reflexivity.
Qed.

(** C3, amended: the sweep has exactly 100 samples, the first 0 and the
    last 300, strictly increasing.  In exact arithmetic sample [i] is
    [300 * i / 99] and consecutive samples differ by [300 / 99]; in
    binary64 sample [i] is within [2^-44] of [300 * i / 99], so that
    consecutive differences agree up to rounding only. *)
Theorem velocity_sweep :
(exists vs : list float,
    linspace (lit 0) (lit 300) 100 = Ok vs /\
    length vs = 100%nat /\
    nth_error vs 0 = Some 0%float /\
    nth_error vs 99 = Some 300%float /\
    (forall i a b,
        nth_error vs i = Some a -> nth_error vs (S i) = Some b ->
        (a <? b)%py = true) /\
    (forall i V,
        nth_error vs i = Some V ->
        within (1 # 2 ^ 44) V (exact_sample i) = true)) /\
(exists vs : list Q,
    linspace (lit 0) (lit 300) 100 = Ok vs /\
    length vs = 100%nat /\
    (forall i V, nth_error vs i = Some V -> (V == exact_sample i)%Q) /\
    (forall i a b,
        nth_error vs i = Some a -> nth_error vs (S i) = Some b ->
        (b - a == 300 / 99)%Q)).
Proof.
split.
- exists velocities_binary64.
  split; [exact linspace_binary64|].
  repeat split; try reflexivity.
  + intros i a b Ea Eb.
    pose proof velocities_binary64_increasing as F.
    rewrite forallb_forall in F.
    apply (F (a, b)). eapply adjacent_nth_error; eassumption.
  + intros i V E.
    pose proof velocities_binary64_close as F.
    rewrite forallb_forall in F.
    apply (F (i, V)). now apply nth_error_In_indexed.
- exists velocities_exact.
  split; [exact linspace_exact|].
  repeat split; try reflexivity.
  + intros i V E.
    pose proof velocities_exact_samples as F.
    rewrite forallb_forall in F.
    apply Qeq_bool_iff. apply (F (i, V)). now apply nth_error_In_indexed.
  + intros i a b Ea Eb.
    pose proof velocities_exact_step as F.
    rewrite forallb_forall in F.
    apply Qeq_bool_iff. apply (F (a, b)).
    eapply adjacent_nth_error; eassumption.
Qed.

(** ** The pressure sweep *)

(** C4: once the property lookup has answered, at the static conditions
    and once, with the density [rho], the pressure script returns; its
    result series is as long as the velocity series and its element [i]
    is [100 * (P_total - P_static) / P_static], where [P_total] is
    [static_to_total_pressure(P_static*10**5, V_i, rho)/10**5] for the
    sample [V_i] of [np.linspace(0, 300, 100)]. *)
Theorem pressure_sweep_relative_difference
  (calculate_from_PT :
     Composition float -> float -> float -> res (GasProperties float))
  (gp : GasProperties float) :
calculate_from_PT composition P_static T = Ok gp ->
exists run,
  pressure_script calculate_from_PT = Ok run /\
  linspace (lit 0) (lit 300) 100 = Ok (pr_velocities run) /\
  length (P_relative_diff_total_static (pr_lists run))
    = length (pr_velocities run) /\
  forall i V,
    nth_error (pr_velocities run) i = Some V ->
    exists P_t P_total r,
      static_to_total_pressure (P_static * lit 100000)%py V (rho gp) = Ok P_t /\
      div P_t (lit 100000) = Ok P_total /\
      div (lit 100 * (P_total - P_static))%py P_static = Ok r /\
      nth_error (P_relative_diff_total_static (pr_lists run)) i = Some r.
Proof.
intros lookup.
destruct (pressure_script_binary64 _ _ lookup) as (run & E & Ev & Ep & HF).
exists run. split; [exact E|]. rewrite Ev.
split; [exact linspace_binary64|].
split; [symmetry; eapply Forall2_length_eq; exact HF|].
intros i V EV.
destruct (Forall2_nth_error _ _ _ HF i V EV) as (r & Er & P_t & P_total & H1 & H2 & H3).
exists P_t, P_total, r. auto.
Qed.

Lemma pressure_sweep_relative_difference_witness :
exists run,
  pressure_script (fun _ _ _ => Ok {| rho := 0.745%float |}) = Ok run /\
  linspace (lit 0) (lit 300) 100 = Ok (pr_velocities run) /\
  length (P_relative_diff_total_static (pr_lists run))
    = length (pr_velocities run) /\
  forall i V,
    nth_error (pr_velocities run) i = Some V ->
    exists P_t P_total r,
      static_to_total_pressure (P_static * lit 100000)%py V 0.745%float = Ok P_t /\
      div P_t (lit 100000) = Ok P_total /\
      div (lit 100 * (P_total - P_static))%py P_static = Ok r /\
      nth_error (P_relative_diff_total_static (pr_lists run)) i = Some r.
Proof.
exact (pressure_sweep_relative_difference
         (fun _ _ _ => Ok {| rho := 0.745%float |})
         {| rho := 0.745%float |} eq_refl).
Defined.

(** ** The temperature sweep *)

(** C5, as stated, fails on binary64: at index 1 the recorded difference
    and the correction [(1 - rf) * 0.5 * V**2 / Cp] are different
    numbers. *)
Lemma temperature_difference_binary64_differs :
exists (run : TemperatureRun float) (V d k : float),
  temperature_script = Ok run /\
  nth_error (tr_velocities run) 1 = Some V /\
  nth_error (T_diff_measured_static (tr_lists run)) 1 = Some d /\
  kinetic_correction V = Ok k /\
  (d == k)%py = false.
Proof.
destruct temperature_script_binary64 as (run & E & _).
exists run,
  (nth 1 (tr_velocities run) 0%float),
  (nth 1 (T_diff_measured_static (tr_lists run)) 0%float),
  (value 0%float (kinetic_correction (nth 1 (tr_velocities run) 0%float))).
split; [exact E|].
vm_compute in E. injection E as <-.
repeat split; vm_compute; reflexivity.
Qed.

(** C5, amended: for every index [i] of the velocity series the script
    records [d = T_measured - T_static], where [T_static] is
    [total_to_static_temperature(T_total, V_i, Cp)] and
    [T_measured = T_static + k] with [k = (1 - rf) * 0.5 * V_i**2 / Cp].
    In exact arithmetic [d] equals [k]; in binary64, on [numpy.float64]
    values as on Python floats, [d] is within [2^-45] of [k], and equal
    to it at the first index only. *)
Theorem temperature_sweep_difference :
(exists run : TemperatureRun float,
    temperature_script = Ok run /\
    @temperature_script float NumPy.float64_PyNum = Ok run /\
    linspace (lit 0) (lit 300) 100 = Ok (tr_velocities run) /\
    length (T_diff_measured_static (tr_lists run))
      = length (tr_velocities run) /\
    forall i V,
      nth_error (tr_velocities run) i = Some V ->
      exists T_static k d,
        total_to_static_temperature T_total V Cp = Ok T_static /\
        kinetic_correction V = Ok k /\
        nth_error (T_diff_measured_static (tr_lists run)) i = Some d /\
        d = ((T_static + k) - T_static)%py /\
        within (1 # 2 ^ 45) d (F2Q k) = true /\
        ((d == k)%py = true <-> i = 0%nat)) /\
(exists run : TemperatureRun Q,
    temperature_script = Ok run /\
    linspace (lit 0) (lit 300) 100 = Ok (tr_velocities run) /\
    length (T_diff_measured_static (tr_lists run))
      = length (tr_velocities run) /\
    forall i V,
      nth_error (tr_velocities run) i = Some V ->
      exists T_static k d,
        total_to_static_temperature T_total V Cp = Ok T_static /\
        kinetic_correction V = Ok k /\
        nth_error (T_diff_measured_static (tr_lists run)) i = Some d /\
        d = ((T_static + k) - T_static)%py /\
        (d == k)%Q).
Proof.
split.
- destruct temperature_script_binary64 as (run & E & Ev & L1 & L2 & L3 & HF).
  exists run. split; [exact E|].
  split; [rewrite temperature_script_numpy; exact E|]. rewrite Ev.
  split; [exact linspace_binary64|].
  split; [exact L3|].
  intros i V EV.
  destruct (Forall2_nth_error _ _ _ HF i V EV) as ([[Ts Tm] d] & Er & k & H1 & H2 & H3 & H4).
  apply nth_error_combine in Er. destruct Er as [_ Ed].
  exists Ts, k, d. subst Tm. repeat split; try assumption.
  + pose proof temperature_differences_close as C. rewrite E, Ev in C.
    rewrite forallb_forall in C.
    specialize (C (V, d) (nth_error_In_combine _ _ _ _ _ EV Ed)).
    unfold difference_close in C. cbn [fst snd] in C. now rewrite H2 in C.
  + pose proof temperature_differences_equal_at_rest as C.
    rewrite E, Ev in C. rewrite forallb_forall in C.
    specialize (C (i, (V, d))
                  (nth_error_In_indexed _ _ _
                     (nth_error_combine_intro _ _ _ _ _ EV Ed))).
    cbn [fst snd] in C. rewrite H2 in C.
    apply eqb_prop in C. intros D.
    change ((d == k)%py) with (PrimFloat.eqb d k) in D.
    rewrite D in C. symmetry in C. now apply Nat.eqb_eq in C.
  + pose proof temperature_differences_equal_at_rest as C.
    rewrite E, Ev in C. rewrite forallb_forall in C.
    specialize (C (i, (V, d))
                  (nth_error_In_indexed _ _ _
                     (nth_error_combine_intro _ _ _ _ _ EV Ed))).
    cbn [fst snd] in C. rewrite H2 in C.
    apply eqb_prop in C. intros ->.
    change ((d == k)%py) with (PrimFloat.eqb d k). exact C.
- destruct temperature_script_exact as (run & E & Ev & L1 & L2 & L3 & HF).
  exists run. split; [exact E|]. rewrite Ev.
  split; [exact linspace_exact|].
  split; [exact L3|].
  intros i V EV.
  destruct (Forall2_nth_error _ _ _ HF i V EV) as ([[Ts Tm] d] & Er & k & H1 & H2 & H3 & H4).
  apply nth_error_combine in Er. destruct Er as [_ Ed].
  exists Ts, k, d. subst Tm. repeat split; try assumption.
  subst d. change (Ts + k - Ts == k)%Q. ring.
Qed.

(** ** Monotonicity of the pressure sweep *)

(** C9, as stated, fails on binary64: with the positive density
    [rho = 1e-20] every dynamic pressure is rounded away when it is added
    to [1e5], so the first two elements of the result series are both 0. *)
Lemma pressure_sweep_binary64_flat :
exists (run : PressureRun float) (a b : float),
  (lit 0 <? 1e-20%float)%py = true /\
  pressure_script (fun _ _ _ => Ok {| rho := 1e-20%float |}) = Ok run /\
  nth_error (P_relative_diff_total_static (pr_lists run)) 0 = Some a /\
  nth_error (P_relative_diff_total_static (pr_lists run)) 1 = Some b /\
  (a <? b)%py = false.
Proof.
destruct (pressure_script_binary64
            (fun _ _ _ => Ok {| rho := 1e-20%float |})
            {| rho := 1e-20%float |} eq_refl) as (run & E & _).
exists run,
  (nth 0 (P_relative_diff_total_static (pr_lists run)) 1%float),
  (nth 1 (P_relative_diff_total_static (pr_lists run)) 1%float).
split; [reflexivity|]. split; [exact E|].
vm_compute in E. injection E as <-.
repeat split; vm_compute; reflexivity.
Qed.

(** At the other end, with [rho = 1e305] the dynamic pressure overflows
    for the larger velocities and the last two elements of the series are
    both infinite. *)
Lemma pressure_sweep_binary64_overflows :
exists (run : PressureRun float) (a b : float),
  (lit 0 <? 1e305%float)%py = true /\
  pressure_script (fun _ _ _ => Ok {| rho := 1e305%float |}) = Ok run /\
  nth_error (P_relative_diff_total_static (pr_lists run)) 98 = Some a /\
  nth_error (P_relative_diff_total_static (pr_lists run)) 99 = Some b /\
  (a <? b)%py = false.
Proof.
destruct (pressure_script_binary64
            (fun _ _ _ => Ok {| rho := 1e305%float |})
            {| rho := 1e305%float |} eq_refl) as (run & E & _).
exists run,
  (nth 98 (P_relative_diff_total_static (pr_lists run)) 1%float),
  (nth 99 (P_relative_diff_total_static (pr_lists run)) 1%float).
split; [reflexivity|]. split; [exact E|].
vm_compute in E. injection E as <-.
repeat split; vm_compute; reflexivity.
Qed.

(** C9, amended: in exact arithmetic, for every density [rho > 0] that
    the lookup returns, each element of the result series is strictly
    greater than the one before.  In binary64, on [numpy.float64]
    values as on Python floats, this holds for every density between
    [1e-10] and [1e303], the density of the gas of the script among them,
    and fails for densities as small as [1e-20] or as large as
    [1e305]. *)
Theorem pressure_sweep_increasing :
(forall (calculate_from_PT : Composition Q -> Q -> Q -> res (GasProperties Q))
        (gp : GasProperties Q),
    calculate_from_PT composition P_static T = Ok gp ->
    (0 < rho gp)%Q ->
    exists run,
      pressure_script calculate_from_PT = Ok run /\
      forall i a b,
        nth_error (P_relative_diff_total_static (pr_lists run)) i = Some a ->
        nth_error (P_relative_diff_total_static (pr_lists run)) (S i) = Some b ->
        (a < b)%Q) /\
(forall (calculate_from_PT :
           Composition float -> float -> float -> res (GasProperties float))
        (gp : GasProperties float),
    calculate_from_PT composition P_static T = Ok gp ->
    (1e-10%float <=? rho gp)%py = true ->
    (rho gp <=? 1e303%float)%py = true ->
    exists run,
      pressure_script calculate_from_PT = Ok run /\
      @pressure_script float NumPy.float64_PyNum calculate_from_PT
      = Ok run /\
      forall i a b,
        nth_error (P_relative_diff_total_static (pr_lists run)) i = Some a ->
        nth_error (P_relative_diff_total_static (pr_lists run)) (S i) = Some b ->
        (a <? b)%py = true).
Proof.
split.
- intros calculate_from_PT gp lookup Hrho.
  destruct (pressure_script_exact _ _ lookup) as (run & E & Ev & Ep & HF).
  exists run. split; [exact E|].
  apply (Forall2_adjacent _ (fun V V' => 0 <= V /\ V < V')%Q _ _ _ HF).
  + apply Forall_forall. intros [V V'] HIn.
    pose proof velocities_exact_increasing as F.
    rewrite forallb_forall in F. specialize (F _ HIn).
    cbn [fst snd] in *. apply andb_true_iff in F. destruct F as [F1 F2].
    apply Qle_bool_iff in F1. unfold Qltb in F2.
    apply negb_true_iff in F2. split; [exact F1|].
    apply Qnot_le_lt. intros C. apply Qle_bool_iff in C. congruence.
  + intros V V' r r' [H0 HV] Hr Hr'.
    eapply relative_difference_increasing; eassumption.
- intros calculate_from_PT gp lookup Lr Ur.
  change ((1e-10%float <=? rho gp)%py) with (PrimFloat.leb 1e-10 (rho gp)) in Lr.
  change ((rho gp <=? 1e303%float)%py) with (PrimFloat.leb (rho gp) 1e303)
    in Ur.
  assert (Fr : is_finite (rho gp) = true).
  { apply (finite_between 1e-10 _ 1e303); try assumption; reflexivity. }
  destruct (pressure_script_binary64 _ _ lookup) as (run & E & Ev & Ep & HF).
  exists run. split; [exact E|].
  split; [rewrite pressure_script_numpy; exact E|].
  apply (Forall2_adjacent _
           (fun V V' => exists s s',
              pow2 V = Ok s /\ pow2 V' = Ok s' /\
              PrimFloat.ltb (relative_difference_of (rho gp) s)
                (relative_difference_of (rho gp) s') = true) _ _ _ HF).
  + apply Forall_forall. intros [V V'] HIn.
    pose proof velocities_binary64_squares_apart as F.
    rewrite forallb_forall in F. specialize (F _ HIn).
    cbn [fst snd] in *.
    destruct (pow2 V) as [s|]; [|discriminate].
    destruct (pow2 V') as [s'|]; [|discriminate].
    repeat (apply andb_true_iff in F; destruct F as [F ?]).
    exists s, s'. split; [reflexivity|]. split; [reflexivity|].
    apply relative_difference_strict; try assumption;
      now apply Qle_bool_iff.
  + intros V V' r r' (s & s' & EV & EV' & L) Hr Hr'.
    rewrite (relative_difference_at_value _ _ _ _ EV Hr),
      (relative_difference_at_value _ _ _ _ EV' Hr').
    exact L.
Qed.

Lemma pressure_sweep_increasing_witness :
(exists run,
   pressure_script (A:=Q) (fun _ _ _ => Ok {| rho := 0.8 |}) = Ok run /\
   forall i a b,
     nth_error (P_relative_diff_total_static (pr_lists run)) i = Some a ->
     nth_error (P_relative_diff_total_static (pr_lists run)) (S i) = Some b ->
     (a < b)%Q) /\
(exists run,
   pressure_script (fun _ _ _ => Ok {| rho := 0.745345240690563%float |})
   = Ok run /\
   @pressure_script float NumPy.float64_PyNum
     (fun _ _ _ => Ok {| rho := 0.745345240690563%float |})
   = Ok run /\
   forall i a b,
     nth_error (P_relative_diff_total_static (pr_lists run)) i = Some a ->
     nth_error (P_relative_diff_total_static (pr_lists run)) (S i) = Some b ->
     (a <? b)%py = true).
Proof.
split.
- apply (proj1 pressure_sweep_increasing (fun _ _ _ => Ok {| rho := 0.8 |})
           {| rho := 0.8 |} eq_refl).
  reflexivity.
- apply (proj2 pressure_sweep_increasing
           (fun _ _ _ => Ok {| rho := 0.745345240690563%float |})
           {| rho := 0.745345240690563%float |} eq_refl); reflexivity.
Defined.

(** ** Static temperature against total temperature *)




Lemma temperature_errors_witness :
all_three (fun m => m = Raise ZeroDivisionError)
  300%float 10%float 0%float 0.65%float /\
all_three returns 300%float 10%float 2080%float 0.65%float /\
all_three (fun m => m = Raise OverflowError)
  300%float 1e200%float 2080%float 0.65%float /\
all_three (fun m : res Q => m = Raise ZeroDivisionError) 300 10 0 0.65 /\
all_three (fun m : res Q => returns m) 300 10 2080 0.65 /\
@all_three float NumPy.float64_PyNum
  (fun m => exists r, m = Ok r /\ is_finite r = false)
  300%float 10%float 0%float 0.65%float /\
returns (for_each [1e200%float]
           (@temperature_body float NumPy.float64_PyNum)
           {| T_measured_values := []; T_static_values := [];
              T_diff_measured_static := [] |}) /\
(exists run, @temperature_script float NumPy.float64_PyNum = Ok run).
Proof.
destruct temperature_errors as (H1 & H2 & H3 & H4 & H5 & H6 & H7 & H8).
split; [|split; [|split; [|split; [|split; [|split; [|split]]]]]].
- apply (H1 _ _ _ _ 100%float); reflexivity.
- apply (H2 _ _ _ _ 100%float); reflexivity.
- apply H3; reflexivity.
- apply H4. reflexivity.
- apply H5. discriminate.
- destruct (H6 300%float 10%float 0%float 0.65%float)
    as ((a & Ea & Fa) & (b & Eb & Fb) & (c & Ec & Fc)).
  repeat split; eexists; (split; [eassumption|]); auto.
- apply H7.
- exact H8.
Defined.

(** * Further properties of the conversions *)

(** ** The sign of the velocity *)

(** X1: the five conversions depend on the velocity through [V ** 2]
    only: at [-V] each one gives what it gives at [V], the same number or
    the same error. *)
Theorem conversions_even_in_velocity (V : float) :
(forall P rho,
    static_to_total_pressure P (- V)%float rho
    = static_to_total_pressure P V rho) /\
(forall P rho,
    total_to_static_pressure P (- V)%float rho
    = total_to_static_pressure P V rho) /\
(forall T Cp,
    static_to_total_temperature T (- V)%float Cp
    = static_to_total_temperature T V Cp) /\
(forall T Cp,
    total_to_static_temperature T (- V)%float Cp
    = total_to_static_temperature T V Cp) /\
(forall T Cp rf,
    measured_to_total_temperature T (- V)%float Cp rf
    = measured_to_total_temperature T V Cp rf).
Proof.
unfold static_to_total_pressure, total_to_static_pressure,
  static_to_total_temperature, total_to_static_temperature,
  measured_to_total_temperature.
rewrite square_opp. repeat split.
Qed.

(** ** A fluid at rest *)

(** X2: at [V = 0] (a zero of either sign) both pressure conversions
    return the pressure they are given: in binary64 for every pressure
    that is not NaN and every finite density, in exact arithmetic for
    every pressure and density. *)
Theorem pressure_at_rest :
(forall P V rho : float,
    PrimFloat.is_nan P = false -> is_finite rho = true ->
    (V == lit 0)%py = true ->
    returns_eq (static_to_total_pressure P V rho) P /\
    returns_eq (total_to_static_pressure P V rho) P) /\
(forall P V rho : Q,
    (V == 0)%Q ->
    returns_eq (static_to_total_pressure P V rho) P /\
    returns_eq (total_to_static_pressure P V rho) P).
Proof.
split.
- intros P V rho NP Fr ZV.
  unfold static_to_total_pressure, total_to_static_pressure.
  rewrite (square_zero V ZV). cbn [bind].
  destruct (mul_zero_r (lit 0.5 * rho)%py PrimFloat.zero false
              (half_mul_finite rho Fr) eq_refl) as [s Es].
  split; eexists; (split; [reflexivity|]).
  + exact (add_zero_eqb P _ s NP Es).
  + exact (sub_zero_eqb P _ s NP Es).
- intros P V rho ZV.
  unfold static_to_total_pressure, total_to_static_pressure.
  change (pow2 V) with (Ok (V * V)%Q). cbn [bind].
  split; eexists; (split; [reflexivity|]); apply Qeq_bool_iff.
  + change (P + 0.5 * rho * (V * V) == P)%Q. rewrite ZV. ring.
  + change (P - 0.5 * rho * (V * V) == P)%Q. rewrite ZV. ring.
Qed.

Lemma pressure_at_rest_witness :
(returns_eq (static_to_total_pressure 100000%float 0%float 0.745%float)
   100000%float /\
 returns_eq (total_to_static_pressure 100000%float 0%float 0.745%float)
   100000%float) /\
(returns_eq (static_to_total_pressure (A:=Q) 100000 0 0.745) 100000 /\
 returns_eq (total_to_static_pressure (A:=Q) 100000 0 0.745) 100000).
Proof.
split.
- apply (proj1 pressure_at_rest 100000%float 0%float 0.745%float);
    reflexivity.
- apply (proj2 pressure_at_rest 100000 0 0.745). reflexivity.
Defined.

(** X3: at [V = 0] the three temperature conversions return the
    temperature they are given whenever [Cp] is a number other than zero:
    in binary64 for every temperature that is not NaN, and for
    [measured_to_total_temperature] with every finite recovery factor. *)
Theorem temperature_at_rest :
(forall T V Cp : float,
    PrimFloat.is_nan T = false -> PrimFloat.is_nan Cp = false ->
    (Cp == lit 0)%py = false -> (V == lit 0)%py = true ->
    returns_eq (static_to_total_temperature T V Cp) T /\
    returns_eq (total_to_static_temperature T V Cp) T /\
    (forall rf, is_finite rf = true ->
       returns_eq (measured_to_total_temperature T V Cp rf) T)) /\
(forall T V Cp : Q,
    ~ (Cp == 0)%Q -> (V == 0)%Q ->
    returns_eq (static_to_total_temperature T V Cp) T /\
    returns_eq (total_to_static_temperature T V Cp) T /\
    (forall rf, returns_eq (measured_to_total_temperature T V Cp rf) T)).
Proof.
split.
- intros T V Cp NT NC ZC ZV.
  unfold static_to_total_temperature, total_to_static_temperature,
    measured_to_total_temperature.
  rewrite (square_zero V ZV). cbn [bind].
  assert (E0 : Prim2SF (lit 0.5 * PrimFloat.zero)%py = S754_zero false)
    by reflexivity.
  destruct (div_zero_l _ Cp false E0 NC ZC) as [s Es].
  rewrite !(binary64_div_nonzero _ _ ZC). cbn [bind].
  split; [|split].
  + eexists. split; [reflexivity|]. exact (add_zero_eqb T _ s NT Es).
  + eexists. split; [reflexivity|]. exact (sub_zero_eqb T _ s NT Es).
  + intros rf Frf.
    rewrite (binary64_div_nonzero _ _ ZC). cbn [bind].
    destruct (mul_zero_r ((lit 1 - rf) * lit 0.5)%py PrimFloat.zero false
                (mul_half_finite _ (one_minus_finite rf Frf)) eq_refl)
      as [s1 Es1].
    destruct (div_zero_l _ Cp s1 Es1 NC ZC) as [s2 Es2].
    eexists. split; [reflexivity|]. exact (sub_zero_eqb T _ s2 NT Es2).
- intros T V Cp NZ ZV.
  unfold static_to_total_temperature, total_to_static_temperature,
    measured_to_total_temperature.
  change (pow2 V) with (Ok (V * V)%Q). cbn [bind].
  rewrite !(exact_div_nonzero _ _ NZ). cbn [bind].
  split; [|split; [|intros rf; rewrite (exact_div_nonzero _ _ NZ); cbn [bind]]];
    eexists; (split; [reflexivity|]); apply Qeq_bool_iff.
  + change (T + 0.5 * (V * V) / Cp == T)%Q. rewrite ZV. field. exact NZ.
  + change (T - 0.5 * (V * V) / Cp == T)%Q. rewrite ZV. field. exact NZ.
  + change (T - (1 - rf) * 0.5 * (V * V) / Cp == T)%Q. rewrite ZV.
    field. exact NZ.
Qed.

Lemma temperature_at_rest_witness :
(returns_eq (static_to_total_temperature 293.15%float 0%float 2080%float)
   293.15%float /\
 returns_eq (total_to_static_temperature 293.15%float 0%float 2080%float)
   293.15%float /\
 returns_eq
   (measured_to_total_temperature 293.15%float 0%float 2080%float 0.65%float)
   293.15%float) /\
(returns_eq (static_to_total_temperature (A:=Q) 293.15 0 2080) 293.15 /\
 returns_eq (total_to_static_temperature (A:=Q) 293.15 0 2080) 293.15 /\
 returns_eq (measured_to_total_temperature (A:=Q) 293.15 0 2080 0.65) 293.15).
Proof.
split.
- destruct (proj1 temperature_at_rest 293.15%float 0%float 2080%float
              eq_refl eq_refl eq_refl eq_refl) as (H1 & H2 & H3).
  split; [exact H1|]. split; [exact H2|]. apply H3. reflexivity.
- destruct (proj2 temperature_at_rest 293.15 0 2080) as (H1 & H2 & H3);
    [discriminate|reflexivity|].
  split; [exact H1|]. split; [exact H2|]. apply H3.
Defined.

(** ** A density of zero *)

(** X4: with [rho = 0] (a zero of either sign) both pressure conversions
    return the pressure they are given, for every finite velocity whose
    square does not overflow. *)
Theorem pressure_zero_density :
(forall P V rho V2 : float,
    PrimFloat.is_nan P = false -> is_finite V = true ->
    pow2 V = Ok V2 -> (rho == lit 0)%py = true ->
    returns_eq (static_to_total_pressure P V rho) P /\
    returns_eq (total_to_static_pressure P V rho) P) /\
(forall P V rho : Q,
    (rho == 0)%Q ->
    returns_eq (static_to_total_pressure P V rho) P /\
    returns_eq (total_to_static_pressure P V rho) P).
Proof.
split.
- intros P V rho V2 NP FV EV Zr.
  destruct (square_returns V V2 FV EV) as [-> I].
  destruct (square_nonneg V FV I) as [F2 _]. apply is_finite_spec in F2.
  apply eqb_zero_spec in Zr. destruct Zr as [sr Er].
  assert (FH : is_finite (lit 0.5) = true) by reflexivity.
  destruct (mul_zero_r (lit 0.5) rho sr FH Er) as [s1 Es1].
  destruct (mul_zero_l _ (V * V)%float s1 Es1 F2) as [s Es].
  unfold static_to_total_pressure, total_to_static_pressure.
  rewrite EV. cbn [bind].
  split; eexists; (split; [reflexivity|]).
  + exact (add_zero_eqb P _ s NP Es).
  + exact (sub_zero_eqb P _ s NP Es).
- intros P V rho Zr.
  unfold static_to_total_pressure, total_to_static_pressure.
  change (pow2 V) with (Ok (V * V)%Q). cbn [bind].
  split; eexists; (split; [reflexivity|]); apply Qeq_bool_iff.
  + change (P + 0.5 * rho * (V * V) == P)%Q. rewrite Zr. ring.
  + change (P - 0.5 * rho * (V * V) == P)%Q. rewrite Zr. ring.
Qed.

Lemma pressure_zero_density_witness :
(returns_eq (static_to_total_pressure 100000%float 300%float 0%float)
   100000%float /\
 returns_eq (total_to_static_pressure 100000%float 300%float 0%float)
   100000%float) /\
(returns_eq (static_to_total_pressure (A:=Q) 100000 300 0) 100000 /\
 returns_eq (total_to_static_pressure (A:=Q) 100000 300 0) 100000).
Proof.
split.
- apply (proj1 pressure_zero_density 100000%float 300%float 0%float
           90000%float); reflexivity.
- apply (proj2 pressure_zero_density 100000 300 0). reflexivity.
Defined.

(** ** A recovery factor of zero *)

(** X5: with [rf = 0], [measured_to_total_temperature] is
    [total_to_static_temperature]: in binary64 the two calls give the
    same number or the same error, since [(1 - 0) * 0.5] is [0.5]
    exactly. *)
Theorem measured_rf_zero :
(forall T V Cp rf : float,
    (rf == lit 0)%py = true ->
    measured_to_total_temperature T V Cp rf
    = total_to_static_temperature T V Cp) /\
(forall T V Cp rf : Q,
    (rf == 0)%Q -> ~ (Cp == 0)%Q ->
    exists y y',
      measured_to_total_temperature T V Cp rf = Ok y /\
      total_to_static_temperature T V Cp = Ok y' /\
      (y == y')%Q).
Proof.
split.
- intros T V Cp rf Z. apply eqb_zero_spec in Z. destruct Z as [s Es].
  assert (E : (lit 1 - rf)%py = 1%float).
  { apply Prim2SF_eq. change (lit 1 - rf)%py with (PrimFloat.sub 1 rf).
    rewrite sub_spec, Es. now destruct s. }
  unfold measured_to_total_temperature, total_to_static_temperature.
  rewrite E. reflexivity.
- intros T V Cp rf Z NZ.
  unfold measured_to_total_temperature, total_to_static_temperature.
  change (pow2 V) with (Ok (V * V)%Q). cbn [bind].
  rewrite !(exact_div_nonzero _ _ NZ). cbn [bind].
  do 2 eexists. split; [reflexivity|]. split; [reflexivity|].
  change (T - (1 - rf) * 0.5 * (V * V) / Cp == T - 0.5 * (V * V) / Cp)%Q.
  rewrite Z. field. exact NZ.
Qed.

Lemma measured_rf_zero_witness :
measured_to_total_temperature 293.15%float 50%float 2080%float 0%float
  = total_to_static_temperature 293.15%float 50%float 2080%float /\
(exists y y',
    measured_to_total_temperature (A:=Q) 293.15 50 2080 0 = Ok y /\
    total_to_static_temperature (A:=Q) 293.15 50 2080 = Ok y' /\
    (y == y')%Q).
Proof.
split.
- apply (proj1 measured_rf_zero). reflexivity.
- apply (proj2 measured_rf_zero); [reflexivity|discriminate].
Defined.

(** ** The measured temperature of the sweep *)

(** X6: [measured_to_total_temperature] takes away the correction that
    the sweep adds to the static temperature.  For
    [k = (1 - rf) * 0.5 * V**2 / Cp], the call at [T_static + k] returns
    [(T_static + k) - k]: in binary64 a number within
    [3 * 2^-53 * (|T_static| + |k|)] of [T_static] when it is finite, in
    exact arithmetic [T_static] itself. *)
Theorem measured_to_total_undoes_sweep :
(forall T_static V Cp rf V2 k : float,
    pow2 V = Ok V2 ->
    div ((lit 1 - rf) * lit 0.5 * V2)%py Cp = Ok k ->
    exists r,
      measured_to_total_temperature (T_static + k)%py V Cp rf = Ok r /\
      (is_finite r = true ->
       (Qabs (F2Q r - F2Q T_static)
        <= (3 # 2 ^ 53) * (Qabs (F2Q T_static) + Qabs (F2Q k)))%Q)) /\
(forall T_static V Cp rf : Q,
    ~ (Cp == 0)%Q ->
    exists k,
      div ((lit 1 - rf) * lit 0.5 * (V * V))%py Cp = Ok k /\
      returns_eq
        (measured_to_total_temperature (T_static + k)%py V Cp rf) T_static).
Proof.
split.
- intros T V Cp rf V2 k EV EK.
  exists ((T + k) - k)%float. split.
  + unfold measured_to_total_temperature. rewrite EV. cbn [bind].
    rewrite EK. reflexivity.
  + intros F. now apply add_sub_error.
- intros T V Cp rf NZ.
  rewrite (exact_div_nonzero _ _ NZ). eexists. split; [reflexivity|].
  unfold measured_to_total_temperature.
  change (pow2 V) with (Ok (V * V)%Q). cbn [bind].
  rewrite (exact_div_nonzero _ _ NZ). cbn [bind].
  eexists. split; [reflexivity|]. apply Qeq_bool_iff.
  change (T + (1 - rf) * 0.5 * (V * V) / Cp
          - (1 - rf) * 0.5 * (V * V) / Cp == T)%Q.
  ring.
Qed.

Lemma measured_to_total_undoes_sweep_witness :
(exists r,
    measured_to_total_temperature
      (292.5%float
       + ((lit 1 - 0.65%float) * lit 0.5 * 2500%float)%py / 2080%float)%float
      50%float 2080%float 0.65%float = Ok r /\
    (Qabs (F2Q r - F2Q 292.5%float)
     <= (3 # 2 ^ 53)
        * (Qabs (F2Q 292.5%float)
           + Qabs (F2Q (((lit 1 - 0.65%float) * lit 0.5 * 2500%float)%py
                        / 2080%float)%float)))%Q) /\
(exists k,
    div ((lit 1 - 0.65) * lit 0.5 * (50 * 50))%py (2080 : Q) = Ok k /\
    returns_eq
      (measured_to_total_temperature (A:=Q) (292.5 + k)%py 50 2080 0.65)
      292.5).
Proof.
split.
- destruct (proj1 measured_to_total_undoes_sweep
              292.5%float 50%float 2080%float 0.65%float 2500%float
              (((lit 1 - 0.65%float) * lit 0.5 * 2500%float)%py
               / 2080%float)%float)
    as (r & E & B); [reflexivity|reflexivity|].
  exists r. split; [exact E|]. apply B.
  vm_compute in E. injection E as <-. reflexivity.
- apply (proj2 measured_to_total_undoes_sweep 292.5 50 2080 0.65).
  discriminate.
Defined.

(** ** Round trips the other way *)

(** X7: [static_to_total_pressure] undoes [total_to_static_pressure] up
    to rounding.  Whenever [V ** 2] returns, the round trip returns a
    number [r], within [3 * 2^-53 * (|P| + |k|)] of [P] when it is
    finite, where [k] is the rounded dynamic pressure; in exact
    arithmetic it returns [P] itself. *)
Theorem pressure_round_trip_back_tolerance :
(forall P V rho V2 : float,
    pow2 V = Ok V2 ->
    exists r,
      pressure_round_trip_back P V rho = Ok r /\
      (is_finite r = true ->
       (Qabs (F2Q r - F2Q P)
        <= (3 # 2 ^ 53)
           * (Qabs (F2Q P) + Qabs (F2Q (lit 0.5 * rho * V2)%py)))%Q)) /\
(forall P V rho : Q, returns_eq (pressure_round_trip_back P V rho) P).
Proof.
split.
- intros P V rho V2 EV.
  exists ((P - lit 0.5 * rho * V2) + lit 0.5 * rho * V2)%py. split.
  + unfold pressure_round_trip_back, static_to_total_pressure,
      total_to_static_pressure. rewrite EV. reflexivity.
  + intros F. now apply sub_add_error.
- intros P V rho. eexists. split; [reflexivity|].
  apply Qeq_bool_iff. simpl. ring.
Qed.

Lemma pressure_round_trip_back_tolerance_witness :
exists r,
  pressure_round_trip_back 101.3%float 10%float 0.8%float = Ok r /\
  (Qabs (F2Q r - F2Q 101.3%float)
   <= (3 # 2 ^ 53)
      * (Qabs (F2Q 101.3%float)
         + Qabs (F2Q (lit 0.5 * 0.8%float * 100%float)%py)))%Q.
Proof.
destruct (proj1 pressure_round_trip_back_tolerance
            101.3%float 10%float 0.8%float 100%float eq_refl)
  as (r & E & B).
exists r. split; [exact E|]. apply B.
vm_compute in E. injection E as <-. reflexivity.
Defined.

(** X8: [static_to_total_temperature] undoes
    [total_to_static_temperature] up to rounding.  Whenever [V ** 2]
    returns and [Cp] is not zero, the round trip returns a number [r],
    within [3 * 2^-53 * (|T| + |k|)] of [T] when it is finite, where [k]
    is the rounded correction [0.5 * V**2 / Cp]; in exact arithmetic it
    returns [T] itself. *)
Theorem temperature_round_trip_back_tolerance :
(forall T V Cp V2 : float,
    pow2 V = Ok V2 -> (Cp == lit 0)%py = false ->
    exists k r,
      div (lit 0.5 * V2)%py Cp = Ok k /\
      temperature_round_trip_back T V Cp = Ok r /\
      (is_finite r = true ->
       (Qabs (F2Q r - F2Q T)
        <= (3 # 2 ^ 53) * (Qabs (F2Q T) + Qabs (F2Q k)))%Q)) /\
(forall T V Cp : Q,
    ~ (Cp == 0)%Q -> returns_eq (temperature_round_trip_back T V Cp) T).
Proof.
split.
- intros T V Cp V2 EV ZC.
  pose proof (binary64_div_nonzero (lit 0.5 * V2)%py Cp ZC) as EK.
  do 2 eexists. split; [exact EK|]. split.
  + unfold temperature_round_trip_back, static_to_total_temperature,
      total_to_static_temperature. rewrite EV. cbn [bind].
    rewrite EK. reflexivity.
  + intros F. eapply sub_add_error; [reflexivity|exact F].
- intros T V Cp NZ.
  unfold temperature_round_trip_back, static_to_total_temperature,
    total_to_static_temperature.
  change (pow2 V) with (Ok (V * V)%Q). cbn [bind].
  rewrite (exact_div_nonzero _ _ NZ). cbn [bind].
  eexists. split; [reflexivity|].
  apply Qeq_bool_iff. simpl. ring.
Qed.

Lemma temperature_round_trip_back_tolerance_witness :
(exists k r,
    div (lit 0.5 * 90000%float)%py 2080%float = Ok k /\
    temperature_round_trip_back 1013.25%float 300%float 2080%float = Ok r /\
    (Qabs (F2Q r - F2Q 1013.25%float)
     <= (3 # 2 ^ 53) * (Qabs (F2Q 1013.25%float) + Qabs (F2Q k)))%Q) /\
returns_eq (temperature_round_trip_back (A:=Q) 293.15 50 2080) 293.15.
Proof.
split.
- destruct (proj1 temperature_round_trip_back_tolerance
              1013.25%float 300%float 2080%float 90000%float eq_refl eq_refl)
    as (k & r & EK & E & B).
  exists k, r. split; [exact EK|]. split; [exact E|]. apply B.
  vm_compute in E. injection E as <-. reflexivity.
- apply (proj2 temperature_round_trip_back_tolerance 293.15 50 2080).
  discriminate.
Defined.

(** ** The direction of the corrections *)

(** X9: for a density that is not negative the total pressure is at
    least the static pressure.  For all finite [P], [V] and [rho >= 0]
    such that [V ** 2] does not overflow,
    [static_to_total_pressure(P, V, rho) >= P] and
    [total_to_static_pressure(P, V, rho) <= P]. *)
Theorem pressure_correction_direction :
(forall P V rho V2 : float,
    is_finite P = true -> is_finite V = true -> is_finite rho = true ->
    (lit 0 <=? rho)%py = true ->
    pow2 V = Ok V2 ->
    exists P_total P_static,
      static_to_total_pressure P V rho = Ok P_total /\
      total_to_static_pressure P V rho = Ok P_static /\
      (P <=? P_total)%py = true /\
      (P_static <=? P)%py = true) /\
(forall P V rho : Q,
    (0 <= rho)%Q ->
    exists P_total P_static,
      static_to_total_pressure P V rho = Ok P_total /\
      total_to_static_pressure P V rho = Ok P_static /\
      (P <= P_total)%Q /\ (P_static <= P)%Q).
Proof.
split.
- intros P V rho V2 FP FV Fr Lr EV.
  unfold static_to_total_pressure, total_to_static_pressure.
  rewrite EV. cbn [bind]. do 2 eexists.
  split; [reflexivity|]. split; [reflexivity|].
  set (k := (lit 0.5 * rho * V2)%py).
  change ((P <=? P + k)%py = true /\ (P - k <=? P)%py = true)
    with (PrimFloat.leb P (P + k)%float = true /\
          PrimFloat.leb (P - k)%float P = true).
  destruct (dynamic_pressure_sign rho V V2 Fr Lr FV EV) as [[s Es]|Sk].
  + apply (leb_add_zero P k s); [now apply finite_not_nan|exact Es].
  + fold k in Sk. apply is_finite_spec in FP.
    rewrite !leb_spec, add_spec, sub_spec. split.
    * apply SFadd_ge; try apply Prim2SF_valid; assumption.
    * apply SFsub_le; try apply Prim2SF_valid; assumption.
- intros P V rho Hr.
  unfold static_to_total_pressure, total_to_static_pressure.
  change (pow2 V) with (Ok (V * V)%Q). cbn [bind]. do 2 eexists.
  split; [reflexivity|]. split; [reflexivity|].
  change (P <= P + 0.5 * rho * (V * V) /\ P - 0.5 * rho * (V * V) <= P)%Q.
  assert (0 <= V * V)%Q by nra.
  assert (0 <= rho * (V * V))%Q by nra.
  setoid_replace (0.5 * rho * (V * V))%Q with (0.5 * (rho * (V * V)))%Q
    by ring.
  split; lra.
Qed.

Lemma pressure_correction_direction_witness :
(exists P_total P_static,
    static_to_total_pressure 100000%float 300%float 0.745%float = Ok P_total /\
    total_to_static_pressure 100000%float 300%float 0.745%float = Ok P_static /\
    (100000%float <=? P_total)%py = true /\
    (P_static <=? 100000%float)%py = true) /\
(exists P_total P_static,
    static_to_total_pressure (A:=Q) 100000 300 0.745 = Ok P_total /\
    total_to_static_pressure (A:=Q) 100000 300 0.745 = Ok P_static /\
    (100000 <= P_total)%Q /\ (P_static <= 100000)%Q).
Proof.
split.
- apply (proj1 pressure_correction_direction
           100000%float 300%float 0.745%float 90000%float); reflexivity.
- apply (proj2 pressure_correction_direction 100000 300 0.745).
  discriminate.
Defined.

(** X10: for a positive [Cp] the total temperature is at least the
    static temperature, and a recovery factor of at most 1 makes
    [measured_to_total_temperature] return at most what it is given.
    This holds for all finite arguments such that [V ** 2] does not
    overflow. *)
Theorem temperature_correction_direction :
(forall T V Cp V2 : float,
    is_finite T = true -> is_finite V = true -> is_finite Cp = true ->
    (lit 0 <? Cp)%py = true ->
    pow2 V = Ok V2 ->
    (exists T_total,
        static_to_total_temperature T V Cp = Ok T_total /\
        (T <=? T_total)%py = true) /\
    (forall rf, is_finite rf = true -> (rf <=? lit 1)%py = true ->
       exists r,
         measured_to_total_temperature T V Cp rf = Ok r /\
         (r <=? T)%py = true)) /\
(forall T V Cp : Q,
    (0 < Cp)%Q ->
    (exists T_total,
        static_to_total_temperature T V Cp = Ok T_total /\
        (T <= T_total)%Q) /\
    (forall rf, (rf <= 1)%Q ->
       exists r,
         measured_to_total_temperature T V Cp rf = Ok r /\ (r <= T)%Q)).
Proof.
split.
- intros T V Cp V2 FT FV FC PC EV.
  destruct (positive_spec Cp PC) as [_ ZC].
  pose proof FT as FT'. apply is_finite_spec in FT'.
  unfold static_to_total_temperature, measured_to_total_temperature.
  rewrite EV. cbn [bind]. split.
  + rewrite (binary64_div_nonzero _ _ ZC). cbn [bind].
    eexists. split; [reflexivity|].
    change ((T <=? T + ?k)%py) with (PrimFloat.leb T (T + k)%float).
    rewrite leb_spec, add_spec.
    apply SFadd_ge; try apply Prim2SF_valid; [assumption|].
    now apply (kinetic_term_sign V V2 Cp).
  + intros rf Frf Lrf.
    rewrite (binary64_div_nonzero _ _ ZC). cbn [bind].
    eexists. split; [reflexivity|].
    change ((T - ?k <=? T)%py) with (PrimFloat.leb (T - k)%float T).
    rewrite leb_spec, sub_spec.
    apply SFsub_le; try apply Prim2SF_valid; [assumption|].
    now apply (recovery_term_sign V V2 Cp rf).
- intros T V Cp HCp.
  assert (NZ : ~ (Cp == 0)%Q) by lra.
  unfold static_to_total_temperature, measured_to_total_temperature.
  change (pow2 V) with (Ok (V * V)%Q). cbn [bind].
  assert (HI : (0 < / Cp)%Q) by now apply Qinv_lt_0_compat.
  assert (HS : (0 <= V * V)%Q) by nra.
  assert (HWI : (0 <= V * V * / Cp)%Q) by nra.
  split.
  + rewrite (exact_div_nonzero _ _ NZ). cbn [bind].
    eexists. split; [reflexivity|].
    change (T <= T + 0.5 * (V * V) / Cp)%Q. unfold Qdiv.
    setoid_replace (0.5 * (V * V) * / Cp)%Q with (0.5 * (V * V * / Cp))%Q
      by ring.
    lra.
  + intros rf Hrf.
    rewrite (exact_div_nonzero _ _ NZ). cbn [bind].
    eexists. split; [reflexivity|].
    change (T - (1 - rf) * 0.5 * (V * V) / Cp <= T)%Q. unfold Qdiv.
    setoid_replace ((1 - rf) * 0.5 * (V * V) * / Cp)%Q
      with (0.5 * ((1 - rf) * (V * V * / Cp)))%Q by ring.
    assert (0 <= (1 - rf) * (V * V * / Cp))%Q by nra.
    lra.
Qed.

Lemma temperature_correction_direction_witness :
((exists T_total,
     static_to_total_temperature 293.15%float 50%float 2080%float
       = Ok T_total /\
     (293.15%float <=? T_total)%py = true) /\
 (exists r,
     measured_to_total_temperature 293.15%float 50%float 2080%float 0.65%float
       = Ok r /\
     (r <=? 293.15%float)%py = true)) /\
((exists T_total,
     static_to_total_temperature (A:=Q) 293.15 50 2080 = Ok T_total /\
     (293.15 <= T_total)%Q) /\
 (exists r,
     measured_to_total_temperature (A:=Q) 293.15 50 2080 0.65 = Ok r /\
     (r <= 293.15)%Q)).
Proof.
split.
- destruct (proj1 temperature_correction_direction
              293.15%float 50%float 2080%float 2500%float
              eq_refl eq_refl eq_refl eq_refl eq_refl) as [H1 H2].
  split; [exact H1|]. apply H2; reflexivity.
- destruct (proj2 temperature_correction_direction 293.15 50 2080) as [H1 H2];
    [reflexivity|].
  split; [exact H1|]. apply H2. discriminate.
Defined.

(** ** Velocities that cannot overflow *)

(** X11: for every velocity of magnitude below [2 ** 511] the square
    [V ** 2] does not overflow: the pressure conversions return, and the
    temperature conversions raise [ZeroDivisionError] when [Cp == 0] and
    return otherwise.  No conversion raises [OverflowError] there. *)
Theorem no_overflow_below_2p511 (V : float) :
PrimFloat.ltb (abs V) 0x1p511%float = true ->
(forall P rho,
    returns (static_to_total_pressure P V rho) /\
    returns (total_to_static_pressure P V rho)) /\
(forall T Cp rf,
    (Cp == lit 0)%py = true ->
    all_three (fun m => m = Raise ZeroDivisionError) T V Cp rf) /\
(forall T Cp rf,
    (Cp == lit 0)%py = false -> all_three returns T V Cp rf).
Proof.
intros L. destruct (below_2p511_spec V L) as [FV F2].
pose proof (square_finite V F2) as EV.
split; [|split].
- intros P rho. unfold static_to_total_pressure, total_to_static_pressure.
  rewrite EV. cbn [bind]. split; eexists; reflexivity.
- intros T Cp rf Z. exact (binary64_zero_divisor T V Cp rf _ EV Z).
- intros T Cp rf Z. exact (binary64_nonzero_divisor T V Cp rf _ EV Z).
Qed.

Lemma no_overflow_below_2p511_witness :
(forall P rho,
    returns (static_to_total_pressure P 1e150%float rho) /\
    returns (total_to_static_pressure P 1e150%float rho)) /\
(forall T Cp rf,
    (Cp == lit 0)%py = true ->
    all_three (fun m => m = Raise ZeroDivisionError) T 1e150%float Cp rf) /\
(forall T Cp rf,
    (Cp == lit 0)%py = false -> all_three returns T 1e150%float Cp rf).
Proof.
apply (no_overflow_below_2p511 1e150%float). reflexivity.
Defined.

(** * Further properties of the scripts *)

(** X12: the sweeps do not depend on which of the two binary64
    arithmetics runs them.  On [numpy.float64] values, where [**] and [/]
    cannot raise, the computation of each script gives what it gives on
    Python floats: the pressure script the same lists, or the same error
    of the lookup, for every lookup function, and the temperature script
    the same lists.  Whatever density the lookup returns, NaN and the
    infinities included, no pass of either loop raises. *)
Theorem sweeps_on_numpy_values :
(forall calculate_from_PT :
          Composition float -> float -> float -> res (GasProperties float),
    @pressure_script float NumPy.float64_PyNum calculate_from_PT
    = pressure_script calculate_from_PT) /\
@temperature_script float NumPy.float64_PyNum = temperature_script /\
(forall (gp : GasProperties float) (s : PressureLists float),
    returns (for_each velocities_binary64 (pressure_body gp) s) /\
    for_each velocities_binary64
      (@pressure_body float NumPy.float64_PyNum gp) s
    = for_each velocities_binary64 (pressure_body gp) s) /\
(forall s : TemperatureLists float,
    returns (for_each velocities_binary64 temperature_body s) /\
    for_each velocities_binary64
      (@temperature_body float NumPy.float64_PyNum) s
    = for_each velocities_binary64 temperature_body s).
Proof.
split; [exact pressure_script_numpy|].
split; [exact temperature_script_numpy|]. split.
- intros gp s. split; [|apply pressure_loop_numpy].
  apply for_each_returns. intros V s' HIn.
  apply pressure_body_returns_binary64.
  pose proof velocities_binary64_square as F.
  rewrite forallb_forall in F. now apply F.
- intros s. split; [|apply temperature_loop_numpy].
  apply for_each_returns. intros V s' HIn.
  apply temperature_body_returns_binary64.
  pose proof velocities_binary64_square as F.
  rewrite forallb_forall in F. now apply F.
Qed.

(** X13: when the lookup returns, the pressure script returns two lists
    of 100 elements: [P_static_values] is 100 times the static pressure
    [1.0], and, for every finite density, the relative difference at the
    first sample ([V = 0]) is exactly zero. *)
Theorem pressure_script_lists
  (calculate_from_PT :
     Composition float -> float -> float -> res (GasProperties float))
  (gp : GasProperties float) :
calculate_from_PT composition P_static T = Ok gp ->
exists run,
  pressure_script calculate_from_PT = Ok run /\
  P_static_values (pr_lists run) = repeat 1%float 100 /\
  length (P_relative_diff_total_static (pr_lists run)) = 100%nat /\
  (is_finite (rho gp) = true ->
   nth_error (P_relative_diff_total_static (pr_lists run)) 0 = Some 0%float).
Proof.
intros lookup.
destruct (pressure_script_binary64 _ _ lookup) as (run & E & Ev & Ep & HF).
exists run. split; [exact E|]. split; [exact Ep|].
split; [symmetry; exact (Forall2_length_eq _ _ _ HF)|].
intros Fr.
destruct (Forall2_nth_error _ _ _ HF 0%nat 0%float eq_refl) as (r & Er & Hr).
rewrite Er. f_equal. now apply relative_difference_at_rest with (rho := rho gp).
Qed.

Lemma pressure_script_lists_witness :
exists run,
  pressure_script (fun _ _ _ => Ok {| rho := 0.745%float |}) = Ok run /\
  P_static_values (pr_lists run) = repeat 1%float 100 /\
  length (P_relative_diff_total_static (pr_lists run)) = 100%nat /\
  nth_error (P_relative_diff_total_static (pr_lists run)) 0 = Some 0%float.
Proof.
destruct (pressure_script_lists
            (fun _ _ _ => Ok {| rho := 0.745%float |})
            {| rho := 0.745%float |} eq_refl) as (run & E & H1 & H2 & H3).
exists run. split; [exact E|]. split; [exact H1|]. split; [exact H2|].
apply H3. reflexivity.
Defined.

(** X14: the temperature script runs to its end, with three lists of 100
    elements.  The recorded difference is zero at the first sample and
    grows strictly from sample to sample, the static temperature falls
    strictly, and at every sample the measured temperature lies between
    the static temperature and the total temperature.  This holds for
    the numbers the script computes in binary64 and in exact
    arithmetic. *)
Theorem temperature_script_series :
(exists run : TemperatureRun float,
    temperature_script = Ok run /\
    length (T_static_values (tr_lists run)) = 100%nat /\
    length (T_measured_values (tr_lists run)) = 100%nat /\
    length (T_diff_measured_static (tr_lists run)) = 100%nat /\
    nth_error (T_diff_measured_static (tr_lists run)) 0 = Some 0%float /\
    (forall i a b,
        nth_error (T_diff_measured_static (tr_lists run)) i = Some a ->
        nth_error (T_diff_measured_static (tr_lists run)) (S i) = Some b ->
        (a <? b)%py = true) /\
    (forall i a b,
        nth_error (T_static_values (tr_lists run)) i = Some a ->
        nth_error (T_static_values (tr_lists run)) (S i) = Some b ->
        (b <? a)%py = true) /\
    (forall i T_static T_measured,
        nth_error (T_static_values (tr_lists run)) i = Some T_static ->
        nth_error (T_measured_values (tr_lists run)) i = Some T_measured ->
        (T_static <=? T_measured)%py = true /\
        (T_measured <=? T_total)%py = true)) /\
(exists run : TemperatureRun Q,
    temperature_script = Ok run /\
    length (T_static_values (tr_lists run)) = 100%nat /\
    length (T_measured_values (tr_lists run)) = 100%nat /\
    length (T_diff_measured_static (tr_lists run)) = 100%nat /\
    (forall d, nth_error (T_diff_measured_static (tr_lists run)) 0 = Some d ->
       (d == 0)%Q) /\
    (forall i a b,
        nth_error (T_diff_measured_static (tr_lists run)) i = Some a ->
        nth_error (T_diff_measured_static (tr_lists run)) (S i) = Some b ->
        (a < b)%Q) /\
    (forall i a b,
        nth_error (T_static_values (tr_lists run)) i = Some a ->
        nth_error (T_static_values (tr_lists run)) (S i) = Some b ->
        (b < a)%Q) /\
    (forall i T_static T_measured,
        nth_error (T_static_values (tr_lists run)) i = Some T_static ->
        nth_error (T_measured_values (tr_lists run)) i = Some T_measured ->
        (T_static <= T_measured)%Q /\ (T_measured <= T_total)%Q)).
Proof.
split.
- destruct temperature_script_binary64 as (run & E & _ & L1 & L2 & L3 & _).
  exists run. split; [exact E|].
  split; [exact L1|]. split; [exact L2|]. split; [exact L3|].
  clear L1 L2 L3. vm_compute in E. injection E as <-.
  cbn [tr_lists T_static_values T_measured_values T_diff_measured_static].
  split; [reflexivity|]. split; [|split].
  + intros i a b Ea Eb.
    refine (adjacent_forallb (fun a b => PrimFloat.ltb a b) _ i a b _ Ea Eb).
    vm_compute. reflexivity.
  + intros i a b Ea Eb.
    refine (adjacent_forallb (fun a b => PrimFloat.ltb b a) _ i a b _ Ea Eb).
    vm_compute. reflexivity.
  + intros i Ts Tm Es Em.
    apply andb_true_iff.
    refine (combine_forallb
              (fun Ts Tm => PrimFloat.leb Ts Tm && PrimFloat.leb Tm T_total)
              _ _ i Ts Tm _ Es Em).
    vm_compute. reflexivity.
- destruct temperature_script_exact as (run & E & _ & L1 & L2 & L3 & _).
  exists run. split; [exact E|].
  split; [exact L1|]. split; [exact L2|]. split; [exact L3|].
  clear L1 L2 L3. vm_compute in E. injection E as <-.
  cbn [tr_lists T_static_values T_measured_values T_diff_measured_static].
  split; [|split; [|split]].
  + intros d Ed. cbn [nth_error] in Ed. injection Ed as <-. reflexivity.
  + intros i a b Ea Eb. apply Qltb_lt.
    refine (adjacent_forallb (fun a b => Qltb a b) _ i a b _ Ea Eb).
    vm_compute. reflexivity.
  + intros i a b Ea Eb. apply Qltb_lt.
    refine (adjacent_forallb (fun a b => Qltb b a) _ i a b _ Ea Eb).
    vm_compute. reflexivity.
  + intros i Ts Tm Es Em.
    assert (H : Qle_bool Ts Tm && Qle_bool Tm T_total = true).
    { refine (combine_forallb
                (fun Ts Tm => Qle_bool Ts Tm && Qle_bool Tm T_total)
                _ _ i Ts Tm _ Es Em).
      vm_compute. reflexivity. }
    apply andb_true_iff in H. destruct H as [H1 H2].
    split; now apply Qle_bool_iff.
Qed.

(** ** The sign of the density and of the heat capacity *)

(** X15: negating the density swaps the two pressure conversions:
    [static_to_total_pressure(P, V, -rho)] is
    [total_to_static_pressure(P, V, rho)] and the other way round, the
    same float or the same error for all arguments.  A negative density
    is accepted silently and turns the correction around. *)
Theorem pressure_negated_density (P V rho : float) :
static_to_total_pressure P V (- rho)%float
  = total_to_static_pressure P V rho /\
total_to_static_pressure P V (- rho)%float
  = static_to_total_pressure P V rho.
Proof.
unfold static_to_total_pressure, total_to_static_pressure.
destruct (pow2 V) as [V2|e]; cbn [bind]; [|split; reflexivity].
change (Ok (P + (lit 0.5 * - rho) * V2)%float
        = Ok (P - (lit 0.5 * rho) * V2)%float /\
        Ok (P - (lit 0.5 * - rho) * V2)%float
        = Ok (P + (lit 0.5 * rho) * V2)%float).
now rewrite mul_opp_r, mul_opp_l, add_opp, sub_opp.
Qed.

(** X16: negating [Cp] swaps the two temperature conversions:
    [static_to_total_temperature(T, V, -Cp)] is
    [total_to_static_temperature(T, V, Cp)] and the other way round, the
    same float or the same error for all arguments. *)
Theorem temperature_negated_Cp (T V Cp : float) :
static_to_total_temperature T V (- Cp)%float
  = total_to_static_temperature T V Cp /\
total_to_static_temperature T V (- Cp)%float
  = static_to_total_temperature T V Cp.
Proof.
unfold static_to_total_temperature, total_to_static_temperature.
destruct (pow2 V) as [V2|e]; cbn [bind]; [|split; reflexivity].
rewrite div_opp_divisor.
destruct (div (lit 0.5 * V2)%py Cp) as [q|e]; cbn [bind];
  [|split; reflexivity].
change (Ok (T + - q)%float = Ok (T - q)%float /\
        Ok (T - - q)%float = Ok (T + q)%float).
now rewrite add_opp, sub_opp.
Qed.

(** ** Results that are finite *)

(** X17: the conversions never hide an argument that is infinite or
    NaN.  A pressure conversion that returns a finite number was given a
    finite pressure, velocity and density; a temperature conversion that
    returns a finite number was given a finite temperature and velocity
    (and recovery factor). *)
Theorem finite_result_finite_arguments :
(forall P V rho r : float,
    static_to_total_pressure P V rho = Ok r \/
    total_to_static_pressure P V rho = Ok r ->
    is_finite r = true ->
    is_finite P = true /\ is_finite V = true /\ is_finite rho = true) /\
(forall T V Cp r : float,
    static_to_total_temperature T V Cp = Ok r \/
    total_to_static_temperature T V Cp = Ok r ->
    is_finite r = true ->
    is_finite T = true /\ is_finite V = true) /\
(forall T V Cp rf r : float,
    measured_to_total_temperature T V Cp rf = Ok r ->
    is_finite r = true ->
    is_finite T = true /\ is_finite V = true /\ is_finite rf = true).
Proof.
split; [|split].
- intros P V rho r E F.
  unfold static_to_total_pressure, total_to_static_pressure in E.
  destruct (pow2 V) as [V2|e] eqn:EV; cbn [bind] in E;
    [|destruct E; discriminate].
  apply square_value in EV. subst V2.
  assert (Fk : is_finite P = true /\
               is_finite ((lit 0.5 * rho)%py * (V * V))%float = true).
  { destruct E as [E|E]; injection E as <-.
    - exact (add_finite_inv _ _ F).
    - exact (sub_finite_inv _ _ F). }
  destruct Fk as [FP Fk].
  apply mul_finite_inv in Fk. destruct Fk as [Fh F2].
  apply mul_finite_inv in Fh. apply mul_finite_inv in F2. tauto.
- intros T V Cp r E F.
  unfold static_to_total_temperature, total_to_static_temperature in E.
  destruct (pow2 V) as [V2|e] eqn:EV; cbn [bind] in E;
    [|destruct E; discriminate].
  apply square_value in EV. subst V2.
  destruct (div (lit 0.5 * (V * V)%float)%py Cp) as [k|e] eqn:EK;
    cbn [bind] in E; [|destruct E; discriminate].
  apply div_value in EK. subst k.
  assert (Fk : is_finite T = true /\
               is_finite ((lit 0.5 * (V * V)%float)%py / Cp)%float = true).
  { destruct E as [E|E]; injection E as <-.
    - exact (add_finite_inv _ _ F).
    - exact (sub_finite_inv _ _ F). }
  destruct Fk as [FT Fk].
  apply div_finite_inv in Fk.
  apply (mul_finite_inv (lit 0.5)) in Fk. destruct Fk as [_ F2].
  apply mul_finite_inv in F2. tauto.
- intros T V Cp rf r E F.
  unfold measured_to_total_temperature in E.
  destruct (pow2 V) as [V2|e] eqn:EV; cbn [bind] in E; [|discriminate].
  apply square_value in EV. subst V2.
  destruct (div ((lit 1 - rf) * lit 0.5 * (V * V)%float)%py Cp) as [k|e] eqn:EK;
    cbn [bind] in E; [|discriminate].
  apply div_value in EK. subst k. injection E as <-.
  destruct (sub_finite_inv _ _ F) as [FT Fk].
  apply div_finite_inv in Fk.
  apply mul_finite_inv in Fk. destruct Fk as [Fa F2].
  apply mul_finite_inv in Fa. destruct Fa as [Fa _].
  apply sub_finite_inv in Fa.
  apply mul_finite_inv in F2. tauto.
Qed.

Lemma finite_result_finite_arguments_witness :
(is_finite 100000%float = true /\ is_finite 100%float = true /\
 is_finite 0.8%float = true) /\
(is_finite 293.15%float = true /\ is_finite 50%float = true) /\
(is_finite 293.15%float = true /\ is_finite 50%float = true /\
 is_finite 0.65%float = true).
Proof.
destruct finite_result_finite_arguments as (H1 & H2 & H3).
split; [|split].
- apply (H1 100000%float 100%float 0.8%float 104000%float);
    [left|]; reflexivity.
- apply (H2 293.15%float 50%float 2080%float
           (293.15 + (lit 0.5 * 2500)%py / 2080)%float); [left|]; reflexivity.
- apply (H3 293.15%float 50%float 2080%float 0.65%float
           (293.15 - ((lit 1 - 0.65) * lit 0.5 * 2500)%py / 2080)%float);
    reflexivity.
Defined.

(** * Further properties of the loops *)

(** X18: the loops only append.  Over any list of velocities and from
    any lists, a sweep that returns has kept what the lists held and has
    appended one element per velocity to each of them: the pressure loop
    the static pressure and a relative difference, the temperature loop a
    static temperature, a measured temperature and a difference. *)
Theorem sweeps_append_only :
(forall (gp : GasProperties float) (vs : list float)
        (s s' : PressureLists float),
    for_each vs (pressure_body gp) s = Ok s' ->
    P_static_values s' = P_static_values s ++ repeat P_static (length vs) /\
    exists rs,
      length rs = length vs /\
      P_relative_diff_total_static s' = P_relative_diff_total_static s ++ rs) /\
(forall (vs : list float) (s s' : TemperatureLists float),
    for_each vs temperature_body s = Ok s' ->
    exists a b c,
      length a = length vs /\ length b = length vs /\ length c = length vs /\
      T_static_values s' = T_static_values s ++ a /\
      T_measured_values s' = T_measured_values s ++ b /\
      T_diff_measured_static s' = T_diff_measured_static s ++ c).
Proof.
split.
- intros gp vs s s' E.
  destruct (pressure_loop gp vs s s' E) as (rs & Hr & Hp & HF).
  split; [exact Hp|]. exists rs. split; [|exact Hr].
  symmetry. exact (Forall2_length_eq _ _ _ HF).
- intros vs s s' E. exact (temperature_loop_appends vs s s' E).
Qed.

Lemma sweeps_append_only_witness :
(exists s',
    for_each [0%float; 150%float] (pressure_body {| rho := 0.745%float |})
      {| P_static_values := [1%float];
         P_relative_diff_total_static := [0%float] |} = Ok s' /\
    P_static_values s' = [1%float] ++ repeat P_static 2 /\
    exists rs,
      length rs = 2%nat /\
      P_relative_diff_total_static s' = [0%float] ++ rs) /\
(exists s',
    for_each [0%float; 150%float] temperature_body
      {| T_measured_values := [293.15%float];
         T_static_values := [293.15%float];
         T_diff_measured_static := [0%float] |} = Ok s' /\
    exists a b c,
      length a = 2%nat /\ length b = 2%nat /\ length c = 2%nat /\
      T_static_values s' = [293.15%float] ++ a /\
      T_measured_values s' = [293.15%float] ++ b /\
      T_diff_measured_static s' = [0%float] ++ c).
Proof.
split.
- eexists. split; [vm_compute; reflexivity|].
  apply (proj1 sweeps_append_only {| rho := 0.745%float |}
           [0%float; 150%float]
           {| P_static_values := [1%float];
              P_relative_diff_total_static := [0%float] |}).
  vm_compute. reflexivity.
- eexists. split; [vm_compute; reflexivity|].
  apply (proj2 sweeps_append_only [0%float; 150%float]
           {| T_measured_values := [293.15%float];
              T_static_values := [293.15%float];
              T_diff_measured_static := [0%float] |}).
  vm_compute. reflexivity.
Defined.

(** * The order of the results *)

(** X19: for every finite density that is not negative, the binary64
    run of the pressure script returns a series of relative differences
    that never decreases from one velocity to the next and has no
    negative element, whatever the roundings do. *)
Theorem pressure_sweep_never_decreases :
forall (calculate_from_PT :
          Composition float -> float -> float -> res (GasProperties float))
       (gp : GasProperties float),
  calculate_from_PT composition P_static T = Ok gp ->
  is_finite (rho gp) = true ->
  (lit 0 <=? rho gp)%py = true ->
  exists run,
    pressure_script calculate_from_PT = Ok run /\
    (forall i a b,
       nth_error (P_relative_diff_total_static (pr_lists run)) i = Some a ->
       nth_error (P_relative_diff_total_static (pr_lists run)) (S i)
         = Some b ->
       (a <=? b)%py = true) /\
    (forall i a,
       nth_error (P_relative_diff_total_static (pr_lists run)) i = Some a ->
       (lit 0 <=? a)%py = true).
Proof.
intros calculate_from_PT gp lookup Fr Lr.
destruct (pressure_script_binary64 _ _ lookup) as (run & E & Ev & Ep & HF).
exists run. split; [exact E|]. split.
- apply (Forall2_adjacent _
           (fun V V' => exists V2 V2',
              pow2 V = Ok V2 /\ pow2 V' = Ok V2' /\
              is_finite V2 = true /\ is_finite V2' = true /\
              PrimFloat.leb V2 V2' = true) _ _ _ HF).
  + apply Forall_forall. intros [V V'] HIn.
    pose proof velocities_binary64_squares_ordered as F.
    rewrite forallb_forall in F. specialize (F _ HIn).
    cbn [fst snd] in *.
    destruct (pow2 V) as [V2|]; [|discriminate].
    destruct (pow2 V') as [V2'|]; [|discriminate].
    apply andb_true_iff in F. destruct F as [F L].
    apply andb_true_iff in F. destruct F as [F2 F2'].
    exists V2, V2'. repeat split; assumption.
  + intros V V' r r' (V2 & V2' & EV & EV' & F2 & F2' & L) Hr Hr'.
    rewrite (relative_difference_at_value _ _ _ _ EV Hr),
      (relative_difference_at_value _ _ _ _ EV' Hr').
    now apply relative_difference_mono.
- intros i a Ea.
  destruct (Forall2_nth_error_r _ _ _ HF i a Ea) as (V & HIn & Hr).
  pose proof velocities_binary64_squares as F.
  rewrite forallb_forall in F. specialize (F _ HIn).
  destruct (pow2 V) as [V2|] eqn:EV; [|discriminate].
  apply andb_true_iff in F. destruct F as [F2 L2].
  rewrite (relative_difference_at_value _ _ _ _ EV Hr).
  rewrite <- (relative_difference_of_rest (rho gp) Fr) at 1.
  now apply relative_difference_mono.
Qed.

Lemma pressure_sweep_never_decreases_witness :
exists run,
  pressure_script (fun _ _ _ => Ok {| rho := 1e-20%float |}) = Ok run /\
  (forall i a b,
     nth_error (P_relative_diff_total_static (pr_lists run)) i = Some a ->
     nth_error (P_relative_diff_total_static (pr_lists run)) (S i)
       = Some b ->
     (a <=? b)%py = true) /\
  (forall i a,
     nth_error (P_relative_diff_total_static (pr_lists run)) i = Some a ->
     (lit 0 <=? a)%py = true).
Proof.
apply (pressure_sweep_never_decreases
         (fun _ _ _ => Ok {| rho := 1e-20%float |})
         {| rho := 1e-20%float |}); reflexivity.
Defined.

(** X20: the two pressure conversions keep the order of their
    arguments in binary64, roundings included.  For finite arguments
    whose [V ** 2] does not overflow: a greater pressure gives a greater
    result of both; a greater density gives a greater total and a smaller
    static pressure; and, for a density that is not negative, so does a
    velocity whose square [V ** 2], as the power computes it, is
    greater. *)
Theorem pressure_conversions_monotone :
forall P V rho V2 : float,
  is_finite P = true -> is_finite V = true -> is_finite rho = true ->
  pow2 V = Ok V2 ->
  exists P_tot P_stat,
    static_to_total_pressure P V rho = Ok P_tot /\
    total_to_static_pressure P V rho = Ok P_stat /\
    (forall P', is_finite P' = true -> (P <=? P')%py = true ->
       exists a b,
         static_to_total_pressure P' V rho = Ok a /\
         total_to_static_pressure P' V rho = Ok b /\
         (P_tot <=? a)%py = true /\ (P_stat <=? b)%py = true) /\
    (forall rho', is_finite rho' = true -> (rho <=? rho')%py = true ->
       exists a b,
         static_to_total_pressure P V rho' = Ok a /\
         total_to_static_pressure P V rho' = Ok b /\
         (P_tot <=? a)%py = true /\ (b <=? P_stat)%py = true) /\
    (forall V' V2', is_finite V' = true -> pow2 V' = Ok V2' ->
       (lit 0 <=? rho)%py = true ->
       (V2 <=? V2')%py = true ->
       exists a b,
         static_to_total_pressure P V' rho = Ok a /\
         total_to_static_pressure P V' rho = Ok b /\
         (P_tot <=? a)%py = true /\ (b <=? P_stat)%py = true).
Proof.
intros P V rho V2 FP FV Fr EV.
destruct (square_returns_finite V V2 FV EV) as (_ & F2 & L2).
unfold static_to_total_pressure, total_to_static_pressure.
rewrite EV. cbn [bind]. do 2 eexists.
split; [reflexivity|]. split; [reflexivity|]. split; [|split].
- intros P' FP' L. do 2 eexists.
  split; [reflexivity|]. split; [reflexivity|].
  apply (add_sub_mono_l_any (0.5 * rho * V2) P P'); try assumption.
  now apply dynamic_pressure_not_nan.
- intros rho' Fr' L. do 2 eexists.
  split; [reflexivity|]. split; [reflexivity|].
  pose proof (dynamic_pressure_mono_rho rho rho' V2 Fr Fr' F2 L2 L) as K.
  split.
  + now apply (add_le_mono_r P).
  + now apply (sub_anti_r P).
- intros V' V2' FV' EV' Lr LV.
  destruct (square_returns_finite V' V2' FV' EV') as (_ & F2' & _).
  rewrite EV'. cbn [bind]. do 2 eexists.
  split; [reflexivity|]. split; [reflexivity|].
  pose proof LV as L.
  pose proof (dynamic_pressure_mono_square rho V2 V2' Fr Lr F2 F2' L) as K.
  split.
  + now apply (add_le_mono_r P).
  + now apply (sub_anti_r P).
Qed.

Lemma pressure_conversions_monotone_witness :
exists P_tot P_stat,
  static_to_total_pressure 100000%float 100%float 0.745%float = Ok P_tot /\
  total_to_static_pressure 100000%float 100%float 0.745%float = Ok P_stat /\
  (exists a b,
     static_to_total_pressure 200000%float 100%float 0.745%float = Ok a /\
     total_to_static_pressure 200000%float 100%float 0.745%float = Ok b /\
     (P_tot <=? a)%py = true /\ (P_stat <=? b)%py = true) /\
  (exists a b,
     static_to_total_pressure 100000%float 100%float 0.8%float = Ok a /\
     total_to_static_pressure 100000%float 100%float 0.8%float = Ok b /\
     (P_tot <=? a)%py = true /\ (b <=? P_stat)%py = true) /\
  (exists a b,
     static_to_total_pressure 100000%float (-300)%float 0.745%float = Ok a /\
     total_to_static_pressure 100000%float (-300)%float 0.745%float = Ok b /\
     (P_tot <=? a)%py = true /\ (b <=? P_stat)%py = true).
Proof.
destruct (pressure_conversions_monotone
            100000%float 100%float 0.745%float 10000%float
            eq_refl eq_refl eq_refl eq_refl)
  as (P_tot & P_stat & E1 & E2 & HP & Hr & HV).
exists P_tot, P_stat. split; [exact E1|]. split; [exact E2|].
split; [|split].
- apply HP; reflexivity.
- apply Hr; reflexivity.
- apply (HV (-300)%float 90000%float); reflexivity.
Defined.

(** X21: [static_to_total_temperature] and
    [total_to_static_temperature] keep the order of their arguments in
    binary64, roundings included.  For finite arguments, a positive [Cp]
    and a [V ** 2] that does not overflow: a greater temperature gives a
    greater result of both; a velocity whose square [V ** 2], as the
    power computes it, is greater gives a greater total and a smaller
    static temperature; a greater [Cp] gives a smaller total and a
    greater static temperature. *)
Theorem temperature_conversions_monotone :
forall T V Cp V2 : float,
  is_finite T = true -> is_finite V = true -> is_finite Cp = true ->
  (lit 0 <? Cp)%py = true -> pow2 V = Ok V2 ->
  exists T_tot T_stat,
    static_to_total_temperature T V Cp = Ok T_tot /\
    total_to_static_temperature T V Cp = Ok T_stat /\
    (forall T', is_finite T' = true -> (T <=? T')%py = true ->
       exists a b,
         static_to_total_temperature T' V Cp = Ok a /\
         total_to_static_temperature T' V Cp = Ok b /\
         (T_tot <=? a)%py = true /\ (T_stat <=? b)%py = true) /\
    (forall V' V2', is_finite V' = true -> pow2 V' = Ok V2' ->
       (V2 <=? V2')%py = true ->
       exists a b,
         static_to_total_temperature T V' Cp = Ok a /\
         total_to_static_temperature T V' Cp = Ok b /\
         (T_tot <=? a)%py = true /\ (b <=? T_stat)%py = true) /\
    (forall Cp', is_finite Cp' = true -> (Cp <=? Cp')%py = true ->
       exists a b,
         static_to_total_temperature T V Cp' = Ok a /\
         total_to_static_temperature T V Cp' = Ok b /\
         (a <=? T_tot)%py = true /\ (T_stat <=? b)%py = true).
Proof.
intros T V Cp V2 FT FV FC PC EV.
destruct (square_returns_finite V V2 FV EV) as (_ & F2 & L2).
destruct (positive_spec Cp PC) as [_ ZC].
assert (F5 : is_finite 0.5 = true) by reflexivity.
assert (L5 : PrimFloat.leb 0 0.5 = true) by reflexivity.
unfold static_to_total_temperature, total_to_static_temperature.
rewrite EV. cbn [bind].
rewrite (binary64_div_nonzero _ _ ZC). cbn [bind]. do 2 eexists.
split; [reflexivity|]. split; [reflexivity|]. split; [|split].
- intros T' FT' L. do 2 eexists.
  split; [reflexivity|]. split; [reflexivity|].
  apply (add_sub_mono_l_any (0.5 * V2 / Cp) T T'); try assumption.
  now apply kinetic_term_not_nan.
- intros V' V2' FV' EV' LV.
  destruct (square_returns_finite V' V2' FV' EV') as (_ & F2' & _).
  rewrite EV'. cbn [bind].
  rewrite (binary64_div_nonzero _ _ ZC). cbn [bind]. do 2 eexists.
  split; [reflexivity|]. split; [reflexivity|].
  pose proof LV as L.
  pose proof (kinetic_term_mono_square 0.5 V2 V2' Cp F5 L5 F2 F2' FC PC L)
    as K.
  split.
  + now apply (add_le_mono_r T).
  + now apply (sub_anti_r T).
- intros Cp' FC' L.
  pose proof (positive_above Cp Cp' PC L) as PC'.
  destruct (positive_spec Cp' PC') as [_ ZC'].
  rewrite (binary64_div_nonzero _ _ ZC'). cbn [bind]. do 2 eexists.
  split; [reflexivity|]. split; [reflexivity|].
  pose proof (kinetic_term_anti_Cp 0.5 V2 Cp Cp' F5 L5 F2 L2 PC FC' L) as K.
  split.
  + now apply (add_le_mono_r T).
  + now apply (sub_anti_r T).
Qed.

Lemma temperature_conversions_monotone_witness :
exists T_tot T_stat,
  static_to_total_temperature 293.15%float 50%float 2080%float = Ok T_tot /\
  total_to_static_temperature 293.15%float 50%float 2080%float = Ok T_stat /\
  (exists a b,
     static_to_total_temperature 300%float 50%float 2080%float = Ok a /\
     total_to_static_temperature 300%float 50%float 2080%float = Ok b /\
     (T_tot <=? a)%py = true /\ (T_stat <=? b)%py = true) /\
  (exists a b,
     static_to_total_temperature 293.15%float (-300)%float 2080%float = Ok a /\
     total_to_static_temperature 293.15%float (-300)%float 2080%float = Ok b /\
     (T_tot <=? a)%py = true /\ (b <=? T_stat)%py = true) /\
  (exists a b,
     static_to_total_temperature 293.15%float 50%float 2500%float = Ok a /\
     total_to_static_temperature 293.15%float 50%float 2500%float = Ok b /\
     (a <=? T_tot)%py = true /\ (T_stat <=? b)%py = true).
Proof.
destruct (temperature_conversions_monotone
            293.15%float 50%float 2080%float 2500%float
            eq_refl eq_refl eq_refl eq_refl eq_refl)
  as (T_tot & T_stat & E1 & E2 & HT & HV & HC).
exists T_tot, T_stat. split; [exact E1|]. split; [exact E2|].
split; [|split].
- apply HT; reflexivity.
- apply (HV (-300)%float 90000%float); reflexivity.
- apply HC; reflexivity.
Defined.

(** X22: [measured_to_total_temperature] keeps the order of its
    arguments in binary64, roundings included.  For finite arguments, a
    positive [Cp] and a [V ** 2] that does not overflow: a greater
    measured temperature gives a greater result, and so does a greater
    recovery factor; for a recovery factor of at most 1, a velocity
    whose square [V ** 2], as the power computes it, is greater gives a
    smaller result and a greater [Cp] a greater one. *)
Theorem measured_to_total_monotone :
forall T V Cp rf V2 : float,
  is_finite T = true -> is_finite V = true -> is_finite Cp = true ->
  is_finite rf = true ->
  (lit 0 <? Cp)%py = true -> pow2 V = Ok V2 ->
  exists r,
    measured_to_total_temperature T V Cp rf = Ok r /\
    (forall T', is_finite T' = true -> (T <=? T')%py = true ->
       exists a,
         measured_to_total_temperature T' V Cp rf = Ok a /\
         (r <=? a)%py = true) /\
    (forall rf', is_finite rf' = true -> (rf <=? rf')%py = true ->
       exists a,
         measured_to_total_temperature T V Cp rf' = Ok a /\
         (r <=? a)%py = true) /\
    (forall V' V2', is_finite V' = true -> pow2 V' = Ok V2' ->
       (rf <=? lit 1)%py = true ->
       (V2 <=? V2')%py = true ->
       exists a,
         measured_to_total_temperature T V' Cp rf = Ok a /\
         (a <=? r)%py = true) /\
    (forall Cp', is_finite Cp' = true -> (rf <=? lit 1)%py = true ->
       (Cp <=? Cp')%py = true ->
       exists a,
         measured_to_total_temperature T V Cp' rf = Ok a /\
         (r <=? a)%py = true).
Proof.
intros T V Cp rf V2 FT FV FC Frf PC EV.
destruct (square_returns_finite V V2 FV EV) as (_ & F2 & L2).
destruct (positive_spec Cp PC) as [_ ZC].
pose proof (mul_half_finite _ (one_minus_finite rf Frf)) as Fk.
change ((lit 1 - rf) * lit 0.5)%py with ((1 - rf) * 0.5)%float in Fk.
unfold measured_to_total_temperature.
rewrite EV. cbn [bind].
rewrite (binary64_div_nonzero _ _ ZC). cbn [bind]. eexists.
split; [reflexivity|]. split; [|split; [|split]].
- intros T' FT' L. eexists. split; [reflexivity|].
  apply (add_sub_mono_l_any ((1 - rf) * 0.5 * V2 / Cp) T T');
    try assumption.
  now apply kinetic_term_not_nan.
- intros rf' Frf' L.
  rewrite (binary64_div_nonzero _ _ ZC). cbn [bind]. eexists.
  split; [reflexivity|].
  apply (sub_anti_r T); [assumption|].
  apply div_le_mono_pos; try assumption.
  pose proof (mul_half_finite _ (one_minus_finite rf' Frf')) as Fk'.
  apply mul_le_mono_nonneg_l; try assumption.
  now apply recovery_coefficient_anti.
- intros V' V2' FV' EV' Lrf LV.
  destruct (square_returns_finite V' V2' FV' EV') as (_ & F2' & _).
  rewrite EV'. cbn [bind].
  rewrite (binary64_div_nonzero _ _ ZC). cbn [bind]. eexists.
  split; [reflexivity|].
  destruct (recovery_coefficient_nonneg rf Frf Lrf) as [_ Lk].
  pose proof LV as L.
  apply (sub_anti_r T); [assumption|].
  now apply kinetic_term_mono_square.
- intros Cp' FC' Lrf L.
  pose proof (positive_above Cp Cp' PC L) as PC'.
  destruct (positive_spec Cp' PC') as [_ ZC'].
  rewrite (binary64_div_nonzero _ _ ZC'). cbn [bind]. eexists.
  split; [reflexivity|].
  destruct (recovery_coefficient_nonneg rf Frf Lrf) as [_ Lk].
  apply (sub_anti_r T); [assumption|].
  now apply kinetic_term_anti_Cp.
Qed.

Lemma measured_to_total_monotone_witness :
exists r,
  measured_to_total_temperature 293.15%float 50%float 2080%float 0.65%float
    = Ok r /\
  (exists a,
     measured_to_total_temperature 300%float 50%float 2080%float 0.65%float
       = Ok a /\ (r <=? a)%py = true) /\
  (exists a,
     measured_to_total_temperature 293.15%float 50%float 2080%float 0.9%float
       = Ok a /\ (r <=? a)%py = true) /\
  (exists a,
     measured_to_total_temperature 293.15%float (-300)%float 2080%float
       0.65%float = Ok a /\ (a <=? r)%py = true) /\
  (exists a,
     measured_to_total_temperature 293.15%float 50%float 2500%float 0.65%float
       = Ok a /\ (r <=? a)%py = true).
Proof.
destruct (measured_to_total_monotone
            293.15%float 50%float 2080%float 0.65%float 2500%float
            eq_refl eq_refl eq_refl eq_refl eq_refl eq_refl)
  as (r & E & HT & Hrf & HV & HC).
exists r. split; [exact E|]. split; [|split; [|split]].
- apply HT; reflexivity.
- apply Hrf; reflexivity.
- apply (HV (-300)%float 90000%float); reflexivity.
- apply HC; reflexivity.
Defined.
